(** * Diagram tool handlers of next-ai-draw-io: streaming assembly, edits, region cache

    A shallow embedding of
      - the client hook [useDiagramToolHandlers] (display_diagram, edit_diagram,
        append_diagram),
      - the server route [get-cached-regions] and the part of the
        [extract_image_regions] tool that fills the region cache,
      - the route [extract-regions] (clamping, data URLs, warnings),
      - of the chat route: the access code, the history sent to the model,
        the cache point, the truncation of tool results, the tool
        [get_shape_library] and [handleError],
    together with models, written from the specification, of the three helpers
    of [@/lib/utils] the hook imports ([isMxCellXmlComplete], [wrapWithMxFile],
    [applyDiagramOperations]).

    JavaScript strings are modelled as [string] (one [ascii] per code unit, so
    the model covers code units below 256).  Mutable refs, the callbacks of the
    hook and [fetch] are threaded through an explicit system state. *)

From Stdlib Require Import String Ascii List ZArith Lia Bool DecimalString.
From stdpp Require Import base gmap strings list.

Open Scope string_scope.
Open Scope list_scope.

(* ===================================================================== *)
(** * Part I: definitions                                                 *)
(* ===================================================================== *)

(** ** JavaScript string primitives used by the handlers *)

Module Js.

(** The double quote, as a one-character string. *)
Definition dq : string := String (ascii_of_nat 34) "".

(** WhiteSpace and LineTerminator code units below 256: what [trim] strips and
    what the regular-expression class [\s] matches. *)
Definition isWhiteSpace (c : ascii) : bool :=
  let n := nat_of_ascii c in
  (n =? 9)%nat || (n =? 10)%nat || (n =? 11)%nat || (n =? 12)%nat
  || (n =? 13)%nat || (n =? 32)%nat || (n =? 160)%nat.

Fixpoint trimStart (s : string) : string :=
  match s with
  | String c r => if isWhiteSpace c then trimStart r else s
  | "" => ""
  end.

Fixpoint trimEnd (s : string) : string :=
  match s with
  | String c r =>
      match trimEnd r with
      | "" => if isWhiteSpace c then "" else String c ""
      | r' => String c r'
      end
  | "" => ""
  end.

(** [s.trim()] *)
Definition trim (s : string) : string := trimEnd (trimStart s).

(** [s.startsWith(p)] *)
Definition startsWith (s p : string) : bool := String.prefix p s.

Fixpoint drop (n : nat) (s : string) : string :=
  match n, s with
  | O, _ => s
  | S n', String _ r => drop n' r
  | S _, "" => ""
  end.

Fixpoint take (n : nat) (s : string) : string :=
  match n, s with
  | S n', String c r => String c (take n' r)
  | _, _ => ""
  end.

(** [s.slice(-n)]: the last [n] code units, the whole string when it is shorter. *)
Definition sliceLast (n : nat) (s : string) : string :=
  drop (String.length s - n) s.

(** [s.substring(0, n)] *)
Definition substring0 (n : nat) (s : string) : string := take n s.

(** First occurrence of [needle] in [hay]: the text before it and the text after it. *)
Fixpoint splitFirst (needle hay : string) : option (string * string) :=
  if String.prefix needle hay then Some ("", drop (String.length needle) hay)
  else match hay with
       | "" => None
       | String c r =>
           match splitFirst needle r with
           | Some (before, after) => Some (String c before, after)
           | None => None
           end
       end.

(** [s.includes(needle)] *)
Definition includes (s needle : string) : bool :=
  match splitFirst needle s with Some _ => true | None => false end.

(** GetSubstitution for a string pattern (no capture groups): in the replacement
    text, [$$] is a dollar sign, [$&] the matched text, [$`] the text before the
    match and [$'] the text after it; any other [$] stands for itself. *)
Fixpoint getSubstitution (matched before after replacement : string) : string :=
  match replacement with
  | "" => ""
  | String c rest =>
      if Ascii.eqb c "$" then
        match rest with
        | "" => "$"
        | String d rest' =>
            if Ascii.eqb d "$" then "$" +:+ getSubstitution matched before after rest'
            else if Ascii.eqb d "&" then matched +:+ getSubstitution matched before after rest'
            else if Ascii.eqb d "`" then before +:+ getSubstitution matched before after rest'
            else if Ascii.eqb d "'" then after +:+ getSubstitution matched before after rest'
            else String c (getSubstitution matched before after rest)
        end
      else String c (getSubstitution matched before after rest)
  end.

(** [s.replace(searchStr, replacement)] with a string pattern: only the first
    occurrence is replaced; without an occurrence [s] is returned as it is. *)
Definition replace (s searchStr replacement : string) : string :=
  match splitFirst searchStr s with
  | Some (before, after) =>
      before +:+ getSubstitution searchStr before after replacement +:+ after
  | None => s
  end.

(** [s.replace(/;/g, "%3B")] *)
Fixpoint replaceSemicolons (s : string) : string :=
  match s with
  | "" => ""
  | String c r =>
      if Ascii.eqb c ";" then "%3B" +:+ replaceSemicolons r
      else String c (replaceSemicolons r)
  end.

(** Longest prefix whose code units all satisfy [p], and the rest. *)
Fixpoint span (p : ascii -> bool) (s : string) : string * string :=
  match s with
  | String c r =>
      if p c then let '(a, b) := span p r in (String c a, b) else ("", s)
  | "" => ("", "")
  end.

(** [parts.join("\n")] *)
Fixpoint joinLines (parts : list string) : string :=
  match parts with
  | [] => ""
  | [p] => p
  | p :: rest => p +:+ String (ascii_of_nat 10) (joinLines rest)
  end.

(** Concatenation of a list of fragments, in order. *)
Fixpoint concatAll (parts : list string) : string :=
  match parts with
  | [] => ""
  | p :: rest => p +:+ concatAll rest
  end.

(** Occurrence of a code unit in a string. *)
Fixpoint occurs (c : ascii) (s : string) : bool :=
  match s with
  | "" => false
  | String d r => Ascii.eqb c d || occurs c r
  end.

End Js.

(** ** Types shared by the hook and by [@/lib/utils] *)

(** [DiagramOperation.operation] *)
Inductive OperationName := update | add | delete.

(** [interface DiagramOperation] *)
Record DiagramOperation := {
  operation : OperationName;
  cell_id : string;
  new_xml : option string
}.

(** The diagnostics [applyDiagramOperations] returns; the hook reads [type],
    [cellId] and [message] of each. *)
Record OperationError := {
  type : string;
  cellId : string;
  message : string
}.

(** What [applyDiagramOperations] returns: [{ result, errors }]. *)
Record ApplyOperationsResult := {
  result : string;
  errors : list OperationError
}.

(** The three functions the hook imports from [@/lib/utils].  That module is
    not among the sources: the handlers below take it as a parameter. *)
Record LibUtils := {
  isMxCellXmlComplete : string -> bool;
  wrapWithMxFile : string -> string;
  applyDiagramOperations : string -> list DiagramOperation -> ApplyOperationsResult
}.

(** ** Completeness detector *)

Module Detector.

(** The scanner's state: [quote] is the delimiter of the attribute value the
    scanner is inside of, if any; [inTag] holds between a [<] and its [>];
    [closing] when the tag began with [</]; [fresh] right after the [<];
    [slash] when the last code unit read in the tag is a [/]; [depth] counts
    start tags that are open and not self-closed. *)
Record Scan := {
  quote : option ascii;
  inTag : bool;
  closing : bool;
  fresh : bool;
  slash : bool;
  depth : Z
}.

Definition start : Scan :=
  {| quote := None; inTag := false; closing := false; fresh := false;
     slash := false; depth := 0 |}.

Definition isQuote (c : ascii) : bool :=
  Ascii.eqb c (ascii_of_nat 34) || Ascii.eqb c (ascii_of_nat 39).

Definition step (st : Scan) (c : ascii) : Scan :=
  match quote st with
  | Some q =>
      if Ascii.eqb c q
      then {| quote := None; inTag := inTag st; closing := closing st;
              fresh := false; slash := false; depth := depth st |}
      else st
  | None =>
      if inTag st then
        if isQuote c then
          {| quote := Some c; inTag := true; closing := closing st;
             fresh := false; slash := false; depth := depth st |}
        else if Ascii.eqb c ">" then
          {| quote := None; inTag := false; closing := false; fresh := false;
             slash := false;
             depth := if closing st then (depth st - 1)%Z
                      else if slash st then depth st
                      else (depth st + 1)%Z |}
        else if Ascii.eqb c "/" then
          {| quote := None; inTag := true; closing := closing st || fresh st;
             fresh := false; slash := negb (fresh st); depth := depth st |}
        else
          {| quote := None; inTag := true; closing := closing st;
             fresh := false; slash := false; depth := depth st |}
      else if Ascii.eqb c "<" then
        {| quote := None; inTag := true; closing := false; fresh := true;
           slash := false; depth := depth st |}
      else st
  end.

Fixpoint scanFrom (st : Scan) (text : string) : Scan :=
  match text with
  | "" => st
  | String c rest => scanFrom (step st c) rest
  end.

Definition scan (text : string) : Scan := scanFrom start text.

Definition insideQuote (st : Scan) : bool :=
  match quote st with Some _ => true | None => false end.

Definition closed (st : Scan) : bool :=
  negb (insideQuote st) && negb (inTag st) && (depth st =? 0)%Z.

(** Modelled from the spec: [isMxCellXmlComplete] of [@/lib/utils], which is not
    among the sources.  Section 4.2: scan left to right keeping (a) whether the
    scanner is inside a quoted attribute value, where angle brackets are inert,
    and (b) a depth counter of open start tags that are not self-closed; the
    text is Complete iff the scan ends outside any quote, outside any open
    angle bracket, and with the depth counter at zero.  [true] is Complete. *)
Definition isMxCellXmlComplete (xml : string) : bool := closed (scan xml).


End Detector.

(** ** Document wrapper *)

Module Wrapper.

(** Modelled from the spec: [wrapWithMxFile] of [@/lib/utils], which is not
    among the sources.  Section 4.5: the flat cell sequence is wrapped with the
    two reserved scaffold ids; the enclosing tags are the wrapper tags the
    hook's own messages name (mxfile, mxGraphModel, root). *)
Definition wrapWithMxFile (xml : string) : string :=
  "<mxfile><diagram><mxGraphModel><root><mxCell id=" +:+ Js.dq +:+ "0" +:+ Js.dq
  +:+ "/><mxCell id=" +:+ Js.dq +:+ "1" +:+ Js.dq +:+ " parent=" +:+ Js.dq +:+ "0"
  +:+ Js.dq +:+ "/>" +:+ xml +:+ "</root></mxGraphModel></diagram></mxfile>".

End Wrapper.

(** ** The hook [useDiagramToolHandlers] *)

(** A tool call as [onToolCall] receives it.  The input of a call is checked
    against the input schema of its tool before the hook sees it (the schemas
    are declared next to the tools in the chat route), so the input has the
    shape of the tool it names: [toolName] is read off the input. *)
Inductive ToolInput :=
| display_diagram (xml : string)
| edit_diagram (operations : list DiagramOperation)
| append_diagram (xml : string)
| other_tool (name : string).

Record ToolCall := {
  toolCallId : string;
  input : ToolInput
}.

Definition toolName (toolCall : ToolCall) : string :=
  match input toolCall with
  | display_diagram _ => "display_diagram"
  | edit_diagram _ => "edit_diagram"
  | append_diagram _ => "append_diagram"
  | other_tool name => name
  end.

(** [AddToolOutputParams]: [OutputAvailable] is [AddToolOutputSuccess],
    [OutputError] is [AddToolOutputError] (state "output-error"). *)
Inductive AddToolOutputParams :=
| OutputAvailable (tool callId output : string)
| OutputError (tool callId errorText : string).

(** A property read on the [regions] object of a response: a string of its
    own, a member inherited from [Object.prototype] (a function or an object,
    never a string), or [undefined]. *)
Inductive JsValue :=
| JsUndefined
| JsString (s : string)
| JsObject.

Definition objectPrototypeNames : list string :=
  [ "constructor"; "__defineGetter__"; "__defineSetter__"; "hasOwnProperty";
    "__lookupGetter__"; "__lookupSetter__"; "isPrototypeOf";
    "propertyIsEnumerable"; "toString"; "valueOf"; "__proto__";
    "toLocaleString" ].

(** [regions[regionName]] *)
Definition getProperty (regions : gmap string string) (name : string) : JsValue :=
  match regions !! name with
  | Some v => JsString v
  | None => if bool_decide (name ∈ objectPrototypeNames) then JsObject else JsUndefined
  end.

(** What [await fetch("/api/get-cached-regions", ...)] and reading the body
    come to: the promise rejects, or a response arrives with [response.ok] and,
    when its body is JSON with a [regions] member, that member. *)
Inductive FetchOutcome :=
| FetchRejected
| FetchResponse (ok : bool) (regions : option (gmap string string)).

(** One match of [cachePattern]: [m[0]], [m[1]], [m[2]]. *)
Record CacheMatch := {
  fullMatch : string;
  key : string;
  regionName : string
}.

Definition cachePrefix : string := "image=data:cache/".

(** [[^/]] *)
Definition isKeyChar (c : ascii) : bool := negb (Ascii.eqb c "/").

(** The class of the second group: any code unit but a semicolon, a double
    quote or white space. *)
Definition isRegionChar (c : ascii) : bool :=
  negb (Ascii.eqb c ";" || Ascii.eqb c (ascii_of_nat 34) || Js.isWhiteSpace c).

(** A match of [cachePattern] that starts at the head of [s]: the literal
    [image=data:cache/], one or more code units other than [/], a [/], one or
    more code units of the class above.  Both groups are greedy; giving back code units of the first
    group never helps, since none of them is the [/] that must follow. *)
Definition matchHere (s : string) : option CacheMatch :=
  if String.prefix cachePrefix s then
    let '(k, afterKey) := Js.span isKeyChar (Js.drop (String.length cachePrefix) s) in
    match k, afterKey with
    | String _ _, String _ afterSlash =>
        let '(r, _) := Js.span isRegionChar afterSlash in
        match r with
        | "" => None
        | _ => Some {| fullMatch := cachePrefix +:+ k +:+ "/" +:+ r;
                       key := k; regionName := r |}
        end
    | _, _ => None
    end
  else None.

(** [[...xml.matchAll(cachePattern)]]: matches from left to right, the search
    resuming where the previous match ended ([skip] code units further). *)
Fixpoint matchAllFrom (skip : nat) (s : string) : list CacheMatch :=
  match s with
  | "" => []
  | String _ rest =>
      match skip with
      | S k => matchAllFrom k rest
      | O =>
          match matchHere s with
          | Some m => m :: matchAllFrom (String.length (fullMatch m) - 1) rest
          | None => matchAllFrom 0 rest
          end
      end
  end.

Definition cacheMatches (xml : string) : list CacheMatch := matchAllFrom 0 xml.

(** [new Set(cacheMatches.map((m) => m[1]))], in iteration (insertion) order. *)
Definition cacheKeys (matches : list CacheMatch) : list string :=
  fold_left (fun seen k => if bool_decide (k ∈ seen) then seen else seen ++ [k])
            (map key matches) [].

(** The loop over [cacheMatches] for one fetched key (lines 119-166).  A
    property that is not a string has no [replace] method: the call throws,
    the enclosing [try] catches, and the loop for this key ends there. *)
Fixpoint replaceForKey (cacheKey : string) (regions : gmap string string)
    (matches : list CacheMatch) (xml : string) : string :=
  match matches with
  | [] => xml
  | m :: rest =>
      if String.eqb (key m) cacheKey then
        match getProperty regions (regionName m) with
        | JsUndefined => replaceForKey cacheKey regions rest xml
        | JsString "" => replaceForKey cacheKey regions rest xml
        | JsString payload =>
            let dataUrl := Js.replaceSemicolons payload in
            let searchStr := "image=data:cache/" +:+ cacheKey +:+ "/" +:+ regionName m in
            replaceForKey cacheKey regions rest
              (Js.replace xml searchStr ("image=" +:+ dataUrl))
        | JsObject => xml
        end
      else replaceForKey cacheKey regions rest xml
  end.

(** A value of type [string | null] (or [string | undefined]) used as a
    condition: the empty string counts as absent. *)
Definition truthy (v : option string) : option string :=
  match v with
  | Some "" => None
  | _ => v
  end.

(** The parameters of the hook other than the two refs it owns, and [fetch].
    [World] is whatever the callbacks act on (the chart, the editor frame, the
    server); each callback is a function of it.  A rejected promise of
    [onFetchChart] is [inl] with the error's message. *)
Record Env (World : Type) := {
  chartXMLRef : World -> string;
  onDisplayChart : string -> World -> option string * World;
  onFetchChart : bool -> World -> (string + string) * World;
  onExport : World -> World;
  fetchCachedRegions : string -> World -> FetchOutcome * World
}.
Arguments chartXMLRef {World}.
Arguments onDisplayChart {World}.
Arguments onFetchChart {World}.
Arguments onExport {World}.
Arguments fetchCachedRegions {World}.

(** The state the handlers run in: the two refs of the hook, the world of the
    callbacks, and the calls made to [addToolOutput], oldest first. *)
Record Sys (World : Type) := {
  partialXmlRef : string;
  editDiagramOriginalXmlRef : gmap string string;
  world : World;
  toolOutputs : list AddToolOutputParams
}.
Arguments partialXmlRef {World}.
Arguments editDiagramOriginalXmlRef {World}.
Arguments world {World}.
Arguments toolOutputs {World}.

Section Handlers.
Context {World : Type}.
Variable lib : LibUtils.
Variable env : Env World.

Definition setPartialXml (xml : string) (s : Sys World) : Sys World :=
  {| partialXmlRef := xml;
     editDiagramOriginalXmlRef := editDiagramOriginalXmlRef s;
     world := world s; toolOutputs := toolOutputs s |}.

Definition setWorld (w : World) (s : Sys World) : Sys World :=
  {| partialXmlRef := partialXmlRef s;
     editDiagramOriginalXmlRef := editDiagramOriginalXmlRef s;
     world := w; toolOutputs := toolOutputs s |}.

(** [editDiagramOriginalXmlRef.current.delete(toolCallId)] *)
Definition deleteOriginalXml (callId : string) (s : Sys World) : Sys World :=
  {| partialXmlRef := partialXmlRef s;
     editDiagramOriginalXmlRef := base.delete callId (editDiagramOriginalXmlRef s);
     world := world s; toolOutputs := toolOutputs s |}.

Definition addToolOutput (params : AddToolOutputParams) (s : Sys World) : Sys World :=
  {| partialXmlRef := partialXmlRef s;
     editDiagramOriginalXmlRef := editDiagramOriginalXmlRef s;
     world := world s; toolOutputs := toolOutputs s ++ [params] |}.

(** The loop over [cacheKeys] (lines 101-183): one fetch per key; only an ok
    response that carries regions changes the text. *)
Fixpoint resolveKeys (matches : list CacheMatch) (keys : list string)
    (xml : string) (w : World) : string * World :=
  match keys with
  | [] => (xml, w)
  | cacheKey :: rest =>
      let '(outcome, w') := fetchCachedRegions env cacheKey w in
      let xml' :=
        match outcome with
        | FetchResponse true (Some regions) => replaceForKey cacheKey regions matches xml
        | _ => xml
        end in
      resolveKeys matches rest xml' w'
  end.

(** Lines 87-184 of [handleDisplayDiagram]: cache references replaced by the
    cached data. *)
Definition resolveCacheReferences (xml : string) (w : World) : string * World :=
  let matches := cacheMatches xml in
  if (0 <? length matches)%nat
  then resolveKeys matches (cacheKeys matches) xml w
  else (xml, w).

(** The texts handed to [addToolOutput]. *)

Definition truncatedText (partialEnding : string) : string :=
  "Output was truncated due to length limits. Use the append_diagram tool to continue.

Your output ended with:
```
" +:+ partialEnding +:+ "
```

NEXT STEP: Call append_diagram with the continuation XML.
- Do NOT include wrapper tags or root cells (id=" +:+ Js.dq +:+ "0" +:+ Js.dq
  +:+ ", id=" +:+ Js.dq +:+ "1" +:+ Js.dq +:+ ")
- Start from EXACTLY where you stopped
- Complete all remaining mxCell elements".

Definition displayInvalidText (validationError finalXml : string) : string :=
  validationError +:+ "

Please fix the XML issues and call display_diagram again with corrected XML.

Your failed XML:
```xml
" +:+ finalXml +:+ "
```".

Definition operationErrorLine (e : OperationError) : string :=
  "- " +:+ type e +:+ " on cell_id=" +:+ Js.dq +:+ cellId e +:+ Js.dq
  +:+ ": " +:+ message e.

Definition operationsFailedText (errs : list OperationError) (currentXml : string) : string :=
  "Some operations failed:
" +:+ Js.joinLines (map operationErrorLine errs) +:+ "

Current diagram XML:
```xml
" +:+ currentXml +:+ "
```

Please check the cell IDs and retry.".

Definition editInvalidText (validationError currentXml : string) : string :=
  "Edit produced invalid XML: " +:+ validationError +:+ "

Current diagram XML:
```xml
" +:+ currentXml +:+ "
```

Please fix the operations to avoid structural issues.".

Definition editAppliedText (n : nat) : string :=
  "Successfully applied " +:+ NilEmpty.string_of_uint (Nat.to_uint n)
  +:+ " operation(s) to the diagram.".

Definition editFailedText (errorMessage currentXml : string) : string :=
  "Edit failed: " +:+ errorMessage +:+ "

Current diagram XML:
```xml
" +:+ (match currentXml with "" => "No XML available" | _ => currentXml end) +:+ "
```

Please check cell IDs and retry, or use display_diagram to regenerate.".

Definition freshStartText (expected : string) : string :=
  "ERROR: You started fresh with wrapper tags. Do NOT include wrapper tags or root cells (id="
  +:+ Js.dq +:+ "0" +:+ Js.dq +:+ ", id=" +:+ Js.dq +:+ "1" +:+ Js.dq +:+ ").

Continue from EXACTLY where the partial ended:
```
" +:+ expected +:+ "
```

Start your continuation with the NEXT character after where it stopped.".

Definition assemblyInvalidText (validationError finalXml : string) : string :=
  "Validation error after assembly: " +:+ validationError +:+ "

Assembled XML:
```xml
" +:+ Js.substring0 2000 finalXml +:+ "...
```

Please use display_diagram with corrected XML.".

Definition stillIncompleteText (ending : string) : string :=
  "XML still incomplete (mxCell not closed). Call append_diagram again to continue.

Current ending:
```
" +:+ ending +:+ "
```

Continue from EXACTLY where you stopped.".

(** [handleDisplayDiagram] (lines 81-298). *)
Definition handleDisplayDiagram (callId xml : string) (s : Sys World) : Sys World :=
  let '(xml, w) := resolveCacheReferences xml (world s) in
  let s := setWorld w s in
  let isTruncated := negb (isMxCellXmlComplete lib xml) in
  if isTruncated then
    let s := setPartialXml xml s in
    let partialEnding := Js.sliceLast 500 (partialXmlRef s) in
    addToolOutput
      (OutputError "display_diagram" callId (truncatedText partialEnding)) s
  else
    let finalXml := xml in
    let s := setPartialXml "" s in
    let fullXml := wrapWithMxFile lib finalXml in
    let '(validationError, w) := onDisplayChart env fullXml (world s) in
    let s := setWorld w s in
    match truthy validationError with
    | Some err =>
        addToolOutput
          (OutputError "display_diagram" callId (displayInvalidText err finalXml)) s
    | None =>
        addToolOutput
          (OutputAvailable "display_diagram" callId
             "Successfully displayed the diagram.") s
    end.

(** Lines 312-326 of [handleEditDiagram]: the text the operations apply to.
    [inl] is a rejection of [onFetchChart], which the handler's [catch] takes. *)
Definition currentXmlFor (callId : string) (s : Sys World) : (string + string) * World :=
  match truthy (editDiagramOriginalXmlRef s !! callId) with
  | Some originalXml => (inr originalXml, world s)
  | None =>
      match truthy (Some (chartXMLRef env (world s))) with
      | Some cachedXML => (inr cachedXML, world s)
      | None => onFetchChart env false (world s)
      end
  end.

(** [handleEditDiagram] (lines 300-415). *)
Definition handleEditDiagram (callId : string) (operations : list DiagramOperation)
    (s : Sys World) : Sys World :=
  let '(fetched, w) := currentXmlFor callId s in
  let s := setWorld w s in
  match fetched with
  | inl errorMessage =>
      let s := addToolOutput
                 (OutputError "edit_diagram" callId (editFailedText errorMessage "")) s in
      deleteOriginalXml callId s
  | inr currentXml =>
      let r := applyDiagramOperations lib currentXml operations in
      let editedXml := result r in
      if (0 <? length (errors r))%nat then
        let s := addToolOutput
                   (OutputError "edit_diagram" callId
                      (operationsFailedText (errors r) currentXml)) s in
        deleteOriginalXml callId s
      else
        let '(validationError, w) := onDisplayChart env editedXml (world s) in
        let s := setWorld w s in
        match truthy validationError with
        | Some err =>
            let s := addToolOutput
                       (OutputError "edit_diagram" callId
                          (editInvalidText err currentXml)) s in
            deleteOriginalXml callId s
        | None =>
            let s := setWorld (onExport env (world s)) s in
            let s := addToolOutput
                       (OutputAvailable "edit_diagram" callId
                          (editAppliedText (length operations))) s in
            deleteOriginalXml callId s
        end
  end.

(** The test at lines 425-431 of [handleAppendDiagram]. *)
Definition isFreshStart (xml : string) : bool :=
  let trimmed := Js.trim xml in
  Js.startsWith trimmed "<mxGraphModel"
  || Js.startsWith trimmed "<root"
  || Js.startsWith trimmed "<mxfile"
  || Js.startsWith trimmed ("<mxCell id=" +:+ Js.dq +:+ "0" +:+ Js.dq)
  || Js.startsWith trimmed ("<mxCell id=" +:+ Js.dq +:+ "1" +:+ Js.dq).

(** [handleAppendDiagram] (lines 417-501). *)
Definition handleAppendDiagram (callId xml : string) (s : Sys World) : Sys World :=
  if isFreshStart xml then
    addToolOutput
      (OutputError "append_diagram" callId
         (freshStartText (Js.sliceLast 500 (partialXmlRef s)))) s
  else
    let s := setPartialXml (partialXmlRef s +:+ xml) s in
    let isComplete := isMxCellXmlComplete lib (partialXmlRef s) in
    if isComplete then
      let finalXml := partialXmlRef s in
      let s := setPartialXml "" s in
      let fullXml := wrapWithMxFile lib finalXml in
      let '(validationError, w) := onDisplayChart env fullXml (world s) in
      let s := setWorld w s in
      match truthy validationError with
      | Some err =>
          addToolOutput
            (OutputError "append_diagram" callId (assemblyInvalidText err finalXml)) s
      | None =>
          addToolOutput
            (OutputAvailable "append_diagram" callId
               "Diagram assembly complete and displayed successfully.") s
      end
    else
      addToolOutput
        (OutputError "append_diagram" callId
           (stillIncompleteText (Js.sliceLast 500 (partialXmlRef s)))) s.

(** [handleToolCall] (lines 62-79): the dispatch on the tool's name. *)
Definition handleToolCall (toolCall : ToolCall) (s : Sys World) : Sys World :=
  match input toolCall with
  | display_diagram xml => handleDisplayDiagram (toolCallId toolCall) xml s
  | edit_diagram operations => handleEditDiagram (toolCallId toolCall) operations s
  | append_diagram xml => handleAppendDiagram (toolCallId toolCall) xml s
  | other_tool _ => s
  end.

(** A sequence of tool calls, handled one after the other. *)
Definition handleToolCalls (toolCalls : list ToolCall) (s : Sys World) : Sys World :=
  fold_left (fun s toolCall => handleToolCall toolCall s) toolCalls s.

End Handlers.

(** ** Patch engine *)

Module PatchEngine.

Inductive CellKind := vertex | edge.

Inductive Geometry :=
| Absolute (x y width height : Z)
| Relative.

(** Section 3, Cell: an id, a kind, an attribute mapping, an optional geometry,
    a parent reference, and for edges the two endpoint references. *)
Record Cell := {
  c_id : string;
  c_kind : CellKind;
  c_attributes : gmap string string;
  c_geometry : option Geometry;
  c_parent : string;
  c_source : option string;
  c_target : option string
}.

Definition isEdge (c : Cell) : bool :=
  match c_kind c with edge => true | vertex => false end.

Definition refersInto (ids : gset string) (ref : option string) : bool :=
  match ref with
  | Some i => bool_decide (i ∈ ids)
  | None => false
  end.

(** A cell the cascade adds: its parent is in the set, or it is an edge with
    an endpoint in the set. *)
Definition dependsOn (ids : gset string) (c : Cell) : bool :=
  bool_decide (c_parent c ∈ ids)
  || (isEdge c && (refersInto ids (c_source c) || refersInto ids (c_target c))).

(** One round of the cascade: the set, with the ids of the cells that depend on it. *)
Definition cascadeStep (document : list Cell) (ids : gset string) : gset string :=
  ids ∪ list_to_set (map c_id (List.filter (dependsOn ids) document)).

(** Rounds are repeated until one adds no id; every round but the last adds a
    cell of the document, so no more rounds than the document has cells are
    run. *)
Fixpoint cascadeLoop (rounds : nat) (document : list Cell) (ids : gset string)
    : gset string :=
  match rounds with
  | O => ids
  | S n =>
      let ids' := cascadeStep document ids in
      if bool_decide (ids' ⊆ ids) then ids else cascadeLoop n document ids'
  end.

(** Modelled from the spec: the cascade of a Delete, part of
    [applyDiagramOperations] of [@/lib/utils], which is not among the sources.
    Section 4.4: start with the delete set containing the target id; repeatedly
    add every cell whose parent is in the set and every edge cell whose source
    or target is in the set; stop when no new ids are added. *)
Definition cascade (document : list Cell) (target : string) : gset string :=
  cascadeLoop (length document) document {[ target ]}.

Definition hasCell (document : list Cell) (i : string) : bool :=
  existsb (fun c => String.eqb (c_id c) i) document.

(** All cells whose id ends up in the set are removed. *)
Definition removeCells (ids : gset string) (document : list Cell) : list Cell :=
  List.filter (fun c => negb (bool_decide (c_id c ∈ ids))) document.

(** The cells of the document that a set of ids removes. *)
Definition removedCells (ids : gset string) (document : list Cell) : list Cell :=
  List.filter (fun c => bool_decide (c_id c ∈ ids)) document.

(** The existing cell is fully replaced by the payload's cell, in its place. *)
Definition replaceCell (i : string) (c : Cell) (document : list Cell) : list Cell :=
  map (fun old => if String.eqb (c_id old) i then c else old) document.

Definition MalformedFragment (i : string) : OperationError :=
  {| type := "MalformedFragment"; cellId := i;
     message := "new_xml is not one complete cell element" |}.

Definition DuplicateId (i : string) : OperationError :=
  {| type := "DuplicateId"; cellId := i;
     message := "a cell with this id already exists" |}.

Definition UnknownCell (i : string) : OperationError :=
  {| type := "UnknownCell"; cellId := i;
     message := "no cell with this id exists" |}.

Section Engine.

(** The tokenizer (section 4.1) on the text of a document and on the payload
    of one operation ([None]: MalformedFragment), and the serializer.  The
    spec gives their contracts only; the engine takes them as parameters. *)
Variable parseDocument : string -> list Cell.
Variable parseCell : string -> option Cell.
Variable serializeDocument : list Cell -> string.

(** The per-operation rules of section 4.4.  An operation is checked against
    the working document; the cascade of a Delete is computed against the
    document as it was at the start of the batch.  An Add or Update without
    [new_xml] has no cell to parse. *)
Definition evalOperation (snapshot working : list Cell) (op : DiagramOperation)
    : OperationError + list Cell :=
  let i := cell_id op in
  match operation op with
  | add =>
      if hasCell working i then inl (DuplicateId i)
      else match new_xml op ≫= parseCell with
           | Some c => inr (working ++ [c])
           | None => inl (MalformedFragment i)
           end
  | update =>
      if hasCell working i then
        match new_xml op ≫= parseCell with
        | Some c => inr (replaceCell i c working)
        | None => inl (MalformedFragment i)
        end
      else inl (UnknownCell i)
  | delete =>
      if hasCell working i then inr (removeCells (cascade snapshot i) working)
      else inl (UnknownCell i)
  end.

(** The whole batch on a working copy: a failing operation leaves the copy as
    it is and adds its diagnostic; the later operations are still evaluated. *)
Fixpoint evalOperations (snapshot working : list Cell) (ops : list DiagramOperation)
    : list Cell * list OperationError :=
  match ops with
  | [] => (working, [])
  | op :: rest =>
      match evalOperation snapshot working op with
      | inr working' => evalOperations snapshot working' rest
      | inl e =>
          let '(final, errs) := evalOperations snapshot working rest in
          (final, e :: errs)
      end
  end.

(** The operations of a batch that fail, in order. *)
Fixpoint failingOperations (snapshot working : list Cell) (ops : list DiagramOperation)
    : list DiagramOperation :=
  match ops with
  | [] => []
  | op :: rest =>
      match evalOperation snapshot working op with
      | inr working' => failingOperations snapshot working' rest
      | inl _ => op :: failingOperations snapshot working rest
      end
  end.

(** [apply(document, operations)]: the edited document when every operation
    succeeds; otherwise the original document with every diagnostic. *)
Definition apply (document : list Cell) (ops : list DiagramOperation)
    : list Cell * list OperationError :=
  match evalOperations document document ops with
  | (edited, []) => (edited, [])
  | (_, errs) => (document, errs)
  end.

(** Modelled from the spec: [applyDiagramOperations] of [@/lib/utils], which is
    not among the sources.  Section 4.4: the batch is atomic; if any operation
    fails the original document is returned unchanged, with the full list of
    per-operation diagnostics. *)
Definition applyDiagramOperations (currentXml : string)
    (operations : list DiagramOperation) : ApplyOperationsResult :=
  match evalOperations (parseDocument currentXml) (parseDocument currentXml) operations with
  | (edited, []) => {| result := serializeDocument edited; errors := [] |}
  | (_, errs) => {| result := currentXml; errors := errs |}
  end.

(** [@/lib/utils] as the spec describes it. *)
Definition specUtils : LibUtils :=
  Build_LibUtils Detector.isMxCellXmlComplete Wrapper.wrapWithMxFile
    applyDiagramOperations.

End Engine.

End PatchEngine.

(** ** The region cache on the server *)

Module RegionCache.

(** [10 * 60 * 1000] milliseconds. *)
Definition ttl : Z := 10 * 60 * 1000.

(** A pending [setTimeout] callback: when it is due and the key it deletes. *)
Record Timer := {
  due : Z;
  expires : string
}.

(** [global.extractedRegionsCache] ([None]: undefined), the pending timers,
    and the clock ([Date.now()]). *)
Record Server := {
  extractedRegionsCache : option (gmap string (gmap string string));
  timers : list Timer;
  now : Z
}.

(** One region of the extract-regions response. *)
Record ExtractedRegion := {
  name : string;
  dataUrl : string;
  error : option string
}.

(** [regionMapping[name] = dataUrl] on a plain object: assigning a string to
    [__proto__] changes nothing. *)
Definition setProperty (n v : string) (o : gmap string string) : gmap string string :=
  if String.eqb n "__proto__" then o else <[ n := v ]> o.

(** Lines 904-909 of the chat route. *)
Definition regionMappingOf (regions : list ExtractedRegion) : gmap string string :=
  fold_left (fun m r => setProperty (name r) (dataUrl r) m)
    (List.filter (fun r => match truthy (error r) with Some _ => false | None => true end)
       regions)
    ∅.

(** Lines 897-922 of the chat route ([extract_image_regions.execute]): the key
    is made of the clock and a random suffix, the mapping is stored under it,
    and its deletion is scheduled [ttl] later. *)
Definition storeExtractedRegions (random : string) (regions : list ExtractedRegion)
    (srv : Server) : string * Server :=
  let cacheKey :=
    "extract_" +:+ NilZero.string_of_int (Z.to_int (now srv)) +:+ "_" +:+ random in
  let cache := match extractedRegionsCache srv with Some c => c | None => ∅ end in
  (cacheKey,
   {| extractedRegionsCache := Some (<[ cacheKey := regionMappingOf regions ]> cache);
      timers := timers srv ++ [ {| due := (now srv + ttl)%Z; expires := cacheKey |} ];
      now := now srv |}).

(** The body of a request to get-cached-regions: not JSON; the JSON value
    [null], which [const { cacheKey } = await req.json()] cannot destructure
    (a [TypeError], caught at line 63); or any other JSON value, whose
    [cacheKey] member is a string ([Some]) or anything else, a missing member
    included ([None]). *)
Inductive RequestBody :=
| BodyNotJson
| BodyNull
| BodyJson (cacheKey : option string).

Inductive ResponseBody :=
| ErrorBody (error : string)
| RegionsBody (regions : gmap string string).

Record Response := {
  status : nat;
  body : ResponseBody
}.

(** [POST] of get-cached-regions/route.ts. *)
Definition POST (req : RequestBody) (srv : Server) : Response * Server :=
  match req with
  | BodyNotJson | BodyNull =>
      ({| status := 500; body := ErrorBody "Failed to retrieve cached regions" |}, srv)
  | BodyJson cacheKey =>
      match truthy cacheKey with
      | None => ({| status := 400; body := ErrorBody "Invalid cache key" |}, srv)
      | Some cacheKey =>
          match extractedRegionsCache srv with
          | None => ({| status := 404; body := ErrorBody "Cache not initialized" |}, srv)
          | Some cache =>
              match cache !! cacheKey with
              | None =>
                  ({| status := 404; body := ErrorBody "Cache expired or not found" |}, srv)
              | Some regionMapping =>
                  ({| status := 200; body := RegionsBody regionMapping |}, srv)
              end
          end
      end
  end.

(** The callback of a timer: [global.extractedRegionsCache?.delete(cacheKey)]. *)
Definition fire (cache : option (gmap string (gmap string string))) (t : Timer)
    : option (gmap string (gmap string string)) :=
  base.delete (expires t) <$> cache.

Definition isDue (t : Z) (tm : Timer) : bool := (due tm <=? t)%Z.

(** The clock moves to [t]: the timers due by then run, in the order they were
    set.  The clock never moves back. *)
Definition advance (t : Z) (srv : Server) : Server :=
  if (t <? now srv)%Z then srv
  else
    {| extractedRegionsCache :=
         fold_left fire (List.filter (isDue t) (timers srv)) (extractedRegionsCache srv);
       timers := List.filter (fun tm => negb (isDue t tm)) (timers srv);
       now := t |}.

(** What happens on the server: regions are extracted and stored, a client
    reads a key, time passes. *)
Inductive Event :=
| Extract (random : string) (regions : list ExtractedRegion)
| Get (req : RequestBody)
| Advance (t : Z).

Definition step (e : Event) (srv : Server) : Server :=
  match e with
  | Extract random regions => snd (storeExtractedRegions random regions srv)
  | Get req => snd (POST req srv)
  | Advance t => advance t srv
  end.

Definition run (events : list Event) (srv : Server) : Server :=
  fold_left (fun srv e => step e srv) events srv.

(** A server that has just started. *)
Definition boot (t : Z) : Server :=
  {| extractedRegionsCache := None; timers := []; now := t |}.

(** The entry stored under a key, if any. *)
Definition entry (srv : Server) (cacheKey : string) : option (gmap string string) :=
  extractedRegionsCache srv ≫= fun cache => cache !! cacheKey.

(** The request of [handleDisplayDiagram] for one key, as the client sees its
    outcome: [response.ok] is a status from 200 to 299. *)
Definition fetchCachedRegions (cacheKey : string) (srv : Server) : FetchOutcome * Server :=
  let '(response, srv') := POST (BodyJson (Some cacheKey)) srv in
  (FetchResponse ((200 <=? status response)%nat && (status response <=? 299)%nat)
     (match body response with
      | RegionsBody regions => Some regions
      | ErrorBody _ => None
      end),
   srv').

End RegionCache.

(** ** A page: the hook wired to a server and to a chart that records what it is shown *)

Record Page := {
  server : RegionCache.Server;
  displayed : list string
}.

(** Every text handed to [onDisplayChart] is recorded and judged by
    [validate]; the chart's current text is the last one recorded. *)
Definition pageEnv (validate : string -> option string) : Env Page :=
  {| chartXMLRef := fun p => List.last (displayed p) "";
     onDisplayChart := fun xml p =>
       (validate xml, {| server := server p; displayed := displayed p ++ [xml] |});
     onFetchChart := fun _ p => (inr (List.last (displayed p) ""), p);
     onExport := fun p => p;
     fetchCachedRegions := fun cacheKey p =>
       let '(outcome, srv) := RegionCache.fetchCachedRegions cacheKey (server p) in
       (outcome, {| server := srv; displayed := displayed p |}) |}.

(** The state of a hook that has handled nothing yet. *)
Definition initial {World : Type} (w : World) : Sys World :=
  {| partialXmlRef := ""; editDiagramOriginalXmlRef := ∅; world := w; toolOutputs := [] |}.

(** ** Ghost state of the assembler and reference instances *)

(** Whether a generation is pending: [Accumulating] from the moment a text is
    judged incomplete until a text is judged complete. *)
Inductive AssemblyPhase := Idle | Accumulating.

Section Assembler.
Context {World : Type}.
Variable lib : LibUtils.
Variable env : Env World.

(** The detector judged the text of this call complete. *)
Definition completedBy (toolCall : ToolCall) (s : Sys World) : bool :=
  match input toolCall with
  | display_diagram xml =>
      isMxCellXmlComplete lib (fst (resolveCacheReferences env xml (world s)))
  | append_diagram xml =>
      negb (isFreshStart xml) && isMxCellXmlComplete lib (partialXmlRef s +:+ xml)
  | _ => false
  end.

(** The phase after a call: a rejected fresh start and the other tools leave
    it as it is. *)
Definition phaseAfter (toolCall : ToolCall) (s : Sys World) (p : AssemblyPhase)
    : AssemblyPhase :=
  match input toolCall with
  | display_diagram _ => if completedBy toolCall s then Idle else Accumulating
  | append_diagram xml =>
      if isFreshStart xml then p
      else if completedBy toolCall s then Idle else Accumulating
  | _ => p
  end.

(** The phase after each call of a sequence, in order. *)
Fixpoint phases (toolCalls : list ToolCall) (s : Sys World) (p : AssemblyPhase)
    : list AssemblyPhase :=
  match toolCalls with
  | [] => []
  | toolCall :: rest =>
      let p' := phaseAfter toolCall s p in
      p' :: phases rest (handleToolCall lib env toolCall s) p'
  end.

Definition isAccumulating (p : AssemblyPhase) : bool :=
  match p with Accumulating => true | Idle => false end.

(** The number of calls of a sequence that leave the assembler accumulating. *)
Definition accumulatingIterations (toolCalls : list ToolCall) (s : Sys World) : nat :=
  length (List.filter isAccumulating (phases toolCalls s Idle)).

(** The outcome of a display or an append whose text is complete. *)
Definition displayedState (tool callId finalXml : string)
    (invalidText : string -> string) (successText : string) (s : Sys World)
    : Sys World :=
  let '(validationError, w) :=
    onDisplayChart env (wrapWithMxFile lib finalXml) (world s) in
  {| partialXmlRef := "";
     editDiagramOriginalXmlRef := editDiagramOriginalXmlRef s;
     world := w;
     toolOutputs :=
       toolOutputs s ++
       [match truthy validationError with
        | Some err => OutputError tool callId (invalidText err)
        | None => OutputAvailable tool callId successText
        end] |}.

End Assembler.

(** The buffer after each of a sequence of continuation fragments. *)
Fixpoint buffers (buffer : string) (fragments : list string) : list string :=
  match fragments with
  | [] => []
  | f :: rest => (buffer +:+ f) :: buffers (buffer +:+ f) rest
  end.

(** A continuation call: its id and its fragment. *)
Definition continuation (c : string * string) : ToolCall :=
  {| toolCallId := fst c; input := append_diagram (snd c) |}.

(** The answers to a sequence of continuations none of which completes the text. *)
Fixpoint resumeSignals (buffer : string) (cs : list (string * string))
    : list AddToolOutputParams :=
  match cs with
  | [] => []
  | c :: rest =>
      OutputError "append_diagram" (fst c)
        (stillIncompleteText (Js.sliceLast 500 (buffer +:+ snd c)))
      :: resumeSignals (buffer +:+ snd c) rest
  end.

(** [@/lib/utils] as the spec describes it, over a tokenizer that reads no cell:
    the instance the closed examples about display and append run on. *)
Definition detectorUtils : LibUtils :=
  PatchEngine.specUtils (fun _ => []) (fun _ => None) (fun _ => "").

(** A page whose server has just started and whose chart accepts every text. *)
Definition blankPage : Page :=
  {| server := RegionCache.boot 0; displayed := [] |}.

(** The claim that the assembler bounds its accumulating iterations, for the
    detector of the spec on a page: some bound holds for every sequence of tool
    calls. *)
Definition BoundedAccumulation : Prop :=
  exists bound : nat, forall toolCalls : list ToolCall,
    (accumulatingIterations detectorUtils (pageEnv (fun _ => None)) toolCalls
       (initial blankPage) <= bound)%nat.

(** A scan that stands inside a tag, outside any quote. *)
Definition midTag (st : Detector.Scan) : Prop :=
  Detector.quote st = None /\ Detector.inTag st = true.

(** The claim that assembling equals displaying the concatenation, for the
    detector of the spec on any page: whenever the first fragment is
    incomplete, no continuation is a fresh start and the concatenation is
    complete, the chart is shown the same texts either way. *)
Definition AssemblyEqualsDirect : Prop :=
  forall (p : Page) (first : string) (cs : list (string * string)),
    Detector.isMxCellXmlComplete first = false ->
    Forall (fun c => isFreshStart (snd c) = false) cs ->
    Detector.isMxCellXmlComplete (first +:+ Js.concatAll (map snd cs)) = true ->
    displayed (world (handleToolCalls detectorUtils (pageEnv (fun _ => None))
                        ({| toolCallId := "call"; input := display_diagram first |}
                         :: map continuation cs) (initial p)))
    = displayed (world (handleDisplayDiagram detectorUtils (pageEnv (fun _ => None))
                          "call" (first +:+ Js.concatAll (map snd cs)) (initial p))).

(** One attribute of an element: a space, the name, an equals sign and the
    quoted value. *)
Definition attribute (n v : string) : string :=
  " " +:+ n +:+ "=" +:+ Js.dq +:+ v +:+ Js.dq.

(** A page whose server holds one extracted region, [hand]. *)
Definition handServer : string * RegionCache.Server :=
  RegionCache.storeExtractedRegions "k3j9x2m1q"
    [ {| RegionCache.name := "hand";
         RegionCache.dataUrl := "data:image/png;base64,iVBORw0KGgo=";
         RegionCache.error := None |} ]
    (RegionCache.boot 1700000000000).

Definition handPage : Page := {| server := snd handServer; displayed := [] |}.

(** ** Closure of a delete set, and the documents of the examples *)

(** A set of ids is closed under the two cascade rules of section 4.4. *)
Definition closedUnder (document : list PatchEngine.Cell) (ids : gset string) : Prop :=
  forall c, In c document -> PatchEngine.dependsOn ids c = true -> PatchEngine.c_id c ∈ ids.

Definition vertexCell (i parent : string) : PatchEngine.Cell :=
  {| PatchEngine.c_id := i; PatchEngine.c_kind := PatchEngine.vertex;
     PatchEngine.c_attributes := ∅; PatchEngine.c_geometry := None;
     PatchEngine.c_parent := parent;
     PatchEngine.c_source := None; PatchEngine.c_target := None |}.

Definition edgeCell (i parent source target : string) : PatchEngine.Cell :=
  {| PatchEngine.c_id := i; PatchEngine.c_kind := PatchEngine.edge;
     PatchEngine.c_attributes := ∅;
     PatchEngine.c_geometry := Some PatchEngine.Relative;
     PatchEngine.c_parent := parent;
     PatchEngine.c_source := Some source; PatchEngine.c_target := Some target |}.

(** The document of section 8: parent [P], child [C] of [P], edge [E] from [C]
    to [X], and [X]. *)
Definition cascadeDocument : list PatchEngine.Cell :=
  [ vertexCell "P" "1"; vertexCell "C" "P"; edgeCell "E" "1" "C" "X"; vertexCell "X" "1" ].

(** A tokenizer for the examples: it reads the id of a payload that begins
    with [<mxCell id=] and a quoted value, and makes a vertex of the layer. *)
Definition exampleParseCell (payload : string) : option PatchEngine.Cell :=
  if String.prefix ("<mxCell id=" +:+ Js.dq) payload
  then Some (vertexCell
               (fst (Js.span (fun c => negb (Ascii.eqb c (ascii_of_nat 34)))
                       (Js.drop 12 payload)))
               "1")
  else None.

(** [@/lib/utils] for the examples: every text is read as the document of
    section 8. *)
Definition exampleUtils : LibUtils :=
  PatchEngine.specUtils (fun _ => cascadeDocument) exampleParseCell (fun _ => "edited").

(** ** The claim about fresh starts, as the spec states it *)

(** The openings that the spec counts as a fresh start: a scaffold marker (a
    tag of the wrapper the document is given, see [Wrapper.wrapWithMxFile]) or
    a cell with a reserved root id, in either quoting. *)
Definition scaffoldOpenings : list string :=
  [ "<mxfile"; "<diagram"; "<mxGraphModel"; "<root";
    "<mxCell id=" +:+ Js.dq +:+ "0" +:+ Js.dq;
    "<mxCell id=" +:+ Js.dq +:+ "1" +:+ Js.dq;
    "<mxCell id='0'"; "<mxCell id='1'" ].

Definition beginsWithScaffold (xml : string) : bool :=
  existsb (Js.startsWith (Js.trim xml)) scaffoldOpenings.

(** The claim that every continuation that begins with a scaffold marker or a
    reserved root id is rejected and leaves the buffer as it was, for the
    detector of the spec on a blank page. *)
Definition FreshStartsAreRejected : Prop :=
  forall buffer callId xml : string,
    beginsWithScaffold xml = true ->
    partialXmlRef
      (handleAppendDiagram detectorUtils (pageEnv (fun _ => None)) callId xml
         {| partialXmlRef := buffer; editDiagramOriginalXmlRef := ∅;
            world := blankPage; toolOutputs := [] |})
    = buffer.

(** ** The claims about region resolution, as the spec states them *)

(** The search text of a reference. *)
Definition searchStrOf (cacheKey region : string) : string :=
  "image=data:cache/" +:+ cacheKey +:+ "/" +:+ region.

(** The regions a fetch serves, if it serves any. *)
Definition served (outcome : FetchOutcome) : option (gmap string string) :=
  match outcome with
  | FetchResponse true (Some regions) => Some regions
  | _ => None
  end.

(** A reference that the server of a page can resolve: its key is cached and
    the mapping has a non-empty payload under its region name. *)
Definition resolvable (srv : RegionCache.Server) (m : CacheMatch) : bool :=
  match RegionCache.entry srv (key m) with
  | Some regions =>
      match regions !! regionName m with
      | Some (String _ _) => true
      | _ => false
      end
  | None => false
  end.

Definition outputText (o : AddToolOutputParams) : string :=
  match o with
  | OutputAvailable _ _ output => output
  | OutputError _ _ errorText => errorText
  end.

(** The claim that every unresolved reference is reported: some tool output
    of the display names its region. *)
Definition UnresolvedAreReported : Prop :=
  forall (p : Page) (xml : string) (m : CacheMatch),
    In m (cacheMatches xml) ->
    resolvable (server p) m = false ->
    exists o,
      In o (toolOutputs (handleDisplayDiagram detectorUtils (pageEnv (fun _ => None))
                           "call" xml (initial p)))
      /\ Js.includes (outputText o) (regionName m) = true.

(** An image cell that refers to a region of the cache. *)
Definition imageCell (i cacheKey region : string) : string :=
  "<mxCell" +:+ attribute "id" i
  +:+ attribute "style" ("shape=image;" +:+ searchStrOf cacheKey region +:+ ";")
  +:+ attribute "vertex" "1" +:+ attribute "parent" "1" +:+ "/>".

(** ** Reading the answers of the hook *)

(** The [tool] and the [toolCallId] of a call to [addToolOutput]. *)
Definition answered (o : AddToolOutputParams) : string * string :=
  match o with
  | OutputAvailable tool callId _ => (tool, callId)
  | OutputError tool callId _ => (tool, callId)
  end.

(** The tool calls [handleToolCall] dispatches to a handler. *)
Definition isDiagramTool (toolCall : ToolCall) : bool :=
  match input toolCall with
  | other_tool _ => false
  | _ => true
  end.

(** The original-text ref after a tool call: only edit_diagram touches it. *)
Definition originalXmlAfter (toolCall : ToolCall) (m : gmap string string)
    : gmap string string :=
  match input toolCall with
  | edit_diagram _ => base.delete (toolCallId toolCall) m
  | _ => m
  end.

(** Every code unit of a string is white space. *)
Fixpoint allWhiteSpace (s : string) : bool :=
  match s with
  | "" => true
  | String c r => Js.isWhiteSpace c && allWhiteSpace r
  end.

(** A page whose editor frame cannot be read: like [pageEnv], but
    [onFetchChart] rejects with the given message. *)
Definition unreadableEnv (message : string) : Env Page :=
  {| chartXMLRef := chartXMLRef (pageEnv (fun _ => None));
     onDisplayChart := onDisplayChart (pageEnv (fun _ => None));
     onFetchChart := fun _ p => (inl message, p);
     onExport := onExport (pageEnv (fun _ => None));
     fetchCachedRegions := fetchCachedRegions (pageEnv (fun _ => None)) |}.

(** Every code unit of a string satisfies [p]. *)
Fixpoint allChars (p : ascii -> bool) (s : string) : bool :=
  match s with
  | "" => true
  | String c r => p c && allChars p r
  end.

(** The first code unit of a string, if any, does not satisfy [p]. *)
Definition stopsAt (p : ascii -> bool) (s : string) : bool :=
  match s with
  | "" => true
  | String c _ => negb (p c)
  end.

(** What a match of the cache pattern is made of: the literal, a non-empty
    key without a slash, a slash, and a non-empty region name without a
    semicolon, a double quote or white space. *)
Definition wellFormedMatch (m : CacheMatch) : Prop :=
  fullMatch m = searchStrOf (key m) (regionName m)
  /\ key m <> "" /\ allChars isKeyChar (key m) = true
  /\ regionName m <> "" /\ allChars isRegionChar (regionName m) = true.

(** ** Reading the region cache *)

(** The data URL that [regionMappingOf] keeps for a region name: the one of
    the last region of that name that carries no error; nothing under
    [__proto__]. *)
Fixpoint keptDataUrl (n : string) (regions : list RegionCache.ExtractedRegion)
    : option string :=
  match regions with
  | [] => None
  | r :: rest =>
      match keptDataUrl n rest with
      | Some d => Some d
      | None =>
          if String.eqb (RegionCache.name r) n
             && negb (String.eqb n "__proto__")
             && match truthy (RegionCache.error r) with Some _ => false | None => true end
          then Some (RegionCache.dataUrl r)
          else None
      end
  end.

(** What the server keeps true from its start on: every cached entry has a
    pending timer set for its key, and every pending timer is due after the
    present moment and at most [ttl] after it. *)
Definition wellScheduled (srv : RegionCache.Server) : Prop :=
  (forall k, is_Some (RegionCache.entry srv k) ->
             exists tm, In tm (RegionCache.timers srv) /\ RegionCache.expires tm = k)
  /\ (forall tm, In tm (RegionCache.timers srv) ->
                 (RegionCache.now srv < RegionCache.due tm
                  <= RegionCache.now srv + RegionCache.ttl)%Z).

(** The position of the first slash of a string, if it has one. *)
Fixpoint firstSlash (s : string) : option nat :=
  match s with
  | "" => None
  | String c r =>
      if Ascii.eqb c "/" then Some O
      else match firstSlash r with
           | Some i => Some (S i)
           | None => None
           end
  end.

(** ** The route extract-regions *)

Module ExtractRegions.

(** The value of [Math.round(v)] for a member [v] of a region of the request
    body, which the route does not validate: an integer; [NaN], when the
    member is missing or does not convert to a number; or an infinity, for a
    number too large for a double. *)
Inductive Rounded :=
| Int (n : Z)
| NaN
| Infinity
| MinusInfinity.

Definition isNaN (a : Rounded) : bool :=
  match a with NaN => true | _ => false end.

(** [Math.min(a, b)] *)
Definition min (a b : Rounded) : Rounded :=
  match a, b with
  | NaN, _ => NaN
  | _, NaN => NaN
  | MinusInfinity, _ => MinusInfinity
  | _, MinusInfinity => MinusInfinity
  | Infinity, v => v
  | v, Infinity => v
  | Int m, Int n => Int (Z.min m n)
  end.

(** [Math.max(a, b)] *)
Definition max (a b : Rounded) : Rounded :=
  match a, b with
  | NaN, _ => NaN
  | _, NaN => NaN
  | Infinity, _ => Infinity
  | _, Infinity => Infinity
  | MinusInfinity, v => v
  | v, MinusInfinity => v
  | Int m, Int n => Int (Z.max m n)
  end.

(** [n - a] for a number [n] of the image *)
Definition minus (n : Z) (a : Rounded) : Rounded :=
  match a with
  | Int m => Int (n - m)
  | NaN => NaN
  | Infinity => MinusInfinity
  | MinusInfinity => Infinity
  end.

(** [a !== b] on numbers: [NaN] differs from everything, itself included. *)
Definition differs (a b : Rounded) : bool :=
  match a, b with
  | Int m, Int n => negb (m =? n)%Z
  | Infinity, Infinity => false
  | MinusInfinity, MinusInfinity => false
  | _, _ => true
  end.

(** A region of the request, by the values of [Math.round(region.x)] and so
    on. *)
Record Region := {
  x : Rounded;
  y : Rounded;
  width : Rounded;
  height : Rounded
}.

(** [Math.max(0, Math.min(Math.round(region.x), imageWidth - 1))] *)
Definition clampStart (image : Z) (v : Rounded) : Rounded :=
  max (Int 0) (min v (Int (image - 1))).

(** [Math.max(1, Math.min(Math.round(region.width), imageWidth - x))] *)
Definition clampLength (image : Z) (start v : Rounded) : Rounded :=
  max (Int 1) (min v (minus image start)).

(** The rectangle handed to [sharp(...).extract]: the region clamped to the
    image (lines 167-182); [imageWidth] and [imageHeight] are the metadata of
    the image, 0 when the metadata lacks them. *)
Definition clampRegion (imageWidth imageHeight : Z) (region : Region) : Region :=
  let cx := clampStart imageWidth (x region) in
  let cy := clampStart imageHeight (y region) in
  let cwidth := clampLength imageWidth cx (width region) in
  let cheight := clampLength imageHeight cy (height region) in
  {| x := cx; y := cy; width := cwidth; height := cheight |}.

(** The test of lines 185-190: a warning is pushed when a coordinate changed. *)
Definition wasAdjusted (imageWidth imageHeight : Z) (region : Region) : bool :=
  let c := clampRegion imageWidth imageHeight region in
  differs (x c) (x region) || differs (y c) (y region)
  || differs (width c) (width region) || differs (height c) (height region).

(** A stretch, given by its start and its length, that lies inside an image
    side of the given size. *)
Definition insideSide (image : Z) (start length : Rounded) : Prop :=
  match start, length with
  | Int s, Int l => (0 <= s /\ 1 <= l /\ s + l <= image)%Z
  | _, _ => False
  end.

(** A rectangle that lies inside an image of the given size. *)
Definition inside (imageWidth imageHeight : Z) (r : Region) : Prop :=
  insideSide imageWidth (x r) (width r) /\ insideSide imageHeight (y r) (height r).

(** One of the four values is [NaN]. *)
Definition hasNaN (r : Region) : bool :=
  isNaN (x r) || isNaN (y r) || isNaN (width r) || isNaN (height r).

End ExtractRegions.

(** ** Data URLs of cropped regions *)

Module Base64.

Definition alphabet : string :=
  "ABCDEFGHIJKLMNOPQRSTUVWXYZabcdefghijklmnopqrstuvwxyz0123456789+/".

(** The digit of a six-bit value. *)
Definition digit (i : nat) : ascii :=
  match String.get i alphabet with
  | Some c => c
  | None => "="%char
  end.

(** [buffer.toString("base64")]: three bytes make four digits; a last group of
    one or two bytes is padded with [=]. *)
Fixpoint encode (bytes : list ascii) : string :=
  match bytes with
  | [] => ""
  | a :: rest1 =>
      let a := nat_of_ascii a in
      match rest1 with
      | [] =>
          String (digit (a / 4)) (String (digit (a mod 4 * 16)) "==")
      | b :: rest2 =>
          let b := nat_of_ascii b in
          match rest2 with
          | [] =>
              String (digit (a / 4))
                (String (digit (a mod 4 * 16 + b / 16))
                   (String (digit (b mod 16 * 4)) "="))
          | c :: rest =>
              let c := nat_of_ascii c in
              String (digit (a / 4))
                (String (digit (a mod 4 * 16 + b / 16))
                   (String (digit (b mod 16 * 4 + c / 64))
                      (String (digit (c mod 64)) (encode rest))))
          end
      end
  end.

(** Lines 208-209 of extract-regions: the data URL of a cropped region. *)
Definition dataUrlOf (croppedBuffer : list ascii) : string :=
  "data:image/png;base64," +:+ encode croppedBuffer.

(** The class [[A-Za-z0-9+/=]] of the chat route (line 372). *)
Definition isBase64Char (c : ascii) : bool :=
  let n := nat_of_ascii c in
  ((65 <=? n) && (n <=? 90))%nat || ((97 <=? n) && (n <=? 122))%nat
  || ((48 <=? n) && (n <=? 57))%nat
  || Ascii.eqb c "+" || Ascii.eqb c "/" || Ascii.eqb c "=".

End Base64.

(** ** The chat route: the history sent to the model *)

Module ChatRoute.

(** [part.input] of a content part, as far as the route looks at it. *)
Inductive PartInput :=
| InputFalsy                          (* undefined, null or another falsy value *)
| InputPrimitive                      (* a truthy value that is no object *)
| InputObject (keys : list string).   (* an object or array, with its own keys *)

(** A content part; [result] is [Some] when [typeof part.result] is a string,
    [rest] stands for the fields the route does not read. *)
Record Part := {
  type : string;
  input : PartInput;
  result : option string;
  rest : string
}.

(** [msg.content]: absent, a string, or an array of parts. *)
Inductive Content :=
| ContentMissing
| ContentText (s : string)
| ContentParts (parts : list Part).

(** A model message; [providerOptions] is [None] when the field is absent,
    [others] stands for the fields the route does not read. *)
Record Message := {
  role : string;
  content : Content;
  providerOptions : option string;
  others : string
}.

(** [{ ...msg, content: c }] *)
Definition withContent (msg : Message) (c : Content) : Message :=
  {| role := role msg; content := c;
     providerOptions := providerOptions msg; others := others msg |}.

(** The value [{ bedrock: { cachePoint: { type: "default" } } }]. *)
Definition bedrockCachePoint : string := "{bedrock:{cachePoint:{type:default}}}".

(** [{ ...msg, providerOptions: { bedrock: ... } }] *)
Definition withCachePoint (msg : Message) : Message :=
  {| role := role msg; content := content msg;
     providerOptions := Some bedrockCachePoint; others := others msg |}.

(** [msg.content && Array.isArray(msg.content) && msg.content.length > 0]
    (lines 285-288). *)
Definition hasParts (msg : Message) : bool :=
  match content msg with
  | ContentParts (_ :: _) => true
  | _ => false
  end.

(** [msg.content && msg.content.length > 0] (lines 327 and 355). *)
Definition hasContent (msg : Message) : bool :=
  match content msg with
  | ContentMissing => false
  | ContentText s => (0 <? String.length s)%nat
  | ContentParts parts => (0 <? length parts)%nat
  end.

Definition isImage (part : Part) : bool := String.eqb (type part) "image".

Definition imagePlaceholder : Part :=
  {| type := "text"; input := InputFalsy; result := None;
     rest := "[Image uploaded]" |}.

(** The callback of the map of lines 293-326; [len] is
    [enhancedMessages.length] when the map runs. *)
Definition stripImages (len idx : nat) (msg : Message) : Message :=
  if negb (String.eqb (role msg) "user") || (S idx =? len)%nat then msg
  else
    match content msg with
    | ContentParts parts =>
        let filteredContent := List.filter (fun part => negb (isImage part)) parts in
        if (length filteredContent =? 0)%nat
        then withContent msg (ContentParts [imagePlaceholder])
        else withContent msg (ContentParts filteredContent)
    | _ => msg
    end.

(** The test of the filter of lines 336-352. *)
Definition keepsPart (part : Part) : bool :=
  if String.eqb (type part) "tool-call" then
    match input part with
    | InputObject (_ :: _) => true
    | _ => false
    end
  else true.

(** The callback of the map of lines 332-354. *)
Definition dropInvalidToolCalls (msg : Message) : Message :=
  if negb (String.eqb (role msg) "assistant") then msg
  else
    match content msg with
    | ContentParts parts => withContent msg (ContentParts (List.filter keepsPart parts))
    | _ => msg
    end.

(** [enhancedMessages] after lines 285-355, from [placeholderMessages]. *)
Definition enhancedMessages (placeholderMessages : list Message) : list Message :=
  let kept := List.filter hasParts placeholderMessages in
  let stripped := List.filter hasContent (imap (stripImages (length kept)) kept) in
  List.filter hasContent (map dropInvalidToolCalls stripped).

(** The passes of lines 327-355, which look at no index. *)
Definition laterPasses (msgs : list Message) : list Message :=
  List.filter hasContent (map dropInvalidToolCalls (List.filter hasContent msgs)).

(** The parts of a message, none when the content is no array. *)
Definition partsOf (msg : Message) : list Part :=
  match content msg with
  | ContentParts parts => parts
  | _ => []
  end.

(** A user message carries no image. *)
Definition imageFree (msg : Message) : Prop :=
  role msg = "user" -> Forall (fun part => isImage part = false) (partsOf msg).

(** Every tool call of an assistant message has an object with at least one
    key as its input. *)
Definition toolCallsValid (msg : Message) : Prop :=
  role msg = "assistant" ->
  Forall (fun part => type part = "tool-call" ->
                      exists k keys, input part = InputObject (k :: keys))
         (partsOf msg).

Definition isUser (msg : Message) : bool := String.eqb (role msg) "user".

(** The loop of lines 452-462, about to look at the indices below [n] from
    the highest down: the first assistant message met is given the cache point
    and the loop ends. *)
Fixpoint cachePointLoop (n : nat) (msgs : list Message) : list Message :=
  match n with
  | O => msgs
  | S i =>
      match msgs !! i with
      | Some msg =>
          if String.eqb (role msg) "assistant"
          then <[ i := withCachePoint msg ]> msgs
          else cachePointLoop i msgs
      | None => cachePointLoop i msgs
      end
  end.

(** Lines 450-463: the loop starts at [enhancedMessages.length - 2]. *)
Definition addCachePoint (shouldCache : bool) (msgs : list Message) : list Message :=
  if shouldCache && (2 <=? length msgs)%nat
  then cachePointLoop (length msgs - 1) msgs
  else msgs.

End ChatRoute.

(** ** The chat route: data URLs in tool results *)

Module ToolResults.

Definition dataUrlPrefix : string := "data:image/".

Definition base64Marker : string := ";base64,".

Definition truncationNote : string := "...[base64 truncated to save tokens]...".

(** The class [[^;]]. *)
Definition notSemicolon (c : ascii) : bool := negb (Ascii.eqb c ";").

(** A match of [data:image\/[^;]+;base64,[A-Za-z0-9+/=]{100,}] at the start of
    [s] (line 372).  Both quantifiers are greedy and what follows each class
    begins outside it, so only the longest runs can match. *)
Definition matchDataUrl (s : string) : option string :=
  if String.prefix dataUrlPrefix s then
    let '(mediaType, afterType) :=
      Js.span notSemicolon (Js.drop (String.length dataUrlPrefix) s) in
    match mediaType with
    | "" => None
    | _ =>
        if String.prefix base64Marker afterType then
          let '(digits, _) :=
            Js.span Base64.isBase64Char
                    (Js.drop (String.length base64Marker) afterType) in
          if (100 <=? String.length digits)%nat
          then Some (dataUrlPrefix +:+ mediaType +:+ base64Marker +:+ digits)
          else None
        else None
    end
  else None.

(** [result.replace(/.../g, (match) => ...)] (lines 371-377): the text is read
    from the left, a match is replaced by its first 50 code units and the
    note, and the search goes on after the match; [skip] counts the code units
    of the current match still to pass. *)
Fixpoint truncateFrom (skip : nat) (s : string) : string :=
  match s with
  | "" => ""
  | String c rest =>
      match skip with
      | S k => truncateFrom k rest
      | O =>
          match matchDataUrl s with
          | Some m =>
              Js.substring0 50 m +:+ truncationNote
              +:+ truncateFrom (String.length m - 1) rest
          | None => String c (truncateFrom 0 rest)
          end
      end
  end.

Definition truncateDataUrls (result : string) : string := truncateFrom 0 result.

End ToolResults.

(** ** More string primitives *)

Module JsText.

(** [toLowerCase] on a code unit below 256: the letters A-Z and the capital
    letters of Latin-1 (U+00C0 to U+00DE without the multiplication sign). *)
Definition lowerChar (c : ascii) : ascii :=
  let n := nat_of_ascii c in
  if ((65 <=? n) && (n <=? 90))%nat
     || ((192 <=? n) && (n <=? 222) && negb (n =? 215))%nat
  then ascii_of_nat (n + 32)
  else c.

(** [s.toLowerCase()], for a text whose code units are all below 256. *)
Fixpoint toLowerCase (s : string) : string :=
  match s with
  | "" => ""
  | String c r => String (lowerChar c) (toLowerCase r)
  end.

(** [s.split(sep)] for a separator of one code unit: the pieces between the
    separators, one piece (the empty one) for the empty string. *)
Fixpoint split (sep : ascii) (s : string) : list string :=
  match s with
  | "" => [""]
  | String c r =>
      if Ascii.eqb c sep then "" :: split sep r
      else
        match split sep r with
        | piece :: pieces => String c piece :: pieces
        | [] => [String c ""]
        end
  end.

End JsText.

(** ** The chat route: the tool get_shape_library *)

Module ShapeLibrary.

(** The class [[a-z0-9_-]]. *)
Definition isNameChar (c : ascii) : bool :=
  let n := nat_of_ascii c in
  ((97 <=? n) && (n <=? 122))%nat || ((48 <=? n) && (n <=? 57))%nat
  || Ascii.eqb c "_" || Ascii.eqb c "-".

(** [s.replace(/[^a-z0-9_-]/g, "")] *)
Fixpoint removeOthers (s : string) : string :=
  match s with
  | "" => ""
  | String c r => if isNameChar c then String c (removeOthers r) else removeOthers r
  end.

(** What [fs.readFile] does: it resolves with the content or rejects. *)
Inductive ReadOutcome :=
| FileContent (content : string)
| NoEntry
| OtherFailure.

(** [String.prototype.toLowerCase], [path], [process.cwd()] and [fs] as the
    tool uses them.  The lower-casing is the runtime's: besides the letters
    A-Z it maps other code units to letters of [a-z] (U+212A, the Kelvin
    sign, to [k]), so it is left open here. *)
Record Node := {
  toLowerCase : string -> string;
  pathJoin : string -> string -> string;
  pathResolve : string -> string;
  cwd : string;
  readFile : string -> ReadOutcome
}.

(** Lines 718-720. *)
Definition sanitizedLibrary (node : Node) (library : string) : string :=
  removeOthers (toLowerCase node library).

Definition invalidName (library : string) : string :=
  "Invalid library name " +:+ Js.dq +:+ library +:+ Js.dq
  +:+ ". Use only letters, numbers, underscores, and hyphens.".

Definition notFound (library : string) : string :=
  "Library " +:+ Js.dq +:+ library +:+ Js.dq
  +:+ " not found. Available: aws4, azure2, gcp2, alibaba_cloud, cisco19, kubernetes, network, bpmn, flowchart, basic, arrows2, vvd, salesforce, citrix, sap, mscae, atlassian, fluidpower, electrical, pid, cabinets, floorplan, webicons, infographic, sitemap, android, lean_mapping, openstack, rack".

Definition loadError (library : string) : string :=
  "Error loading library " +:+ Js.dq +:+ library +:+ Js.dq +:+ ". Please try again.".

(** The name of the file the tool asks for, inside the directory of the
    shape libraries. *)
Definition fileName (node : Node) (library : string) : string :=
  sanitizedLibrary node library +:+ ".md".

(** The answer for the outcome of [fs.readFile] (lines 741-755). *)
Definition answer (library : string) (outcome : ReadOutcome) : string :=
  match outcome with
  | FileContent content => content
  | NoEntry => notFound library
  | OtherFailure => loadError library
  end.

(** [get_shape_library.execute] (lines 716-756). *)
Definition execute (node : Node) (library : string) : string :=
  if negb (String.eqb (sanitizedLibrary node library) (toLowerCase node library))
  then invalidName library
  else
    let baseDir := pathJoin node (cwd node) "docs/shape-libraries" in
    let filePath := pathJoin node baseDir (fileName node library) in
    let resolvedPath := pathResolve node filePath in
    if negb (Js.startsWith resolvedPath (pathResolve node baseDir))
    then "Invalid library path."
    else answer library (readFile node filePath).

End ShapeLibrary.

(** ** The chat route: the access code *)

Module AccessCode.

(** [process.env.ACCESS_CODE_LIST?.split(",").map((code) => code.trim())
    .filter(Boolean) || []] (lines 80-83). *)
Definition accessCodes (ACCESS_CODE_LIST : option string) : list string :=
  match ACCESS_CODE_LIST with
  | Some list =>
      List.filter (fun code => negb (String.eqb code ""))
                  (map Js.trim (JsText.split "," list))
  | None => []
  end.

(** The bytes that a [Headers] object strips from both ends of a value: HTAB,
    LF, CR and SP. *)
Definition isHttpWhitespace (c : ascii) : bool :=
  let n := nat_of_ascii c in
  (n =? 9)%nat || (n =? 10)%nat || (n =? 13)%nat || (n =? 32)%nat.

Fixpoint stripStart (s : string) : string :=
  match s with
  | String c r => if isHttpWhitespace c then stripStart r else s
  | "" => ""
  end.

Fixpoint stripEnd (s : string) : string :=
  match s with
  | String c r =>
      match stripEnd r with
      | "" => if isHttpWhitespace c then "" else String c ""
      | r' => String c r'
      end
  | "" => ""
  end.

(** A header value as a [Headers] object keeps it. *)
Definition normalize (value : string) : string := stripEnd (stripStart value).

(** [values.join(", ")] *)
Fixpoint joinValues (values : list string) : string :=
  match values with
  | [] => ""
  | [v] => v
  | v :: rest => v +:+ ", " +:+ joinValues rest
  end.

(** [req.headers.get("x-access-code")] for a request that was sent with the
    header [sent] times over, in this order: [null] when it was not sent, else
    the normalized values joined by a comma and a space. *)
Definition headersGet (sent : list string) : option string :=
  match sent with
  | [] => None
  | _ => Some (joinValues (map normalize sent))
  end.

(** Lines 84-94: whether the request is answered 401. *)
Definition rejects (ACCESS_CODE_LIST : option string) (sent : list string) : bool :=
  let codes := accessCodes ACCESS_CODE_LIST in
  if (0 <? length codes)%nat then
    let accessCodeHeader := headersGet sent in
    match truthy accessCodeHeader with
    | None => true
    | Some header => negb (existsb (String.eqb header) codes)
    end
  else false.

End AccessCode.

(** ** The chat route: answers to errors *)

Module ChatErrors.

(** What was thrown, as [handleError] tells it apart. *)
Inductive ErrorClass :=
| APICallError
| LoadAPIKeyError
| OtherError      (* any other instance of [Error] *)
| NotAnError.     (* a thrown value that is no [Error] *)

(** The fields [handleError] reads.  [statusCode] and [status] are numbers
    when present. *)
Record Thrown := {
  class : ErrorClass;
  message : string;
  statusCode : option Z;
  status : option Z;
  responseBody : option string;
  stack : option string
}.

(** The JSON body and the status of the response; [None] for a member that
    is absent or undefined. *)
Record ErrorResponse := {
  r_error : string;
  r_details : option string;
  r_stack : option string;
  r_status : Z
}.

(** [a || b] on numbers that may be absent. *)
Definition orElse (a : option Z) (b : Z) : Z :=
  match a with
  | Some n => if (n =? 0)%Z then b else n
  | None => b
  end.

Definition authenticationFailed : string :=
  "Authentication failed. Please check your credentials.".

(** The test of lines 1042-1048 on the lower-cased message. *)
Definition looksSensitive (lowerMessage : string) : bool :=
  Js.includes lowerMessage "key"
  || Js.includes lowerMessage "token"
  || Js.includes lowerMessage "sig"
  || Js.includes lowerMessage "signature"
  || Js.includes lowerMessage "secret"
  || Js.includes lowerMessage "password"
  || Js.includes lowerMessage "credential".

(** [handleError] (lines 1003-1062); [isDev] is
    [process.env.NODE_ENV === "development"].  The result is what the function
    hands to [Response.json], which answers with it when the status lies
    between 200 and 599 and throws a [RangeError] otherwise. *)
Definition handleError (isDev : bool) (error : Thrown) : ErrorResponse :=
  match class error with
  | APICallError =>
      {| r_error := message error;
         r_details := if isDev then responseBody error else None;
         r_stack := if isDev then stack error else None;
         r_status := orElse (statusCode error) 500 |}
  | LoadAPIKeyError =>
      {| r_error := "Authentication failed. Please check your API key.";
         r_details := None;
         r_stack := if isDev then stack error else None;
         r_status := 401 |}
  | _ =>
      let message :=
        match class error with
        | NotAnError => "An unexpected error occurred"
        | _ => message error
        end in
      let status := orElse (statusCode error) (orElse (status error) 500) in
      let lowerMessage := JsText.toLowerCase message in
      let safeMessage :=
        if looksSensitive lowerMessage then authenticationFailed else message in
      {| r_error := safeMessage;
         r_details := if isDev then Some message else None;
         r_stack := if isDev
                    then match class error with
                         | NotAnError => None
                         | _ => stack error
                         end
                    else None;
         r_status := status |}
  end.

(** The words the safety filter looks for. *)
Definition sensitiveWords : list string :=
  ["key"; "token"; "sig"; "signature"; "secret"; "password"; "credential"].

End ChatErrors.

(** ** The route extract-regions: one region *)

Module Extractor.

(** A region of the request, with its name: an element of [regions] that is
    an object whose [name] is a string. *)
Record RegionRequest := {
  name : string;
  region : ExtractRegions.Region
}.

(** What [sharp(imageBuffer).extract(...).png().toBuffer()] does: it resolves
    with the bytes of the cropped image or rejects. *)
Inductive CropOutcome :=
| Cropped (croppedBuffer : list ascii)
| CropFailed (error : string).

(** The callback of [regions.map] (lines 164-229).  A region that failed has
    no [dataUrl] member; the field is never read then. *)
Definition extractRegion (crop : ExtractRegions.Region -> CropOutcome)
    (imageWidth imageHeight : Z) (request : RegionRequest)
    : RegionCache.ExtractedRegion :=
  match crop (ExtractRegions.clampRegion imageWidth imageHeight (region request)) with
  | Cropped croppedBuffer =>
      {| RegionCache.name := name request;
         RegionCache.dataUrl := Base64.dataUrlOf croppedBuffer;
         RegionCache.error := None |}
  | CropFailed error =>
      {| RegionCache.name := name request;
         RegionCache.dataUrl := "";
         RegionCache.error := Some ("Failed to extract region: " +:+ error) |}
  end.

(** [extractedRegions], the [regions] member of the response (line 240). *)
Definition extractedRegions (crop : ExtractRegions.Region -> CropOutcome)
    (imageWidth imageHeight : Z) (requests : list RegionRequest)
    : list RegionCache.ExtractedRegion :=
  map (extractRegion crop imageWidth imageHeight) requests.

End Extractor.

(** ** The route extract-regions: all regions of a request *)

Module ExtractRoute.





End ExtractRoute.

(** ** A text with its references in place *)

(** A reference of a text at its place: the text before it, which belongs to
    no reference; what stands at the place now, the reference as written or
    what it was replaced by; and the match of the pattern there. *)
Record Placed := {
  before : string;
  current : string;
  found : CacheMatch
}.

(** The text made of the placed references and of the text after the last. *)
Fixpoint render (items : list Placed) (tail : string) : string :=
  match items with
  | [] => tail
  | it :: rest => before it +:+ current it +:+ render rest tail
  end.

(** The place of a reference after the loop of [cacheKey]: a reference of
    that key whose region name the mapping holds with a non-empty payload is
    replaced by [image=] and the payload, its semicolons written [%3B]; any
    other place is as it was. *)
Definition resolveItem (cacheKey : string) (regions : gmap string string)
    (it : Placed) : Placed :=
  if String.eqb (key (found it)) cacheKey then
    match regions !! regionName (found it) with
    | Some (String c payload) =>
        {| before := before it;
           current := "image=" +:+ Js.replaceSemicolons (String c payload);
           found := found it |}
    | _ => it
    end
  else it.

(** Every substitution of the loop of [cacheKey] reaches its own reference:
    when the turn of a reference with a payload comes, the first occurrence
    of its text, in the text as it stands then, is the reference itself, and
    the payload holds no dollar sign; and no reference of the key names a
    member that the mapping inherits.  [done] is the text before [items]. *)
Fixpoint reachesOwn (cacheKey : string) (regions : gmap string string)
    (done : string) (items : list Placed) (tail : string) : Prop :=
  match items with
  | [] => True
  | it :: rest =>
      (if String.eqb (key (found it)) cacheKey then
         match getProperty regions (regionName (found it)) with
         | JsString (String c payload) =>
             Js.splitFirst (searchStrOf cacheKey (regionName (found it)))
                           (done +:+ render items tail)
             = Some (done +:+ before it, render rest tail)
             /\ Js.occurs "$" (String c payload) = false
         | JsObject => False
         | _ => True
         end
       else True)
      /\ reachesOwn cacheKey regions
           (done +:+ before it +:+ current (resolveItem cacheKey regions it))
           rest tail
  end.

Section Runs.
Context {World : Type}.
Variable env : Env World.

(** The fetches of the loop over the keys, in order, with their outcomes. *)
Fixpoint fetchAll (keys : list string) (w : World)
    : list (string * FetchOutcome) * World :=
  match keys with
  | [] => ([], w)
  | cacheKey :: rest =>
      let '(outcome, w') := fetchCachedRegions env cacheKey w in
      let '(log, w'') := fetchAll rest w' in
      ((cacheKey, outcome) :: log, w'')
  end.

End Runs.

(** The places after the loops of the keys of a log. *)
Fixpoint passes (log : list (string * FetchOutcome)) (items : list Placed)
    : list Placed :=
  match log with
  | [] => items
  | (cacheKey, outcome) :: rest =>
      passes rest
        (match served outcome with
         | Some regions => map (resolveItem cacheKey regions) items
         | None => items
         end)
  end.

(** Every substitution of every loop reaches its own reference. *)
Fixpoint allReachOwn (log : list (string * FetchOutcome)) (items : list Placed)
    (tail : string) : Prop :=
  match log with
  | [] => True
  | (cacheKey, outcome) :: rest =>
      match served outcome with
      | Some regions =>
          reachesOwn cacheKey regions "" items tail
          /\ allReachOwn rest (map (resolveItem cacheKey regions) items) tail
      | None => allReachOwn rest items tail
      end
  end.

(** The place of a reference after all the loops: resolved against the
    mapping that the fetch of its key served, if it served one. *)
Definition finalItem (log : list (string * FetchOutcome)) (it : Placed) : Placed :=
  match List.find (fun e => String.eqb (fst e) (key (found it))) log with
  | Some (cacheKey, outcome) =>
      match served outcome with
      | Some regions => resolveItem cacheKey regions it
      | None => it
      end
  | None => it
  end.

(** The document of the example: a cell for the region [hand], which the
    server holds, and one for [foot], which it lacks. *)
Definition handAndFoot : list Placed * string :=
  ([ {| before := "<mxCell" +:+ attribute "id" "hand" +:+ " style=" +:+ Js.dq
                  +:+ "shape=image;";
        current := searchStrOf (fst handServer) "hand";
        found := {| fullMatch := searchStrOf (fst handServer) "hand";
                    key := fst handServer; regionName := "hand" |} |};
     {| before := ";" +:+ Js.dq +:+ attribute "vertex" "1" +:+ attribute "parent" "1"
                  +:+ "/><mxCell" +:+ attribute "id" "foot" +:+ " style=" +:+ Js.dq
                  +:+ "shape=image;";
        current := searchStrOf (fst handServer) "foot";
        found := {| fullMatch := searchStrOf (fst handServer) "foot";
                    key := fst handServer; regionName := "foot" |} |} ],
   ";" +:+ Js.dq +:+ attribute "vertex" "1" +:+ attribute "parent" "1" +:+ "/>").

(* ===================================================================== *)
(** * Part II: theorems                                                   *)
(* ===================================================================== *)

(** ** Strings *)

Lemma append_nil_l (s : string) : "" +:+ s = s.
Proof. reflexivity. Qed.

Lemma append_cons (c : ascii) (s t : string) : String c s +:+ t = String c (s +:+ t).
Proof. reflexivity. Qed.

Lemma append_nil_r (s : string) : s +:+ "" = s.
Proof. induction s as [|c s IH]; [reflexivity|]. rewrite append_cons, IH. reflexivity. Qed.

Lemma append_assoc (a b c : string) : (a +:+ b) +:+ c = a +:+ (b +:+ c).
Proof.
  induction a as [|x a IH]; [reflexivity|].
  rewrite !append_cons, IH. reflexivity.
Qed.

Lemma occurs_append (c : ascii) (a b : string) :
  Js.occurs c (a +:+ b) = Js.occurs c a || Js.occurs c b.
Proof.
  induction a as [|x a IH]; [reflexivity|].
  rewrite append_cons. cbn [Js.occurs]. rewrite IH, orb_assoc. reflexivity.
Qed.

(** ** The assembler: one call *)

Section AssemblerSteps.
Context {World : Type}.
Variable lib : LibUtils.
Variable env : Env World.

Lemma resolve_without_references (xml : string) (w : World) :
  cacheMatches xml = [] -> resolveCacheReferences env xml w = (xml, w).
Proof. intros H. unfold resolveCacheReferences. rewrite H. reflexivity. Qed.

Lemma displayedState_partial tool callId finalXml invalidText successText s :
  partialXmlRef (displayedState lib env tool callId finalXml invalidText successText s) = "".
Proof.
  unfold displayedState. destruct (onDisplayChart env _ _). reflexivity.
Qed.

Lemma displayedState_world tool callId finalXml invalidText successText s :
  world (displayedState lib env tool callId finalXml invalidText successText s)
  = snd (onDisplayChart env (wrapWithMxFile lib finalXml) (world s)).
Proof.
  unfold displayedState. destruct (onDisplayChart env _ _). reflexivity.
Qed.

Lemma displayedState_original tool callId finalXml invalidText successText s :
  editDiagramOriginalXmlRef (displayedState lib env tool callId finalXml invalidText successText s)
  = editDiagramOriginalXmlRef s.
Proof.
  unfold displayedState. destruct (onDisplayChart env _ _). reflexivity.
Qed.

Lemma append_incomplete (callId xml : string) (s : Sys World) :
  isFreshStart xml = false ->
  isMxCellXmlComplete lib (partialXmlRef s +:+ xml) = false ->
  handleAppendDiagram lib env callId xml s =
  {| partialXmlRef := partialXmlRef s +:+ xml;
     editDiagramOriginalXmlRef := editDiagramOriginalXmlRef s;
     world := world s;
     toolOutputs :=
       toolOutputs s ++
       [OutputError "append_diagram" callId
          (stillIncompleteText (Js.sliceLast 500 (partialXmlRef s +:+ xml)))] |}.
Proof.
  intros Hfresh Hinc. unfold handleAppendDiagram. rewrite Hfresh. cbn.
  rewrite Hinc. reflexivity.
Qed.

Lemma append_complete (callId xml : string) (s : Sys World) :
  isFreshStart xml = false ->
  isMxCellXmlComplete lib (partialXmlRef s +:+ xml) = true ->
  handleAppendDiagram lib env callId xml s =
  displayedState lib env "append_diagram" callId (partialXmlRef s +:+ xml)
    (fun err => assemblyInvalidText err (partialXmlRef s +:+ xml))
    "Diagram assembly complete and displayed successfully." s.
Proof.
  intros Hfresh Hc. unfold handleAppendDiagram, displayedState.
  rewrite Hfresh. cbn. rewrite Hc.
  destruct (onDisplayChart env _ _) as [v w]. cbn.
  destruct (truthy v); reflexivity.
Qed.

Lemma display_incomplete (callId xml : string) (s : Sys World) :
  cacheMatches xml = [] ->
  isMxCellXmlComplete lib xml = false ->
  handleDisplayDiagram lib env callId xml s =
  {| partialXmlRef := xml;
     editDiagramOriginalXmlRef := editDiagramOriginalXmlRef s;
     world := world s;
     toolOutputs :=
       toolOutputs s ++
       [OutputError "display_diagram" callId
          (truncatedText (Js.sliceLast 500 xml))] |}.
Proof.
  intros Hm Hinc. unfold handleDisplayDiagram.
  rewrite (resolve_without_references _ _ Hm). cbn. rewrite Hinc. reflexivity.
Qed.

Lemma display_complete (callId xml : string) (s : Sys World) :
  cacheMatches xml = [] ->
  isMxCellXmlComplete lib xml = true ->
  handleDisplayDiagram lib env callId xml s =
  displayedState lib env "display_diagram" callId xml
    (fun err => displayInvalidText err xml)
    "Successfully displayed the diagram." s.
Proof.
  intros Hm Hc. unfold handleDisplayDiagram, displayedState.
  rewrite (resolve_without_references _ _ Hm). cbn. rewrite Hc. cbn.
  destruct (onDisplayChart env _ _) as [v w]. cbn.
  destruct (truthy v); reflexivity.
Qed.

(** ** The assembler: runs of continuations *)

Lemma handleToolCalls_cons (toolCall : ToolCall) (l : list ToolCall) (s : Sys World) :
  handleToolCalls lib env (toolCall :: l) s
  = handleToolCalls lib env l (handleToolCall lib env toolCall s).
Proof. reflexivity. Qed.

Lemma handleToolCall_continuation (c : string * string) (s : Sys World) :
  handleToolCall lib env (continuation c) s
  = handleAppendDiagram lib env (fst c) (snd c) s.
Proof. reflexivity. Qed.

Lemma handleToolCalls_app (l1 l2 : list ToolCall) (s : Sys World) :
  handleToolCalls lib env (l1 ++ l2) s
  = handleToolCalls lib env l2 (handleToolCalls lib env l1 s).
Proof. unfold handleToolCalls. apply fold_left_app. Qed.

Lemma buffers_app (b : string) (l1 l2 : list string) :
  buffers b (l1 ++ l2) = buffers b l1 ++ buffers (b +:+ Js.concatAll l1) l2.
Proof.
  revert b. induction l1 as [|f l1 IH]; intros b.
  - cbn. rewrite append_nil_r. reflexivity.
  - cbn [app buffers Js.concatAll]. rewrite IH, append_assoc. reflexivity.
Qed.

Lemma concatAll_app (l1 l2 : list string) :
  Js.concatAll (l1 ++ l2) = Js.concatAll l1 +:+ Js.concatAll l2.
Proof.
  induction l1 as [|f l1 IH]; [reflexivity|].
  cbn [app Js.concatAll]. rewrite IH, append_assoc. reflexivity.
Qed.

(** Continuations that leave the text incomplete: the buffer grows by each,
    nothing is displayed, and each is answered with the resume signal. *)
Lemma continuations_accumulate (cs : list (string * string)) (s : Sys World) :
  Forall (fun c => isFreshStart (snd c) = false) cs ->
  Forall (fun b => isMxCellXmlComplete lib b = false)
         (buffers (partialXmlRef s) (map snd cs)) ->
  handleToolCalls lib env (map continuation cs) s =
  {| partialXmlRef := partialXmlRef s +:+ Js.concatAll (map snd cs);
     editDiagramOriginalXmlRef := editDiagramOriginalXmlRef s;
     world := world s;
     toolOutputs := toolOutputs s ++ resumeSignals (partialXmlRef s) cs |}.
Proof.
  revert s. induction cs as [|c cs IH]; intros s Hfresh Hinc.
  - cbn. rewrite append_nil_r, app_nil_r. destruct s; reflexivity.
  - inversion Hfresh as [|? ? Hf Hfs]; subst.
    cbn [map buffers] in Hinc. inversion Hinc as [|? ? Hi His]; subst.
    cbn [map]. rewrite handleToolCalls_cons, handleToolCall_continuation.
    rewrite (append_incomplete _ _ _ Hf Hi).
    rewrite IH; cbn [partialXmlRef]; [|assumption|assumption].
    cbn [Js.concatAll resumeSignals world editDiagramOriginalXmlRef toolOutputs].
    rewrite append_assoc, <- app_assoc. reflexivity.
Qed.

Lemma continuations_phases (cs : list (string * string)) (s : Sys World)
    (p : AssemblyPhase) :
  Forall (fun c => isFreshStart (snd c) = false) cs ->
  Forall (fun b => isMxCellXmlComplete lib b = false)
         (buffers (partialXmlRef s) (map snd cs)) ->
  phases lib env (map continuation cs) s p = repeat Accumulating (length cs).
Proof.
  revert s p. induction cs as [|c cs IH]; intros s p Hfresh Hinc; [reflexivity|].
  inversion Hfresh as [|? ? Hf Hfs]; subst.
  cbn [map buffers] in Hinc. inversion Hinc as [|? ? Hi His]; subst.
  cbn [map phases length repeat].
  assert (Hp : phaseAfter lib env (continuation c) s p = Accumulating).
  { unfold phaseAfter, completedBy. cbn [continuation input].
    rewrite Hf, Hi. reflexivity. }
  rewrite Hp. f_equal.
  rewrite handleToolCall_continuation, (append_incomplete _ _ _ Hf Hi).
  apply IH; [assumption|]. cbn [partialXmlRef]. assumption.
Qed.

Lemma count_repeat_accumulating (n : nat) :
  length (List.filter isAccumulating (repeat Accumulating n)) = n.
Proof. induction n as [|n IH]; [reflexivity|]. cbn. rewrite IH. reflexivity. Qed.

End AssemblerSteps.

(** ** The detector of the spec on texts cut inside a tag *)

Lemma scanFrom_append (st : Detector.Scan) (a b : string) :
  Detector.scanFrom st (a +:+ b) = Detector.scanFrom (Detector.scanFrom st a) b.
Proof.
  revert st. induction a as [|c a IH]; intros st; [reflexivity|].
  rewrite append_cons. cbn [Detector.scanFrom]. apply IH.
Qed.


Lemma midTag_incomplete (text : string) :
  midTag (Detector.scan text) -> Detector.isMxCellXmlComplete text = false.
Proof.
  intros [Hq Ht]. unfold Detector.isMxCellXmlComplete, Detector.closed, Detector.insideQuote.
  rewrite Hq, Ht. reflexivity.
Qed.

Lemma midTag_letter (text : string) :
  midTag (Detector.scan text) -> midTag (Detector.scan (text +:+ "x")).
Proof.
  intros [Hq Ht]. unfold Detector.scan. rewrite scanFrom_append.
  fold (Detector.scan text). cbn [Detector.scanFrom]. unfold Detector.step.
  rewrite Hq, Ht. cbn. split; reflexivity.
Qed.

Lemma letters_stay_incomplete (n : nat) (buffer : string) :
  midTag (Detector.scan buffer) ->
  Forall (fun b => Detector.isMxCellXmlComplete b = false)
         (buffers buffer (repeat "x" n)).
Proof.
  revert buffer. induction n as [|n IH]; intros buffer Hmid; [constructor|].
  cbn [repeat buffers]. constructor.
  - apply midTag_incomplete, midTag_letter, Hmid.
  - apply IH, midTag_letter, Hmid.
Qed.

(** ** The assembler: no bound on the rounds *)

(** C6 (amended). [handleAppendDiagram] keeps no round counter.  For every
    number of continuation fragments, none a fresh start, none completing the
    text: the buffer is the old buffer followed by all of them, nothing is
    displayed, every one of them is answered with the resume signal (the
    still-incomplete error quoting the last 500 code units), and every one of
    them counts as an accumulating iteration.  The handler has no answer that
    abandons an assembly. *)
Theorem accumulation_is_unbounded {World : Type} (lib : LibUtils) (env : Env World)
    (cs : list (string * string)) (s : Sys World) :
  Forall (fun c => isFreshStart (snd c) = false) cs ->
  Forall (fun b => isMxCellXmlComplete lib b = false)
         (buffers (partialXmlRef s) (map snd cs)) ->
  let s' := handleToolCalls lib env (map continuation cs) s in
  partialXmlRef s' = partialXmlRef s +:+ Js.concatAll (map snd cs)
  /\ world s' = world s
  /\ toolOutputs s' = toolOutputs s ++ resumeSignals (partialXmlRef s) cs
  /\ accumulatingIterations lib env (map continuation cs) s = length cs.
Proof.
  intros Hfresh Hinc. cbn zeta.
  rewrite (continuations_accumulate lib env cs s Hfresh Hinc).
  cbn [partialXmlRef world toolOutputs]. repeat split.
  unfold accumulatingIterations.
  rewrite (continuations_phases lib env cs s Idle Hfresh Hinc).
  apply count_repeat_accumulating.
Qed.

Lemma repeat_not_fresh (n : nat) :
  Forall (fun c : string * string => isFreshStart (snd c) = false)
         (repeat ("call", "x") n).
Proof. induction n; constructor; [reflexivity|assumption]. Qed.

Lemma map_snd_repeat (n : nat) :
  map snd (repeat ("call", "x") n) = repeat "x" n.
Proof. induction n as [|n IH]; [reflexivity|]. cbn. rewrite IH. reflexivity. Qed.

(** Twelve rounds on a cell cut inside its start tag: still accumulating. *)
Lemma accumulation_is_unbounded_witness :
  let s := {| partialXmlRef := "<mxCell"; editDiagramOriginalXmlRef := ∅;
              world := blankPage; toolOutputs := [] |} in
  let cs := repeat ("call", "x") 12 in
  let s' := handleToolCalls detectorUtils (pageEnv (fun _ => None))
              (map continuation cs) s in
  partialXmlRef s' = "<mxCellxxxxxxxxxxxx"
  /\ world s' = blankPage
  /\ toolOutputs s' = resumeSignals "<mxCell" cs
  /\ accumulatingIterations detectorUtils (pageEnv (fun _ => None))
       (map continuation cs) s = 12%nat.
Proof.
  assert (Hfresh : Forall (fun c : string * string => isFreshStart (snd c) = false)
                     (repeat ("call", "x") 12)) by apply repeat_not_fresh.
  assert (Hinc : Forall (fun b => Detector.isMxCellXmlComplete b = false)
                   (buffers "<mxCell" (map snd (repeat ("call", "x") 12)))).
  { rewrite map_snd_repeat. apply letters_stay_incomplete. split; reflexivity. }
  pose proof (accumulation_is_unbounded detectorUtils (pageEnv (fun _ => None))
           (repeat ("call", "x") 12)
           {| partialXmlRef := "<mxCell"; editDiagramOriginalXmlRef := ∅;
              world := blankPage; toolOutputs := [] |}
           Hfresh Hinc) as H.
  cbv zeta in H |- *. destruct H as (H1 & H2 & H3 & H4).
  split; [rewrite H1; reflexivity|].
  split; [exact H2|].
  split; [rewrite H3; reflexivity|exact H4].
Defined.

(** C6, as the spec states it, fails: no number bounds the accumulating
    iterations.  After a first fragment cut inside a start tag, [bound]
    continuations that do not close the tag give [bound + 1] of them. *)
Lemma accumulation_bound_counterexample : ~ BoundedAccumulation.
Proof.
  intros [bound H].
  specialize (H ({| toolCallId := "call"; input := display_diagram "<mxCell" |}
                 :: map continuation (repeat ("call", "x") bound))).
  unfold accumulatingIterations in H. cbn [phases] in H.
  assert (Hp : phaseAfter detectorUtils (pageEnv (fun _ => None))
                 {| toolCallId := "call"; input := display_diagram "<mxCell" |}
                 (initial blankPage) Idle = Accumulating) by reflexivity.
  rewrite Hp in H.
  rewrite continuations_phases in H.
  - cbn [List.filter isAccumulating length] in H.
    rewrite count_repeat_accumulating, repeat_length in H. lia.
  - apply repeat_not_fresh.
  - rewrite map_snd_repeat. apply letters_stay_incomplete. split; reflexivity.
Qed.

(** ** The assembler against direct display *)

(** C4, as the spec states it, fails in two ways.  First, when a buffer is
    already complete before the last continuation, the assembler displays it
    and starts over: here two texts are shown, neither the concatenation.
    Second, append_diagram does not resolve cache references, display_diagram
    does: a reference that arrives in a continuation is shown as written. *)
Lemma assembly_equals_direct_counterexample :
  ~ AssemblyEqualsDirect
  /\ let first := "<mxCell" +:+ attribute "id" "hand" in
     let rest := attribute "style" ("shape=image;image=data:cache/" +:+ fst handServer +:+ "/hand;")
                 +:+ attribute "vertex" "1" +:+ attribute "parent" "1" +:+ "/>" in
     Detector.isMxCellXmlComplete first = false
     /\ isFreshStart rest = false
     /\ Detector.isMxCellXmlComplete (first +:+ rest) = true
     /\ displayed (world (handleToolCalls detectorUtils (pageEnv (fun _ => None))
                            [ {| toolCallId := "call-1"; input := display_diagram first |};
                              {| toolCallId := "call-2"; input := append_diagram rest |} ]
                            (initial handPage)))
        = [Wrapper.wrapWithMxFile (first +:+ rest)]
     /\ displayed (world (handleDisplayDiagram detectorUtils (pageEnv (fun _ => None))
                            "call-3" (first +:+ rest) (initial handPage)))
        = [Wrapper.wrapWithMxFile
             ("<mxCell" +:+ attribute "id" "hand"
              +:+ attribute "style" "shape=image;image=data:image/png%3Bbase64,iVBORw0KGgo=;"
              +:+ attribute "vertex" "1" +:+ attribute "parent" "1" +:+ "/>")].
Proof.
  split.
  - intros H.
    assert (Hfresh : Forall (fun c : string * string => isFreshStart (snd c) = false)
              [ ("call-2", attribute "vertex" "1" +:+ attribute "parent" "1" +:+ "/>");
                ("call-3", "<mxCell" +:+ attribute "id" "b" +:+ attribute "vertex" "1"
                           +:+ attribute "parent" "1" +:+ "/>") ])
      by (repeat constructor).
    specialize (H blankPage ("<mxCell" +:+ attribute "id" "a") _ eq_refl Hfresh eq_refl).
    vm_compute in H. discriminate H.
  - vm_compute. repeat split.
Qed.

(** ** The pending buffer *)

Section Buffer.
Context {World : Type}.
Variable lib : LibUtils.
Variable env : Env World.

Lemma edit_keeps_buffer (callId : string) (operations : list DiagramOperation)
    (s : Sys World) :
  partialXmlRef (handleEditDiagram lib env callId operations s) = partialXmlRef s.
Proof.
  unfold handleEditDiagram.
  destruct (currentXmlFor env callId s) as [[msg|currentXml] w]; [reflexivity|].
  cbn. destruct (errors (applyDiagramOperations lib currentXml operations));
    [|reflexivity].
  cbn. destruct (onDisplayChart env _ _) as [v w']. cbn.
  destruct (truthy v); reflexivity.
Qed.

(** A call whose text the detector judges complete leaves the buffer empty,
    whatever the chart answers. *)
Lemma completed_resets (toolCall : ToolCall) (s : Sys World) :
  completedBy lib env toolCall s = true ->
  partialXmlRef (handleToolCall lib env toolCall s) = "".
Proof.
  unfold completedBy, handleToolCall.
  destruct (input toolCall) as [xml|ops|xml|n]; try discriminate.
  - intros Hc. unfold handleDisplayDiagram.
    destruct (resolveCacheReferences env xml (world s)) as [xml' w].
    cbn in Hc |- *. rewrite Hc. cbn.
    destruct (onDisplayChart env _ _) as [v w']. cbn.
    destruct (truthy v); reflexivity.
  - intros Hc. apply andb_true_iff in Hc. destruct Hc as [Hf Hc].
    apply negb_true_iff in Hf.
    rewrite (append_complete lib env _ _ _ Hf Hc).
    apply displayedState_partial.
Qed.

(** One call keeps the invariant: a non-empty buffer means accumulating. *)
Lemma buffer_invariant_step (toolCall : ToolCall) (s : Sys World) (p : AssemblyPhase) :
  (partialXmlRef s <> "" -> p = Accumulating) ->
  partialXmlRef (handleToolCall lib env toolCall s) <> "" ->
  phaseAfter lib env toolCall s p = Accumulating.
Proof.
  intros Hinv Hne.
  destruct (completedBy lib env toolCall s) eqn:Hc.
  { exfalso. apply Hne. apply completed_resets. exact Hc. }
  unfold phaseAfter. rewrite Hc.
  unfold handleToolCall in Hne. unfold completedBy in Hc.
  destruct (input toolCall) as [xml|ops|xml|n].
  - reflexivity.
  - apply Hinv. rewrite edit_keeps_buffer in Hne. exact Hne.
  - destruct (isFreshStart xml) eqn:Hf; [|reflexivity].
    apply Hinv. unfold handleAppendDiagram in Hne. rewrite Hf in Hne. exact Hne.
  - apply Hinv. exact Hne.
Qed.

Lemma last_cons_default {A : Type} (x d : A) (l : list A) :
  List.last (x :: l) d = List.last l x.
Proof.
  revert x d. induction l as [|y l IH]; intros x d; [reflexivity|].
  change (List.last (x :: y :: l) d) with (List.last (y :: l) d).
  rewrite (IH y d), (IH y x). reflexivity.
Qed.

Lemma buffer_invariant_run (toolCalls : list ToolCall) (s : Sys World)
    (p : AssemblyPhase) :
  (partialXmlRef s <> "" -> p = Accumulating) ->
  partialXmlRef (handleToolCalls lib env toolCalls s) <> "" ->
  List.last (phases lib env toolCalls s p) p = Accumulating.
Proof.
  revert s p. induction toolCalls as [|toolCall rest IH]; intros s p Hinv Hne.
  - cbn in *. auto.
  - cbn [phases]. rewrite last_cons_default.
    rewrite handleToolCalls_cons in Hne.
    apply IH; [|exact Hne].
    apply buffer_invariant_step. exact Hinv.
Qed.

End Buffer.

(** C10. Along any sequence of tool calls that starts with the invariant (an
    empty buffer, say): the buffer is non-empty only while the assembler is
    accumulating; and whenever the detector judges the text of a call complete
    (a complete first fragment in display_diagram, a buffer that becomes
    complete in append_diagram) the buffer is empty after the call, whether or
    not the chart then accepts the text, since the handler resets the buffer
    before it wraps and validates. *)
Theorem buffer_empty_unless_accumulating {World : Type} (lib : LibUtils)
    (env : Env World) (toolCalls : list ToolCall) (s : Sys World)
    (p : AssemblyPhase) (next : ToolCall) :
  (partialXmlRef s <> "" -> p = Accumulating) ->
  let s' := handleToolCalls lib env toolCalls s in
  let p' := List.last (phases lib env toolCalls s p) p in
  (partialXmlRef s' <> "" -> p' = Accumulating)
  /\ (completedBy lib env next s' = true ->
      partialXmlRef (handleToolCall lib env next s') = "").
Proof.
  intros Hinv. cbn zeta. split.
  - apply buffer_invariant_run. exact Hinv.
  - apply completed_resets.
Qed.

(** A truncated display, a continuation that completes the text, and a chart
    that refuses it: the buffer is empty all the same. *)
Lemma buffer_empty_unless_accumulating_witness :
  let env := pageEnv (fun _ => Some "Invalid XML") in
  let first := "<mxCell" +:+ attribute "id" "a" in
  let rest := attribute "vertex" "1" +:+ attribute "parent" "1" +:+ "/>" in
  let toolCalls := [ {| toolCallId := "call-1"; input := display_diagram first |} ] in
  let next := {| toolCallId := "call-2"; input := append_diagram rest |} in
  let s' := handleToolCalls detectorUtils env toolCalls (initial blankPage) in
  let p' := List.last (phases detectorUtils env toolCalls (initial blankPage) Idle) Idle in
  (partialXmlRef s' <> "" -> p' = Accumulating)
  /\ (completedBy detectorUtils env next s' = true ->
      partialXmlRef (handleToolCall detectorUtils env next s') = "").
Proof.
  exact (buffer_empty_unless_accumulating detectorUtils
           (pageEnv (fun _ => Some "Invalid XML"))
           [ {| toolCallId := "call-1";
                input := display_diagram ("<mxCell" +:+ attribute "id" "a") |} ]
           (initial blankPage) Idle
           {| toolCallId := "call-2";
              input := append_diagram
                         (attribute "vertex" "1" +:+ attribute "parent" "1" +:+ "/>") |}
           (fun H => False_ind _ (H eq_refl))).
Defined.

(** ** The completeness detector *)






(** ** The cascade of a Delete *)

Lemma refersInto_mono (ids ids' : gset string) (ref : option string) :
  ids ⊆ ids' -> PatchEngine.refersInto ids ref = true ->
  PatchEngine.refersInto ids' ref = true.
Proof.
  intros Hsub. destruct ref as [i|]; cbn; [|discriminate].
  rewrite !bool_decide_eq_true. apply Hsub.
Qed.

Lemma dependsOn_mono (ids ids' : gset string) (c : PatchEngine.Cell) :
  ids ⊆ ids' -> PatchEngine.dependsOn ids c = true ->
  PatchEngine.dependsOn ids' c = true.
Proof.
  intros Hsub. unfold PatchEngine.dependsOn.
  rewrite !orb_true_iff, !andb_true_iff, !orb_true_iff, !bool_decide_eq_true.
  intros [Hp|[He [Hs|Ht]]]; [left; apply Hsub, Hp|right..]; split; auto;
    [left|right]; eapply refersInto_mono; eauto.
Qed.

Lemma cascadeStep_spec (document : list PatchEngine.Cell) (ids : gset string)
    (x : string) :
  x ∈ PatchEngine.cascadeStep document ids <->
  x ∈ ids \/ exists c, In c document /\ PatchEngine.dependsOn ids c = true
                       /\ PatchEngine.c_id c = x.
Proof.
  unfold PatchEngine.cascadeStep.
  rewrite elem_of_union, elem_of_list_to_set, list_elem_of_In, in_map_iff.
  split; (intros [H|H]; [left; exact H|right]).
  - destruct H as (c & Hid & Hc). apply filter_In in Hc. destruct Hc. eauto.
  - destruct H as (c & Hc & Hd & Hid). exists c. split; [exact Hid|].
    apply filter_In. auto.
Qed.

Lemma closedUnder_step (document : list PatchEngine.Cell) (ids : gset string) :
  PatchEngine.cascadeStep document ids ⊆ ids <-> closedUnder document ids.
Proof.
  split.
  - intros Hsub c Hc Hd. apply Hsub, cascadeStep_spec. right. eauto.
  - intros Hcl x Hx. apply cascadeStep_spec in Hx.
    destruct Hx as [Hx|(c & Hc & Hd & <-)]; [exact Hx|]. apply Hcl; assumption.
Qed.

Lemma filter_length_lt {A : Type} (f g : A -> bool) (l : list A) (a : A) :
  (forall x, f x = true -> g x = true) ->
  In a l -> g a = true -> f a = false ->
  (length (List.filter f l) < length (List.filter g l))%nat.
Proof.
  intros Hfg. induction l as [|x l IH]; intros Hin Hg Hf; [destruct Hin|].
  assert (Hle : (length (List.filter f l) <= length (List.filter g l))%nat).
  { clear -Hfg. induction l as [|y l IH]; [cbn; lia|]. cbn.
    destruct (f y) eqn:Hy; [rewrite (Hfg _ Hy); cbn; lia|].
    destruct (g y); cbn; lia. }
  cbn. destruct Hin as [->|Hin].
  - rewrite Hf, Hg. cbn. lia.
  - specialize (IH Hin Hg Hf).
    destruct (f x) eqn:Hx; [rewrite (Hfg _ Hx); cbn; lia|].
    destruct (g x); cbn; lia.
Qed.

(** A round that adds an id takes a cell of the document into the set. *)
Lemma cascadeStep_progress (document : list PatchEngine.Cell) (ids : gset string) :
  ~ PatchEngine.cascadeStep document ids ⊆ ids ->
  (length (PatchEngine.removeCells (PatchEngine.cascadeStep document ids) document)
   < length (PatchEngine.removeCells ids document))%nat.
Proof.
  intros Hnot.
  assert (Hex : exists c, In c document /\ PatchEngine.dependsOn ids c = true
                          /\ PatchEngine.c_id c ∉ ids).
  { destruct (decide (Forall (fun c => PatchEngine.c_id c ∈ ids)
                        (List.filter (PatchEngine.dependsOn ids) document)))
      as [Hall|Hnall].
    - exfalso. apply Hnot. apply closedUnder_step. intros c Hc Hd.
      rewrite Forall_forall in Hall. apply Hall, list_elem_of_In, filter_In. auto.
    - apply not_Forall_Exists in Hnall; [|intros c; apply _].
      apply Exists_exists in Hnall. destruct Hnall as (c & Hc & Hn).
      apply list_elem_of_In, filter_In in Hc. destruct Hc. eauto. }
  destruct Hex as (c & Hc & Hd & Hn).
  unfold PatchEngine.removeCells. apply (filter_length_lt _ _ _ c).
  - intros x. rewrite !negb_true_iff, !bool_decide_eq_false.
    intros Hx Hx'. apply Hx, cascadeStep_spec. left. exact Hx'.
  - exact Hc.
  - apply negb_true_iff, bool_decide_eq_false. exact Hn.
  - apply negb_false_iff, bool_decide_eq_true, cascadeStep_spec. right. eauto.
Qed.

Lemma cascadeLoop_closed (document : list PatchEngine.Cell) (rounds : nat)
    (ids : gset string) :
  (length (PatchEngine.removeCells ids document) <= rounds)%nat ->
  closedUnder document (PatchEngine.cascadeLoop rounds document ids).
Proof.
  revert ids. induction rounds as [|n IH]; intros ids Hlen; cbn.
  - intros c Hc _.
    destruct (bool_decide (PatchEngine.c_id c ∈ ids)) eqn:Hin;
      [apply bool_decide_eq_true in Hin; exact Hin|].
    assert (Hc' : In c (PatchEngine.removeCells ids document)).
    { apply filter_In. rewrite Hin. auto. }
    destruct (PatchEngine.removeCells ids document); [destruct Hc'|cbn in Hlen; lia].
  - destruct (bool_decide (PatchEngine.cascadeStep document ids ⊆ ids)) eqn:Hfix.
    + apply closedUnder_step. apply bool_decide_eq_true in Hfix. exact Hfix.
    + apply IH. apply bool_decide_eq_false in Hfix.
      pose proof (cascadeStep_progress document ids Hfix). lia.
Qed.

Lemma cascadeLoop_extends (document : list PatchEngine.Cell) (rounds : nat)
    (ids : gset string) :
  ids ⊆ PatchEngine.cascadeLoop rounds document ids.
Proof.
  revert ids. induction rounds as [|n IH]; intros ids; cbn; [done|].
  destruct (bool_decide _); [done|].
  etrans; [|apply IH]. intros x Hx. apply cascadeStep_spec. left. exact Hx.
Qed.

Lemma cascadeLoop_least (document : list PatchEngine.Cell) (rounds : nat)
    (ids bound : gset string) :
  ids ⊆ bound -> closedUnder document bound ->
  PatchEngine.cascadeLoop rounds document ids ⊆ bound.
Proof.
  revert ids. induction rounds as [|n IH]; intros ids Hsub Hcl; cbn; [exact Hsub|].
  destruct (bool_decide _); [exact Hsub|].
  apply IH; [|exact Hcl].
  intros x Hx. apply cascadeStep_spec in Hx.
  destruct Hx as [Hx|(c & Hc & Hd & <-)]; [apply Hsub, Hx|].
  apply Hcl; [exact Hc|]. eapply dependsOn_mono; eauto.
Qed.

Lemma removeCells_length (ids : gset string) (document : list PatchEngine.Cell) :
  (length (PatchEngine.removeCells ids document) <= length document)%nat.
Proof. apply filter_length_le. Qed.

(** C2. The delete set of [Delete(target)] is the least set of ids that
    contains the target and is closed under the two rules (a cell whose parent
    is in the set, an edge cell whose source or target is in the set); when the
    target exists the batch [Delete(target)] removes exactly the cells whose id
    is in that set and keeps the others.  On the document of section 8,
    [Delete(P)] removes P, C and E and leaves X. *)
Theorem cascade_is_least_fixed_point (parseCell : string -> option PatchEngine.Cell)
    (document : list PatchEngine.Cell) (target : string) :
  let removed := PatchEngine.cascade document target in
  let deleteTarget := {| operation := delete; cell_id := target; new_xml := None |} in
  target ∈ removed
  /\ closedUnder document removed
  /\ (forall ids, target ∈ ids -> closedUnder document ids -> removed ⊆ ids)
  /\ (PatchEngine.hasCell document target = true ->
      PatchEngine.apply parseCell document [deleteTarget]
      = (PatchEngine.removeCells removed document, [])
      /\ forall c, In c (PatchEngine.removeCells removed document)
                   <-> In c document /\ PatchEngine.c_id c ∉ removed)
  /\ PatchEngine.removedCells (PatchEngine.cascade cascadeDocument "P") cascadeDocument
     = [ vertexCell "P" "1"; vertexCell "C" "P"; edgeCell "E" "1" "C" "X" ]
  /\ PatchEngine.apply parseCell cascadeDocument
       [ {| operation := delete; cell_id := "P"; new_xml := None |} ]
     = ([ vertexCell "X" "1" ], []).
Proof.
  cbn zeta. unfold PatchEngine.cascade.
  split; [apply cascadeLoop_extends; set_solver|].
  split; [apply cascadeLoop_closed, removeCells_length|].
  split; [intros ids Ht Hcl; apply cascadeLoop_least; [set_solver|exact Hcl]|].
  split.
  { intros Hhas. split.
    - unfold PatchEngine.apply. cbn. rewrite Hhas. reflexivity.
    - intros c. unfold PatchEngine.removeCells. rewrite filter_In.
      rewrite negb_true_iff, bool_decide_eq_false. reflexivity. }
  split; [vm_compute; reflexivity|].
  unfold PatchEngine.apply. vm_compute. reflexivity.
Qed.

(** ** Batches of operations *)

Section Batches.
Variable parseCell : string -> option PatchEngine.Cell.

Lemma evalOperation_error_names_cell (snapshot working : list PatchEngine.Cell)
    (op : DiagramOperation) (e : OperationError) :
  PatchEngine.evalOperation parseCell snapshot working op = inl e ->
  cellId e = cell_id op.
Proof.
  unfold PatchEngine.evalOperation.
  destruct (operation op); destruct (PatchEngine.hasCell working (cell_id op));
    try destruct (new_xml op ≫= parseCell); intros [= <-]; reflexivity.
Qed.

(** The diagnostics of a batch are those of its failing operations, one each,
    in order. *)
Lemma evalOperations_errors (snapshot working : list PatchEngine.Cell)
    (ops : list DiagramOperation) :
  map cellId (snd (PatchEngine.evalOperations parseCell snapshot working ops))
  = map cell_id (PatchEngine.failingOperations parseCell snapshot working ops).
Proof.
  revert working. induction ops as [|op ops IH]; intros working; [reflexivity|].
  cbn [PatchEngine.evalOperations PatchEngine.failingOperations].
  destruct (PatchEngine.evalOperation parseCell snapshot working op) as [e|working'] eqn:He.
  - specialize (IH working).
    destruct (PatchEngine.evalOperations parseCell snapshot working ops) as [final errs].
    cbn [snd map] in *. rewrite IH.
    rewrite (evalOperation_error_names_cell _ _ _ _ He). reflexivity.
  - apply IH.
Qed.

Lemma apply_rejects (document : list PatchEngine.Cell) (ops : list DiagramOperation) :
  snd (PatchEngine.evalOperations parseCell document document ops) <> [] ->
  PatchEngine.apply parseCell document ops
  = (document, snd (PatchEngine.evalOperations parseCell document document ops)).
Proof.
  unfold PatchEngine.apply.
  destruct (PatchEngine.evalOperations parseCell document document ops) as [final [|e errs]];
    cbn; [congruence|reflexivity].
Qed.

End Batches.

Lemma applyDiagramOperations_spec
    (parseDocument : string -> list PatchEngine.Cell)
    (parseCell : string -> option PatchEngine.Cell)
    (serializeDocument : list PatchEngine.Cell -> string)
    (currentXml : string) (ops : list DiagramOperation) :
  let r := PatchEngine.applyDiagramOperations parseDocument parseCell serializeDocument
             currentXml ops in
  errors r = snd (PatchEngine.evalOperations parseCell (parseDocument currentXml)
                    (parseDocument currentXml) ops)
  /\ (errors r <> [] -> result r = currentXml).
Proof.
  cbn zeta. unfold PatchEngine.applyDiagramOperations.
  destruct (PatchEngine.evalOperations parseCell _ _ ops) as [final [|e errs]];
    cbn; split; congruence.
Qed.

(** ** edit_diagram on a batch with a failing operation *)

Lemma currentXmlFor_world {World : Type} (env : Env World) (callId : string)
    (s : Sys World) :
  is_Some (truthy (editDiagramOriginalXmlRef s !! callId))
  \/ chartXMLRef env (world s) <> "" ->
  snd (currentXmlFor env callId s) = world s.
Proof.
  unfold currentXmlFor. intros [[x Hx]|Hc].
  - rewrite Hx. reflexivity.
  - destruct (truthy (editDiagramOriginalXmlRef s !! callId)); [reflexivity|].
    destruct (chartXMLRef env (world s)) eqn:Hchart; [congruence|reflexivity].
Qed.

Lemma edit_rejected {World : Type} (lib : LibUtils) (env : Env World)
    (callId : string) (operations : list DiagramOperation) (s : Sys World)
    (currentXml : string) (w : World) :
  currentXmlFor env callId s = (inr currentXml, w) ->
  errors (applyDiagramOperations lib currentXml operations) <> [] ->
  handleEditDiagram lib env callId operations s =
  {| partialXmlRef := partialXmlRef s;
     editDiagramOriginalXmlRef := base.delete callId (editDiagramOriginalXmlRef s);
     world := w;
     toolOutputs :=
       toolOutputs s ++
       [OutputError "edit_diagram" callId
          (operationsFailedText (errors (applyDiagramOperations lib currentXml operations))
             currentXml)] |}.
Proof.
  intros Hcur Herr. unfold handleEditDiagram. rewrite Hcur. cbn.
  destruct (errors (applyDiagramOperations lib currentXml operations)) as [|e errs];
    [congruence|reflexivity].
Qed.

(** C1. When an operation of the batch fails, the batch is rejected as a
    whole.  Whatever [applyDiagramOperations] is, when it reports a diagnostic
    [handleEditDiagram] hands nothing to the chart and exports nothing (the
    world is the one in which the current text was obtained, which is the world
    before the call whenever the original text was captured or the chart ref
    is not empty), keeps the pending buffer, and answers with one error that
    lists every diagnostic, one line each, and echoes the current text.
    [applyDiagramOperations] as the spec describes it reports a diagnostic
    exactly when an operation fails, one per failing operation, each naming
    the cell of its operation, in order, and then returns the text it was
    given.  In particular a batch of an Add that succeeds and an Update of an
    id that no cell has returns the text unchanged and exactly one UnknownCell
    diagnostic. *)
Theorem failed_batch_is_rejected {World : Type} (env : Env World) (lib : LibUtils)
    (callId : string) (operations : list DiagramOperation) (s : Sys World)
    (currentXml : string) (w : World) :
  currentXmlFor env callId s = (inr currentXml, w) ->
  errors (applyDiagramOperations lib currentXml operations) <> [] ->
  let s' := handleEditDiagram lib env callId operations s in
  world s' = w
  /\ (is_Some (truthy (editDiagramOriginalXmlRef s !! callId))
      \/ chartXMLRef env (world s) <> "" -> w = world s)
  /\ partialXmlRef s' = partialXmlRef s
  /\ toolOutputs s' =
       toolOutputs s ++
       [OutputError "edit_diagram" callId
          (operationsFailedText (errors (applyDiagramOperations lib currentXml operations))
             currentXml)]
  /\ (forall parseDocument parseCell serializeDocument xml ops,
        let document := parseDocument xml in
        let failing := PatchEngine.failingOperations parseCell document document ops in
        let r := PatchEngine.applyDiagramOperations parseDocument parseCell
                   serializeDocument xml ops in
        map cellId (errors r) = map cell_id failing
        /\ (failing <> [] ->
            result r = xml
            /\ PatchEngine.apply parseCell document ops = (document, errors r)))
  /\ (forall parseDocument parseCell serializeDocument xml i j payload payload' c,
        parseCell payload = Some c ->
        PatchEngine.hasCell (parseDocument xml) i = false ->
        PatchEngine.hasCell (parseDocument xml ++ [c]) j = false ->
        let batch := [ {| operation := add; cell_id := i; new_xml := Some payload |};
                       {| operation := update; cell_id := j; new_xml := payload' |} ] in
        let r := PatchEngine.applyDiagramOperations parseDocument parseCell
                   serializeDocument xml batch in
        result r = xml /\ errors r = [PatchEngine.UnknownCell j]).
Proof.
  intros Hcur Hne s'.
  assert (Hs' : s' = _) by (exact (edit_rejected lib env callId operations s currentXml w Hcur Hne)).
  split; [rewrite Hs'; reflexivity|]. split.
  { intros H. rewrite <- (currentXmlFor_world env callId s H), Hcur. reflexivity. }
  split; [rewrite Hs'; reflexivity|]. split; [rewrite Hs'; reflexivity|]. split.
  - intros parseDocument parseCell serializeDocument xml ops document failing r.
    destruct (applyDiagramOperations_spec parseDocument parseCell serializeDocument
                xml ops) as [Herrs Hres].
    fold document in Herrs. fold r in Herrs, Hres.
    split; [rewrite Herrs; apply evalOperations_errors|].
    intros Hfail.
    assert (Hr : errors r <> []).
    { intros Hnil. apply Hfail. unfold failing.
      pose proof (evalOperations_errors parseCell document document ops) as Hmap.
      rewrite <- Herrs, Hnil in Hmap. cbn in Hmap. symmetry in Hmap.
      apply map_eq_nil in Hmap. exact Hmap. }
    split; [exact (Hres Hr)|].
    rewrite Herrs. apply apply_rejects. rewrite <- Herrs. exact Hr.
  - intros parseDocument parseCell serializeDocument xml i j payload payload' c
           Hparse Hi Hj. cbn zeta.
    unfold PatchEngine.applyDiagramOperations.
    cbn [PatchEngine.evalOperations PatchEngine.evalOperation operation cell_id new_xml].
    rewrite Hi. cbn [mbind option_bind]. rewrite Hparse, Hj. cbn. split; reflexivity.
Qed.

(** ** Replacing a reference *)

Lemma prefix_drop (needle hay : string) :
  String.prefix needle hay = true ->
  hay = needle +:+ Js.drop (String.length needle) hay.
Proof.
  revert hay. induction needle as [|c needle IH]; intros hay H; [reflexivity|].
  destruct hay as [|d hay]; [discriminate|]. cbn in H.
  destruct (ascii_dec c d) as [->|]; [|discriminate].
  cbn. rewrite append_cons. f_equal. apply IH, H.
Qed.

(** [splitFirst] splits the text around an occurrence of the needle. *)
Lemma splitFirst_spec (needle hay before after : string) :
  Js.splitFirst needle hay = Some (before, after) ->
  hay = before +:+ needle +:+ after.
Proof.
  revert before. induction hay as [|c hay IH]; intros before.
  - cbn. destruct needle; [|discriminate]. intros [= <- <-]. reflexivity.
  - cbn [Js.splitFirst]. destruct (String.prefix needle (String c hay)) eqn:Hp.
    + intros [= <- <-]. rewrite append_nil_l. apply prefix_drop, Hp.
    + destruct (Js.splitFirst needle hay) as [[b a]|]; [|discriminate].
      intros [= <- <-]. rewrite append_cons. f_equal. apply IH. reflexivity.
Qed.

(** A replacement text without a dollar sign stands for itself. *)
Lemma getSubstitution_plain (matched before after replacement : string) :
  Js.occurs "$" replacement = false ->
  Js.getSubstitution matched before after replacement = replacement.
Proof.
  induction replacement as [|c r IH]; [reflexivity|].
  cbn [Js.occurs Js.getSubstitution]. rewrite orb_false_iff. intros [Hc Hr].
  rewrite Ascii.eqb_sym, Hc. f_equal. apply IH, Hr.
Qed.

Lemma replaceSemicolons_escaped (payload : string) :
  Js.occurs ";" (Js.replaceSemicolons payload) = false.
Proof.
  induction payload as [|c r IH]; [reflexivity|]. cbn [Js.replaceSemicolons].
  destruct (Ascii.eqb c ";") eqn:Hc.
  - rewrite occurs_append, IH. reflexivity.
  - cbn [Js.occurs]. rewrite Ascii.eqb_sym, Hc, IH. reflexivity.
Qed.

Lemma replaceSemicolons_dollar (payload : string) :
  Js.occurs "$" (Js.replaceSemicolons payload) = Js.occurs "$" payload.
Proof.
  induction payload as [|c r IH]; [reflexivity|]. cbn [Js.replaceSemicolons].
  destruct (Ascii.eqb_spec c ";") as [->|Hc].
  - rewrite occurs_append, IH. reflexivity.
  - cbn [Js.occurs]. rewrite IH. reflexivity.
Qed.

(** A payload without semicolons is substituted as it is. *)
Lemma replaceSemicolons_plain (payload : string) :
  Js.occurs ";" payload = false -> Js.replaceSemicolons payload = payload.
Proof.
  induction payload as [|c r IH]; [reflexivity|].
  cbn [Js.occurs Js.replaceSemicolons]. rewrite orb_false_iff. intros [Hc Hr].
  rewrite Ascii.eqb_sym, Hc, (IH Hr). reflexivity.
Qed.

(** ** Resolution with unresolved references *)

Lemma replaceForKey_skips (cacheKey : string) (regions : gmap string string)
    (matches : list CacheMatch) (xml : string) :
  (forall m, In m matches -> key m = cacheKey ->
             getProperty regions (regionName m) = JsUndefined) ->
  replaceForKey cacheKey regions matches xml = xml.
Proof.
  induction matches as [|m rest IH]; intros Hskip; [reflexivity|].
  cbn [replaceForKey]. destruct (String.eqb_spec (key m) cacheKey) as [Hk|Hk].
  - rewrite (Hskip m (or_introl eq_refl) Hk). apply IH.
    intros m' Hin. apply Hskip. right. exact Hin.
  - apply IH. intros m' Hin. apply Hskip. right. exact Hin.
Qed.

Lemma resolveKeys_unserved {World : Type} (env : Env World)
    (matches : list CacheMatch) (keys : list string) (xml : string) (w : World) :
  (forall k w', In k keys -> served (fst (fetchCachedRegions env k w')) = None) ->
  fst (resolveKeys env matches keys xml w) = xml.
Proof.
  revert w. induction keys as [|k keys IH]; intros w Hun; [reflexivity|].
  cbn [resolveKeys]. specialize (Hun k w (or_introl eq_refl)) as Hk.
  destruct (fetchCachedRegions env k w) as [outcome w']. cbn [fst] in Hk.
  assert (Hxml : match outcome with
                 | FetchResponse true (Some regions) =>
                     replaceForKey k regions matches xml
                 | _ => xml
                 end = xml).
  { destruct outcome as [|[] [regions|]]; try reflexivity. discriminate Hk. }
  rewrite Hxml. apply IH. intros k' w'' Hin. apply Hun. right. exact Hin.
Qed.

Lemma display_answers_once {World : Type} (lib : LibUtils) (env : Env World)
    (callId xml : string) (s : Sys World) :
  let resolved := fst (resolveCacheReferences env xml (world s)) in
  exists o,
    toolOutputs (handleDisplayDiagram lib env callId xml s) = toolOutputs s ++ [o]
    /\ (o = OutputError "display_diagram" callId
              (truncatedText (Js.sliceLast 500 resolved))
        \/ (exists err, o = OutputError "display_diagram" callId
                              (displayInvalidText err resolved))
        \/ o = OutputAvailable "display_diagram" callId
                 "Successfully displayed the diagram.").
Proof.
  cbn zeta. unfold handleDisplayDiagram.
  destruct (resolveCacheReferences env xml (world s)) as [resolved w]. cbn [fst].
  destruct (isMxCellXmlComplete lib resolved); cbn.
  - destruct (onDisplayChart env _ w) as [v w']. cbn.
    destruct (truthy v) as [err|]; cbn; eexists; split; try reflexivity; eauto.
  - eexists; split; [reflexivity|]. auto.
Qed.

(** ** The region cache *)

Lemma POST_frame (req : RegionCache.RequestBody) (srv : RegionCache.Server) :
  snd (RegionCache.POST req srv) = srv.
Proof.
  unfold RegionCache.POST. destruct req as [| |cacheKey]; [reflexivity|reflexivity|].
  destruct (truthy cacheKey); [|reflexivity].
  destruct (RegionCache.extractedRegionsCache srv) as [cache|]; [|reflexivity].
  destruct (cache !! s); reflexivity.
Qed.

Lemma reads_frame (reqs : list RegionCache.RequestBody) (srv : RegionCache.Server) :
  RegionCache.run (map RegionCache.Get reqs) srv = srv.
Proof.
  induction reqs as [|req reqs IH]; [reflexivity|].
  cbn [map RegionCache.run fold_left RegionCache.step]. rewrite POST_frame. exact IH.
Qed.

Lemma entry_fire_other (cache : option (gmap string (gmap string string)))
    (tm : RegionCache.Timer) (k : string) :
  RegionCache.expires tm <> k ->
  RegionCache.fire cache tm ≫= (fun c => c !! k) = cache ≫= (fun c => c !! k).
Proof.
  intros Hne. destruct cache as [c|]; [|reflexivity]. cbn.
  apply lookup_delete_ne. exact Hne.
Qed.

(** Timers that run take away only the entries they were set for. *)
Lemma entry_fired (l : list RegionCache.Timer)
    (cache : option (gmap string (gmap string string))) (k : string) :
  is_Some (cache ≫= (fun c => c !! k)) ->
  fold_left RegionCache.fire l cache ≫= (fun c => c !! k) = None ->
  exists tm, In tm l /\ RegionCache.expires tm = k.
Proof.
  revert cache. induction l as [|tm l IH]; intros cache Hsome Hnone.
  - cbn in Hnone. rewrite Hnone in Hsome. destruct Hsome as [? [=]].
  - destruct (decide (RegionCache.expires tm = k)) as [Hk|Hk].
    + exists tm. split; [left; reflexivity|exact Hk].
    + cbn [fold_left] in Hnone.
      destruct (IH (RegionCache.fire cache tm)) as (tm' & Hin & Hk').
      * rewrite (entry_fire_other _ _ _ Hk). exact Hsome.
      * exact Hnone.
      * exists tm'. split; [right; exact Hin|exact Hk'].
Qed.

Lemma entry_stays_gone (l : list RegionCache.Timer)
    (cache : option (gmap string (gmap string string))) (k : string) :
  cache ≫= (fun c => c !! k) = None ->
  fold_left RegionCache.fire l cache ≫= (fun c => c !! k) = None.
Proof.
  revert cache. induction l as [|tm l IH]; intros cache Hnone; [exact Hnone|].
  cbn [fold_left]. apply IH. destruct cache as [c|]; [|reflexivity]. cbn in *.
  destruct (decide (RegionCache.expires tm = k)) as [->|Hk].
  - apply lookup_delete_eq.
  - rewrite lookup_delete_ne; [exact Hnone|exact Hk].
Qed.

Lemma entry_expires (l : list RegionCache.Timer)
    (cache : option (gmap string (gmap string string))) (tm : RegionCache.Timer) :
  In tm l ->
  fold_left RegionCache.fire l cache ≫= (fun c => c !! RegionCache.expires tm) = None.
Proof.
  revert cache. induction l as [|tm' l IH]; intros cache Hin; [destruct Hin|].
  cbn [fold_left]. destruct Hin as [->|Hin]; [|apply IH, Hin].
  apply entry_stays_gone. destruct cache as [c|]; [|reflexivity]. cbn.
  apply lookup_delete_eq.
Qed.

Lemma entry_stored (random : string) (regions : list RegionCache.ExtractedRegion)
    (srv : RegionCache.Server) (k : string) :
  RegionCache.entry (snd (RegionCache.storeExtractedRegions random regions srv)) k
  = if decide (fst (RegionCache.storeExtractedRegions random regions srv) = k)
    then Some (RegionCache.regionMappingOf regions)
    else RegionCache.entry srv k.
Proof.
  unfold RegionCache.entry, RegionCache.storeExtractedRegions. cbn.
  destruct (decide _) as [->|Hne].
  - apply lookup_insert_eq.
  - rewrite lookup_insert_ne; [|exact Hne].
    destruct (RegionCache.extractedRegionsCache srv); reflexivity.
Qed.

(** C9. Reading a key never removes or changes anything: [POST] of
    get-cached-regions returns the server as it found it, so after any number
    of reads a read answers as it would have before them.  An entry goes away
    only when a timer set for its key runs, which happens only once the clock
    has reached the time the timer is due; timers are set only when regions
    are stored, one per stored key, due 600000 milliseconds (10 minutes) after
    the moment of storing; and once the clock has reached that time the entry
    is gone. *)
Theorem cache_entries_expire_only_by_ttl (srv : RegionCache.Server) :
  (forall req, snd (RegionCache.POST req srv) = srv)
  /\ (forall reqs req,
        RegionCache.POST req (RegionCache.run (map RegionCache.Get reqs) srv)
        = RegionCache.POST req srv)
  /\ (forall e k,
        is_Some (RegionCache.entry srv k) ->
        RegionCache.entry (RegionCache.step e srv) k = None ->
        exists t tm, e = RegionCache.Advance t
                     /\ In tm (RegionCache.timers srv)
                     /\ RegionCache.expires tm = k
                     /\ (RegionCache.due tm <= t)%Z)
  /\ (forall e tm,
        In tm (RegionCache.timers (RegionCache.step e srv)) ->
        In tm (RegionCache.timers srv)
        \/ exists random regions,
             e = RegionCache.Extract random regions
             /\ tm = {| RegionCache.due := (RegionCache.now srv + 600000)%Z;
                        RegionCache.expires :=
                          fst (RegionCache.storeExtractedRegions random regions srv) |})
  /\ (forall random regions,
        let stored := RegionCache.storeExtractedRegions random regions srv in
        RegionCache.entry (snd stored) (fst stored)
        = Some (RegionCache.regionMappingOf regions)
        /\ forall t, (RegionCache.now srv + 600000 <= t)%Z ->
             RegionCache.entry (RegionCache.advance t (snd stored)) (fst stored) = None).
Proof.
  split; [intros req; apply POST_frame|].
  split; [intros reqs req; rewrite reads_frame; reflexivity|].
  split; [|split].
  - intros e k Hsome Hnone. destruct e as [random regions|req|t]; cbn [RegionCache.step] in Hnone.
    + rewrite entry_stored in Hnone. destruct (decide _); [discriminate|].
      rewrite Hnone in Hsome. destruct Hsome as [? [=]].
    + rewrite POST_frame in Hnone. rewrite Hnone in Hsome. destruct Hsome as [? [=]].
    + unfold RegionCache.advance in Hnone. destruct (t <? RegionCache.now srv)%Z.
      { rewrite Hnone in Hsome. destruct Hsome as [? [=]]. }
      unfold RegionCache.entry in Hnone, Hsome. cbn in Hnone.
      destruct (entry_fired _ _ _ Hsome Hnone) as (tm & Hin & Hk).
      apply filter_In in Hin. destruct Hin as [Hin Hdue].
      exists t, tm. repeat split; try assumption.
      unfold RegionCache.isDue in Hdue. lia.
  - intros e tm Hin. destruct e as [random regions|req|t]; cbn [RegionCache.step] in Hin.
    + cbn in Hin. apply in_app_iff in Hin. destruct Hin as [Hin|[<-|[]]]; [left; exact Hin|].
      right. exists random, regions. split; reflexivity.
    + rewrite POST_frame in Hin. left. exact Hin.
    + left. unfold RegionCache.advance in Hin.
      destruct (t <? RegionCache.now srv)%Z; [exact Hin|].
      cbn in Hin. apply filter_In in Hin. apply Hin.
  - intros random regions. cbn zeta. split.
    + rewrite entry_stored. destruct (decide _); [reflexivity|congruence].
    + intros t Ht. unfold RegionCache.advance.
      assert (Hnow : RegionCache.now (snd (RegionCache.storeExtractedRegions random regions srv))
                     = RegionCache.now srv) by reflexivity.
      rewrite Hnow. destruct (t <? RegionCache.now srv)%Z eqn:Hlt; [lia|].
      unfold RegionCache.entry. cbn [RegionCache.extractedRegionsCache].
      apply (entry_expires _ _
               {| RegionCache.due := (RegionCache.now srv + RegionCache.ttl)%Z;
                  RegionCache.expires :=
                    fst (RegionCache.storeExtractedRegions random regions srv) |}).
      apply filter_In. split.
      * cbn. apply in_app_iff. right. left. reflexivity.
      * unfold RegionCache.isDue. cbn. apply Z.leb_le. unfold RegionCache.ttl. lia.
Qed.

(** An Add that succeeds and an Update of an id no cell has, on a page whose
    chart shows a document. *)
Lemma failed_batch_is_rejected_witness :
  let env := pageEnv (fun _ => None) in
  let page := {| server := RegionCache.boot 0; displayed := ["<doc/>"] |} in
  let batch := [ {| operation := add; cell_id := "N";
                    new_xml := Some ("<mxCell" +:+ attribute "id" "N" +:+ "/>") |};
                 {| operation := update; cell_id := "Z";
                    new_xml := Some ("<mxCell" +:+ attribute "id" "Z" +:+ "/>") |} ] in
  let r := applyDiagramOperations exampleUtils "<doc/>" batch in
  let s' := handleEditDiagram exampleUtils env "call-1" batch (initial page) in
  result r = "<doc/>"
  /\ errors r = [PatchEngine.UnknownCell "Z"]
  /\ world s' = page
  /\ partialXmlRef s' = ""
  /\ toolOutputs s' =
       [OutputError "edit_diagram" "call-1"
          (operationsFailedText [PatchEngine.UnknownCell "Z"] "<doc/>")].
Proof.
  cbn zeta.
  destruct (failed_batch_is_rejected (pageEnv (fun _ => None)) exampleUtils
              "call-1"
              [ {| operation := add; cell_id := "N";
                   new_xml := Some ("<mxCell" +:+ attribute "id" "N" +:+ "/>") |};
                {| operation := update; cell_id := "Z";
                   new_xml := Some ("<mxCell" +:+ attribute "id" "Z" +:+ "/>") |} ]
              (initial {| server := RegionCache.boot 0; displayed := ["<doc/>"] |})
              "<doc/>"
              {| server := RegionCache.boot 0; displayed := ["<doc/>"] |}
              eq_refl
              ltac:(vm_compute; discriminate))
    as (Hworld & _ & Hpartial & Houtputs & _ & Hexample).
  destruct (Hexample (fun _ => cascadeDocument) exampleParseCell (fun _ => "edited")
              "<doc/>" "N" "Z" ("<mxCell" +:+ attribute "id" "N" +:+ "/>")
              (Some ("<mxCell" +:+ attribute "id" "Z" +:+ "/>"))
              (vertexCell "N" "1") eq_refl eq_refl eq_refl) as [Hresult Herrors].
  split; [exact Hresult|]. split; [exact Herrors|].
  split; [exact Hworld|]. split; [exact Hpartial|].
  exact Houtputs.
Defined.

(** ** Every diagram tool call is answered once *)

Section Answers.
Context {World : Type}.
Variable lib : LibUtils.
Variable env : Env World.

Lemma display_answer (callId xml : string) (s : Sys World) :
  exists o, toolOutputs (handleDisplayDiagram lib env callId xml s) = toolOutputs s ++ [o]
            /\ answered o = ("display_diagram", callId).
Proof.
  unfold handleDisplayDiagram.
  destruct (resolveCacheReferences env xml (world s)) as [resolved w].
  destruct (isMxCellXmlComplete lib resolved); cbn.
  - destruct (onDisplayChart env _ w) as [v w']. cbn.
    destruct (truthy v); cbn; eexists; split; reflexivity.
  - eexists; split; reflexivity.
Qed.

Lemma edit_answer (callId : string) (operations : list DiagramOperation) (s : Sys World) :
  exists o, toolOutputs (handleEditDiagram lib env callId operations s) = toolOutputs s ++ [o]
            /\ answered o = ("edit_diagram", callId).
Proof.
  unfold handleEditDiagram.
  destruct (currentXmlFor env callId s) as [[msg|currentXml] w];
    [eexists; split; reflexivity|].
  cbn. destruct (errors (applyDiagramOperations lib currentXml operations));
    [|eexists; split; reflexivity].
  cbn. destruct (onDisplayChart env _ _) as [v w']. cbn.
  destruct (truthy v); eexists; split; reflexivity.
Qed.

Lemma append_answer (callId xml : string) (s : Sys World) :
  exists o, toolOutputs (handleAppendDiagram lib env callId xml s) = toolOutputs s ++ [o]
            /\ answered o = ("append_diagram", callId).
Proof.
  unfold handleAppendDiagram.
  destruct (isFreshStart xml); [eexists; split; reflexivity|].
  cbn. destruct (isMxCellXmlComplete lib _); [|eexists; split; reflexivity].
  cbn. destruct (onDisplayChart env _ _) as [v w']. cbn.
  destruct (truthy v); eexists; split; reflexivity.
Qed.

Lemma toolCall_answer (toolCall : ToolCall) (s : Sys World) :
  map answered (toolOutputs (handleToolCall lib env toolCall s))
  = map answered (toolOutputs s)
    ++ (if isDiagramTool toolCall then [(toolName toolCall, toolCallId toolCall)] else []).
Proof.
  unfold handleToolCall, isDiagramTool, toolName.
  destruct (input toolCall) as [xml|ops|xml|n].
  - destruct (display_answer (toolCallId toolCall) xml s) as (o & -> & Ho).
    rewrite map_app. cbn. rewrite Ho. reflexivity.
  - destruct (edit_answer (toolCallId toolCall) ops s) as (o & -> & Ho).
    rewrite map_app. cbn. rewrite Ho. reflexivity.
  - destruct (append_answer (toolCallId toolCall) xml s) as (o & -> & Ho).
    rewrite map_app. cbn. rewrite Ho. reflexivity.
  - rewrite app_nil_r. reflexivity.
Qed.

End Answers.

(** X1. Whatever the detector, the chart and the server do, every
    display_diagram, edit_diagram and append_diagram call is answered by
    exactly one call to [addToolOutput], which carries the name of the tool
    and the id of the call; the answers come in the order of the calls, and a
    call of any other tool is not answered. *)
Theorem every_call_answered_once {World : Type} (lib : LibUtils) (env : Env World)
    (toolCalls : list ToolCall) (s : Sys World) :
  map answered (toolOutputs (handleToolCalls lib env toolCalls s))
  = map answered (toolOutputs s)
    ++ map (fun toolCall => (toolName toolCall, toolCallId toolCall))
         (List.filter isDiagramTool toolCalls).
Proof.
  revert s. induction toolCalls as [|toolCall rest IH]; intros s.
  - cbn. rewrite app_nil_r. reflexivity.
  - rewrite handleToolCalls_cons, IH, toolCall_answer. cbn [List.filter].
    destruct (isDiagramTool toolCall); cbn [map]; rewrite <- app_assoc; reflexivity.
Qed.

(** ** The ref of original texts *)

Lemma edit_deletes_original {World : Type} (lib : LibUtils) (env : Env World)
    (callId : string) (operations : list DiagramOperation) (s : Sys World) :
  editDiagramOriginalXmlRef (handleEditDiagram lib env callId operations s)
  = base.delete callId (editDiagramOriginalXmlRef s).
Proof.
  unfold handleEditDiagram.
  destruct (currentXmlFor env callId s) as [[msg|currentXml] w]; [reflexivity|].
  cbn. destruct (errors (applyDiagramOperations lib currentXml operations));
    [|reflexivity].
  cbn. destruct (onDisplayChart env _ _) as [v w']. cbn.
  destruct (truthy v); reflexivity.
Qed.

Lemma display_keeps_original {World : Type} (lib : LibUtils) (env : Env World)
    (callId xml : string) (s : Sys World) :
  editDiagramOriginalXmlRef (handleDisplayDiagram lib env callId xml s)
  = editDiagramOriginalXmlRef s.
Proof.
  unfold handleDisplayDiagram.
  destruct (resolveCacheReferences env xml (world s)) as [resolved w].
  destruct (isMxCellXmlComplete lib resolved); cbn; [|reflexivity].
  destruct (onDisplayChart env _ w) as [v w']. cbn.
  destruct (truthy v); reflexivity.
Qed.

Lemma append_keeps_original {World : Type} (lib : LibUtils) (env : Env World)
    (callId xml : string) (s : Sys World) :
  editDiagramOriginalXmlRef (handleAppendDiagram lib env callId xml s)
  = editDiagramOriginalXmlRef s.
Proof.
  unfold handleAppendDiagram.
  destruct (isFreshStart xml); [reflexivity|].
  cbn. destruct (isMxCellXmlComplete lib _); [|reflexivity].
  cbn. destruct (onDisplayChart env _ _) as [v w']. cbn.
  destruct (truthy v); reflexivity.
Qed.

(** X2. [handleEditDiagram] removes the entry of its call id from
    [editDiagramOriginalXmlRef] on every path (diagnostics, refused by the
    chart, applied, [onFetchChart] rejected) and touches no other entry; the
    other handlers never touch the ref.  So after any sequence of tool calls
    the ref is the old one without the ids of the edit_diagram calls: an edit
    call never finds the text captured for an earlier call with its id, and an
    entry captured for another call stays until that call is handled. *)
Theorem original_texts_are_cleaned_up {World : Type} (lib : LibUtils) (env : Env World)
    (toolCalls : list ToolCall) (s : Sys World) :
  editDiagramOriginalXmlRef (handleToolCalls lib env toolCalls s)
  = fold_left (fun m toolCall => originalXmlAfter toolCall m) toolCalls
      (editDiagramOriginalXmlRef s)
  /\ (forall toolCall, In toolCall toolCalls ->
        (exists operations, input toolCall = edit_diagram operations) ->
        editDiagramOriginalXmlRef (handleToolCalls lib env toolCalls s)
          !! toolCallId toolCall = None)
  /\ (forall callId,
        (forall toolCall operations, In toolCall toolCalls ->
           input toolCall = edit_diagram operations -> toolCallId toolCall <> callId) ->
        editDiagramOriginalXmlRef (handleToolCalls lib env toolCalls s) !! callId
        = editDiagramOriginalXmlRef s !! callId).
Proof.
  assert (Hrun : forall (calls : list ToolCall) (s0 : Sys World),
             editDiagramOriginalXmlRef (handleToolCalls lib env calls s0)
             = fold_left (fun m toolCall => originalXmlAfter toolCall m) calls
                 (editDiagramOriginalXmlRef s0)).
  { induction calls as [|toolCall rest IH]; intros s0; [reflexivity|].
    rewrite handleToolCalls_cons, IH. cbn [fold_left]. f_equal.
    unfold handleToolCall, originalXmlAfter.
    destruct (input toolCall) as [xml|ops|xml|n].
    - apply display_keeps_original.
    - apply edit_deletes_original.
    - apply append_keeps_original.
    - reflexivity. }
  split; [apply Hrun|]. rewrite Hrun. clear Hrun.
  generalize (editDiagramOriginalXmlRef s). intros m0. split.
  - revert m0. induction toolCalls as [|c rest IH]; intros m toolCall Hin Hedit;
      [destruct Hin|].
    cbn [fold_left]. destruct Hin as [->|Hin]; [|apply IH; assumption].
    destruct Hedit as [ops Hops]. unfold originalXmlAfter at 2. rewrite Hops.
    clear IH Hops. generalize (lookup_delete_eq m (toolCallId toolCall)).
    generalize (base.delete (toolCallId toolCall) m). clear m.
    induction rest as [|c rest IH]; intros m' Hnone; [exact Hnone|].
    cbn [fold_left]. apply IH. unfold originalXmlAfter.
    destruct (input c); try exact Hnone.
    destruct (decide (toolCallId c = toolCallId toolCall)) as [->|Hne].
    + apply lookup_delete_eq.
    + rewrite lookup_delete_ne; [exact Hnone|exact Hne].
  - revert m0. induction toolCalls as [|c rest IH]; intros m callId Hother;
      [reflexivity|].
    cbn [fold_left]. rewrite IH.
    + unfold originalXmlAfter. destruct (input c) eqn:Hc; try reflexivity.
      apply lookup_delete_ne. eapply Hother; [left; reflexivity|exact Hc].
    + intros toolCall ops Hin. apply Hother. right. exact Hin.
Qed.

(** ** edit_diagram: the outcomes *)


(** X4. [onFetchChart] is asked for the text only when no non-empty original
    was captured for the call and the chart ref is empty; when it then
    rejects, [handleEditDiagram] shows nothing and exports nothing, answers
    with the edit-failed error that carries the rejection's message and says
    that no XML is available, and still removes the entry of the call. *)
Theorem edit_fails_without_text {World : Type} (lib : LibUtils) (env : Env World)
    (callId : string) (operations : list DiagramOperation) (s : Sys World)
    (errorMessage : string) (w : World) :
  currentXmlFor env callId s = (inl errorMessage, w) ->
  truthy (editDiagramOriginalXmlRef s !! callId) = None
  /\ chartXMLRef env (world s) = ""
  /\ onFetchChart env false (world s) = (inl errorMessage, w)
  /\ handleEditDiagram lib env callId operations s =
     {| partialXmlRef := partialXmlRef s;
        editDiagramOriginalXmlRef := base.delete callId (editDiagramOriginalXmlRef s);
        world := w;
        toolOutputs :=
          toolOutputs s ++
          [OutputError "edit_diagram" callId
             ("Edit failed: " +:+ errorMessage +:+ "

Current diagram XML:
```xml
No XML available
```

Please check cell IDs and retry, or use display_diagram to regenerate.")] |}.
Proof.
  intros Hcur. pose proof Hcur as Hcur'. unfold currentXmlFor in Hcur.
  destruct (truthy (editDiagramOriginalXmlRef s !! callId)); [discriminate|].
  destruct (chartXMLRef env (world s)) eqn:Hchart; cbn in Hcur; [|discriminate].
  repeat split; try assumption.
  unfold handleEditDiagram. rewrite Hcur'. reflexivity.
Qed.


Lemma edit_fails_without_text_witness :
  truthy (editDiagramOriginalXmlRef (initial blankPage) !! "call-1") = None
  /\ chartXMLRef (unreadableEnv "frame not ready") (world (initial blankPage)) = ""
  /\ toolOutputs (handleEditDiagram exampleUtils (unreadableEnv "frame not ready")
                    "call-1" [] (initial blankPage))
     = [OutputError "edit_diagram" "call-1" (editFailedText "frame not ready" "")]
  /\ world (handleEditDiagram exampleUtils (unreadableEnv "frame not ready")
              "call-1" [] (initial blankPage)) = blankPage.
Proof.
  destruct (edit_fails_without_text exampleUtils (unreadableEnv "frame not ready")
              "call-1" [] (initial blankPage) "frame not ready" blankPage eq_refl)
    as (H1 & H2 & _ & H4).
  split; [exact H1|]. split; [exact H2|]. rewrite H4. split; reflexivity.
Defined.

(** ** What the answers quote *)

Lemma length_append (a b : string) :
  String.length (a +:+ b) = (String.length a + String.length b)%nat.
Proof.
  induction a as [|c a IH]; [reflexivity|].
  rewrite append_cons. cbn [String.length]. rewrite IH. reflexivity.
Qed.

Lemma drop_split (n : nat) (s : string) :
  exists pre, s = pre +:+ Js.drop n s
              /\ String.length pre = Nat.min n (String.length s).
Proof.
  revert s. induction n as [|n IH]; intros s.
  - exists "". split; reflexivity.
  - destruct s as [|c s]; [exists ""; split; reflexivity|].
    destruct (IH s) as (pre & Hs & Hlen). exists (String c pre). split.
    + cbn [Js.drop]. rewrite append_cons. f_equal. exact Hs.
    + cbn [String.length]. rewrite Hlen. reflexivity.
Qed.

Lemma take_split (n : nat) (s : string) :
  exists post, s = Js.take n s +:+ post
               /\ String.length (Js.take n s) = Nat.min n (String.length s).
Proof.
  revert s. induction n as [|n IH]; intros s.
  - exists s. destruct s; split; reflexivity.
  - destruct s as [|c s]; [exists ""; split; reflexivity|].
    destruct (IH s) as (post & Hs & Hlen). exists post. split.
    + cbn [Js.take]. rewrite append_cons. f_equal. exact Hs.
    + cbn [Js.take String.length]. rewrite Hlen. reflexivity.
Qed.

(** [s.slice(-n)] is the suffix of [s] of [min n |s|] code units. *)
Lemma sliceLast_suffix (n : nat) (s : string) :
  exists pre, s = pre +:+ Js.sliceLast n s
              /\ String.length (Js.sliceLast n s) = Nat.min n (String.length s).
Proof.
  unfold Js.sliceLast.
  destruct (drop_split (String.length s - n) s) as (pre & Hs & Hlen).
  exists pre. split; [exact Hs|].
  assert (Hsum : String.length s
                 = (String.length pre
                    + String.length (Js.drop (String.length s - n) s))%nat).
  { rewrite <- length_append, <- Hs. reflexivity. }
  lia.
Qed.

(** X5. Every answer that asks the model to continue quotes, between the two
    fences of its text, a resume point that is a suffix of the pending buffer
    as it stands after the call, and is the last 500 code units of it (the
    whole buffer when that is shorter): so
    for a truncated display_diagram (the buffer is then the resolved text), for
    an append_diagram that leaves the text incomplete (the buffer has grown by
    the fragment), and for a rejected fresh start (the buffer is unchanged).
    The text echoed after a failed validation of an assembled diagram is the
    first 2000 code units of the assembled text. *)
Theorem resume_point_is_a_bounded_suffix {World : Type} (lib : LibUtils)
    (env : Env World) (callId xml : string) (s : Sys World) :
  (let resolved := fst (resolveCacheReferences env xml (world s)) in
   let s' := handleDisplayDiagram lib env callId xml s in
   isMxCellXmlComplete lib resolved = false ->
   partialXmlRef s' = resolved
   /\ exists pre quoted,
        partialXmlRef s' = pre +:+ quoted
        /\ String.length quoted = Nat.min 500 (String.length (partialXmlRef s'))
        /\ toolOutputs s' =
             toolOutputs s ++
             [OutputError "display_diagram" callId
                ("Output was truncated due to length limits. Use the append_diagram tool to continue.

Your output ended with:
```
" +:+ quoted +:+ "
```

NEXT STEP: Call append_diagram with the continuation XML.
- Do NOT include wrapper tags or root cells (id=" +:+ Js.dq +:+ "0" +:+ Js.dq
                 +:+ ", id=" +:+ Js.dq +:+ "1" +:+ Js.dq +:+ ")
- Start from EXACTLY where you stopped
- Complete all remaining mxCell elements")])
  /\ (let s' := handleAppendDiagram lib env callId xml s in
      completedBy lib env {| toolCallId := callId; input := append_diagram xml |} s = false ->
      partialXmlRef s' = (if isFreshStart xml then partialXmlRef s
                          else partialXmlRef s +:+ xml)
      /\ exists pre quoted,
           partialXmlRef s' = pre +:+ quoted
           /\ String.length quoted = Nat.min 500 (String.length (partialXmlRef s'))
           /\ toolOutputs s' =
                toolOutputs s ++
                [OutputError "append_diagram" callId
                   (if isFreshStart xml
                    then "ERROR: You started fresh with wrapper tags. Do NOT include wrapper tags or root cells (id="
                         +:+ Js.dq +:+ "0" +:+ Js.dq +:+ ", id=" +:+ Js.dq +:+ "1"
                         +:+ Js.dq +:+ ").

Continue from EXACTLY where the partial ended:
```
" +:+ quoted +:+ "
```

Start your continuation with the NEXT character after where it stopped."
                    else "XML still incomplete (mxCell not closed). Call append_diagram again to continue.

Current ending:
```
" +:+ quoted +:+ "
```

Continue from EXACTLY where you stopped.")])
  /\ (forall validationError finalXml,
        exists echoed rest,
          finalXml = echoed +:+ rest
          /\ String.length echoed = Nat.min 2000 (String.length finalXml)
          /\ assemblyInvalidText validationError finalXml =
             "Validation error after assembly: " +:+ validationError +:+ "

Assembled XML:
```xml
" +:+ echoed +:+ "...
```

Please use display_diagram with corrected XML.").
Proof.
  split; [|split].
  - cbn zeta. unfold handleDisplayDiagram.
    destruct (resolveCacheReferences env xml (world s)) as [resolved w]. cbn [fst].
    intros Hinc. rewrite Hinc. cbn. split; [reflexivity|].
    destruct (sliceLast_suffix 500 resolved) as (pre & Hs & Hlen).
    exists pre, (Js.sliceLast 500 resolved). auto.
  - cbn zeta. unfold completedBy. cbn [input]. unfold handleAppendDiagram.
    destruct (isFreshStart xml); cbn.
    + intros _. split; [reflexivity|].
      destruct (sliceLast_suffix 500 (partialXmlRef s)) as (pre & Hs & Hlen).
      exists pre, (Js.sliceLast 500 (partialXmlRef s)). auto.
    + intros Hinc. rewrite Hinc. cbn. split; [reflexivity|].
      destruct (sliceLast_suffix 500 (partialXmlRef s +:+ xml)) as (pre & Hs & Hlen).
      exists pre, (Js.sliceLast 500 (partialXmlRef s +:+ xml)). auto.
  - intros validationError finalXml.
    destruct (take_split 2000 finalXml) as (post & Hs & Hlen).
    exists (Js.take 2000 finalXml), post. auto.
Qed.

(** ** Fresh starts and white space *)

Lemma trimStart_whitespace (ws : string) :
  allWhiteSpace ws = true -> Js.trimStart ws = "".
Proof.
  induction ws as [|c ws IH]; [reflexivity|]. cbn [allWhiteSpace Js.trimStart].
  intros H. apply andb_true_iff in H. destruct H as [Hc Hws].
  rewrite Hc. apply IH, Hws.
Qed.

Lemma trimStart_leading (ws s : string) :
  allWhiteSpace ws = true -> Js.trimStart (ws +:+ s) = Js.trimStart s.
Proof.
  induction ws as [|c ws IH]; [reflexivity|]. cbn [allWhiteSpace].
  intros H. apply andb_true_iff in H. destruct H as [Hc Hws].
  rewrite append_cons. cbn [Js.trimStart]. rewrite Hc. apply IH, Hws.
Qed.

Lemma trimStart_trailing (s ws : string) :
  allWhiteSpace ws = true ->
  Js.trimStart (s +:+ ws) = if allWhiteSpace s then "" else Js.trimStart s +:+ ws.
Proof.
  intros Hws. induction s as [|c s IH].
  - cbn. apply trimStart_whitespace, Hws.
  - rewrite append_cons. cbn [Js.trimStart allWhiteSpace].
    destruct (Js.isWhiteSpace c); cbn; [exact IH|reflexivity].
Qed.

Lemma trimEnd_whitespace (ws : string) :
  allWhiteSpace ws = true -> Js.trimEnd ws = "".
Proof.
  induction ws as [|c ws IH]; [reflexivity|]. cbn [allWhiteSpace Js.trimEnd].
  intros H. apply andb_true_iff in H. destruct H as [Hc Hws].
  rewrite (IH Hws), Hc. reflexivity.
Qed.

Lemma trimEnd_trailing (s ws : string) :
  allWhiteSpace ws = true -> Js.trimEnd (s +:+ ws) = Js.trimEnd s.
Proof.
  intros Hws. induction s as [|c s IH].
  - cbn. apply trimEnd_whitespace, Hws.
  - rewrite append_cons. cbn [Js.trimEnd]. rewrite IH. reflexivity.
Qed.

Lemma trim_surrounded (ws xml ws' : string) :
  allWhiteSpace ws = true -> allWhiteSpace ws' = true ->
  Js.trim (ws +:+ xml +:+ ws') = Js.trim xml.
Proof.
  intros Hws Hws'. unfold Js.trim.
  rewrite (trimStart_leading _ _ Hws), (trimStart_trailing _ _ Hws').
  destruct (allWhiteSpace xml) eqn:Hx.
  - rewrite (trimStart_whitespace _ Hx). reflexivity.
  - apply trimEnd_trailing, Hws'.
Qed.

(** X6. The fresh-start test of [handleAppendDiagram] looks at the trimmed
    fragment: white space (blanks, tabs, line breaks) before and after a
    fragment never changes whether it is rejected as a fresh start. *)
Theorem fresh_start_ignores_white_space (ws xml ws' : string) :
  allWhiteSpace ws = true -> allWhiteSpace ws' = true ->
  isFreshStart (ws +:+ xml +:+ ws') = isFreshStart xml.
Proof.
  intros Hws Hws'. unfold isFreshStart.
  rewrite (trim_surrounded _ _ _ Hws Hws'). reflexivity.
Qed.

Lemma fresh_start_ignores_white_space_witness :
  isFreshStart ("
  " +:+ "<root><mxCell/>" +:+ "
") = isFreshStart "<root><mxCell/>".
Proof.
  exact (fresh_start_ignores_white_space "
  " "<root><mxCell/>" "
" eq_refl eq_refl).
Defined.

(** ** The matches of the cache pattern *)

Lemma span_spec (p : ascii -> bool) (s a b : string) :
  Js.span p s = (a, b) ->
  s = a +:+ b /\ allChars p a = true /\ stopsAt p b = true.
Proof.
  revert a b. induction s as [|c s IH]; intros a b; cbn [Js.span].
  - intros [= <- <-]. auto.
  - destruct (p c) eqn:Hc.
    + destruct (Js.span p s) as [a' b']. intros [= <- <-].
      destruct (IH a' b' eq_refl) as (Hs & Ha & Hb).
      rewrite append_cons. cbn [allChars]. rewrite Hc, Ha. subst s. auto.
    + intros [= <- <-]. cbn. rewrite Hc. auto.
Qed.

Lemma span_append (p : ascii -> bool) (a b : string) :
  allChars p a = true -> stopsAt p b = true -> Js.span p (a +:+ b) = (a, b).
Proof.
  intros Ha Hb. induction a as [|c a IH].
  - rewrite append_nil_l. destruct b as [|d b]; [reflexivity|].
    cbn [Js.span stopsAt] in *. apply negb_true_iff in Hb. rewrite Hb. reflexivity.
  - cbn [allChars] in Ha. apply andb_true_iff in Ha. destruct Ha as [Hc Ha].
    rewrite append_cons. cbn [Js.span]. rewrite Hc, (IH Ha). reflexivity.
Qed.

Lemma prefix_append (needle rest : string) :
  String.prefix needle (needle +:+ rest) = true.
Proof.
  induction needle as [|c needle IH]; [destruct rest; reflexivity|].
  rewrite append_cons. cbn. destruct (ascii_dec c c); [exact IH|congruence].
Qed.

Lemma includes_append (pre needle rest : string) :
  Js.includes (pre +:+ needle +:+ rest) needle = true.
Proof.
  unfold Js.includes. induction pre as [|c pre IH].
  - rewrite append_nil_l.
    destruct (needle +:+ rest) eqn:Hs; cbn [Js.splitFirst];
      rewrite <- Hs, prefix_append; reflexivity.
  - rewrite append_cons. cbn [Js.splitFirst].
    destruct (String.prefix needle (String c (pre +:+ needle +:+ rest))); [reflexivity|].
    destruct (Js.splitFirst needle (pre +:+ needle +:+ rest)) as [[b a]|];
      [reflexivity|discriminate IH].
Qed.

Lemma matchHere_sound (s : string) (m : CacheMatch) :
  matchHere s = Some m ->
  wellFormedMatch m /\ exists rest, s = fullMatch m +:+ rest.
Proof.
  unfold matchHere. destruct (String.prefix cachePrefix s) eqn:Hp; [|discriminate].
  apply prefix_drop in Hp.
  destruct (Js.span isKeyChar (Js.drop (String.length cachePrefix) s)) as [k afterKey] eqn:Hk.
  apply span_spec in Hk. destruct Hk as (Hks & Hka & Hkb).
  destruct k as [|k0 k]; [discriminate|].
  destruct afterKey as [|c afterSlash]; [discriminate|].
  destruct (Js.span isRegionChar afterSlash) as [r rest] eqn:Hr.
  apply span_spec in Hr. destruct Hr as (Hrs & Hra & Hrb).
  destruct r as [|r0 r]; [discriminate|].
  intros [= <-]. cbn [fullMatch key regionName].
  assert (Hc : c = "/"%char).
  { cbn in Hkb. unfold isKeyChar in Hkb. rewrite negb_involutive in Hkb.
    apply Ascii.eqb_eq in Hkb. exact Hkb. }
  subst c. split.
  - unfold wellFormedMatch. cbn [fullMatch key regionName].
    repeat split; try assumption; discriminate.
  - exists rest. rewrite Hp at 1. rewrite Hks, Hrs.
    unfold cachePrefix. rewrite !append_assoc. reflexivity.
Qed.

Lemma matchAllFrom_sound (s : string) (skip : nat) (m : CacheMatch) :
  In m (matchAllFrom skip s) ->
  wellFormedMatch m /\ exists pre rest, s = pre +:+ fullMatch m +:+ rest.
Proof.
  revert skip. induction s as [|c s IH]; intros skip Hin; [destruct Hin|].
  assert (Hlater : forall k, In m (matchAllFrom k s) ->
            wellFormedMatch m
            /\ exists pre rest, String c s = pre +:+ fullMatch m +:+ rest).
  { intros k Hk. destruct (IH k Hk) as (Hwf & pre & rest & Hs).
    split; [exact Hwf|]. exists (String c pre), rest. rewrite append_cons, <- Hs.
    reflexivity. }
  cbn [matchAllFrom] in Hin. destruct skip as [|k]; [|eapply Hlater, Hin].
  destruct (matchHere (String c s)) as [m'|] eqn:Hm; [|eapply Hlater, Hin].
  destruct Hin as [<-|Hin]; [|eapply Hlater, Hin].
  destruct (matchHere_sound _ _ Hm) as (Hwf & rest & Hs).
  split; [exact Hwf|]. exists "", rest. exact Hs.
Qed.

(** X7. Every match that [handleDisplayDiagram] finds in a text is a
    reference as the pattern describes it: the literal [image=data:cache/], a
    non-empty key without a slash, a slash, and a non-empty region name
    without a semicolon, a double quote or white space.  The search text the
    handler rebuilds from the two groups is the matched text itself, it occurs
    in the text ([xml.includes(searchStr)] holds before the first
    replacement), and the key sent to the server is a non-empty string. *)
Theorem cache_matches_are_references (xml : string) (m : CacheMatch) :
  In m (cacheMatches xml) ->
  wellFormedMatch m
  /\ (exists pre rest, xml = pre +:+ fullMatch m +:+ rest)
  /\ Js.includes xml (searchStrOf (key m) (regionName m)) = true
  /\ truthy (Some (key m)) = Some (key m).
Proof.
  intros Hin. destruct (matchAllFrom_sound xml 0 m Hin) as (Hwf & pre & rest & Hxml).
  split; [exact Hwf|]. split; [eauto|].
  destruct Hwf as (Hfull & Hkey & _). split.
  - rewrite <- Hfull. rewrite Hxml at 1. apply includes_append.
  - destruct (key m); [congruence|reflexivity].
Qed.

Lemma cache_matches_are_references_witness :
  let m := {| fullMatch := searchStrOf "k1" "a/b"; key := "k1"; regionName := "a/b" |} in
  let xml := "<mxCell style='shape=image;image=data:cache/k1/a/b;'/>" in
  wellFormedMatch m
  /\ (exists pre rest, xml = pre +:+ fullMatch m +:+ rest)
  /\ Js.includes xml (searchStrOf (key m) (regionName m)) = true
  /\ truthy (Some (key m)) = Some (key m).
Proof.
  exact (cache_matches_are_references
           "<mxCell style='shape=image;image=data:cache/k1/a/b;'/>"
           {| fullMatch := searchStrOf "k1" "a/b"; key := "k1"; regionName := "a/b" |}
           (or_introl eq_refl)).
Defined.

(** ** One fetch per key *)

Lemma cacheKeys_fold (keys seen : list string) :
  NoDup seen ->
  NoDup (fold_left (fun seen k => if bool_decide (k ∈ seen) then seen else seen ++ [k])
           keys seen)
  /\ forall k,
       In k (fold_left (fun seen k => if bool_decide (k ∈ seen) then seen else seen ++ [k])
               keys seen)
       <-> In k seen \/ In k keys.
Proof.
  revert seen. induction keys as [|k0 keys IH]; intros seen Hnd.
  - cbn. split; [exact Hnd|]. intros k. tauto.
  - cbn [fold_left]. destruct (bool_decide (k0 ∈ seen)) eqn:Hk.
    + apply bool_decide_eq_true, list_elem_of_In in Hk.
      destruct (IH seen Hnd) as [Hnd' Hin]. split; [exact Hnd'|].
      intros k. rewrite Hin. cbn. split; [tauto|].
      intros [H|[<-|H]]; auto.
    + apply bool_decide_eq_false in Hk. rewrite list_elem_of_In in Hk.
      assert (Hnd1 : NoDup (seen ++ [k0])).
      { apply NoDup_app. split; [exact Hnd|]. split.
        - intros x Hx Hx0. apply list_elem_of_In in Hx. apply list_elem_of_In in Hx0.
          destruct Hx0 as [<-|[]]. contradiction.
        - apply NoDup_singleton. }
      destruct (IH (seen ++ [k0]) Hnd1) as [Hnd' Hin]. split; [exact Hnd'|].
      intros k. rewrite Hin, in_app_iff. cbn. tauto.
Qed.

(** X8. The keys [handleDisplayDiagram] fetches are the keys of the matches,
    each once: the list has no duplicate and holds exactly the keys that
    occur in a match.  A text with many references to one cache entry costs one
    request. *)
Theorem each_key_is_fetched_once (matches : list CacheMatch) :
  NoDup (cacheKeys matches)
  /\ forall k, In k (cacheKeys matches) <-> exists m, In m matches /\ key m = k.
Proof.
  unfold cacheKeys. destruct (cacheKeys_fold (map key matches) [] NoDup_nil_2)
    as [Hnd Hin].
  split; [exact Hnd|]. intros k. rewrite Hin, in_map_iff. cbn.
  split; [intros [[]|(m & Hk & Hm)]; eauto|intros (m & Hm & Hk); right; eauto].
Qed.

(** ** The client and the cache *)

Lemma entry_some (srv : RegionCache.Server) (k : string) (m : gmap string string) :
  RegionCache.entry srv k = Some m <->
  exists cache, RegionCache.extractedRegionsCache srv = Some cache /\ cache !! k = Some m.
Proof.
  unfold RegionCache.entry. destruct (RegionCache.extractedRegionsCache srv) as [cache|]; cbn.
  - split; [eauto|]. intros (c & [= <-] & H). exact H.
  - split; [discriminate|]. intros (c & [=] & _).
Qed.



(** ** Storing regions *)

Lemma storeKey_nonempty (random : string) (regions : list RegionCache.ExtractedRegion)
    (srv : RegionCache.Server) :
  exists rest, fst (RegionCache.storeExtractedRegions random regions srv)
               = "extract_" +:+ rest.
Proof. eexists. reflexivity. Qed.

Lemma regionMapping_fold (n : string) (regions : list RegionCache.ExtractedRegion)
    (m : gmap string string) :
  fold_left (fun m r => RegionCache.setProperty (RegionCache.name r) (RegionCache.dataUrl r) m)
    (List.filter (fun r => match truthy (RegionCache.error r) with
                           | Some _ => false | None => true end) regions) m !! n
  = match keptDataUrl n regions with
    | Some d => Some d
    | None => m !! n
    end.
Proof.
  revert m. induction regions as [|r regions IH]; intros m; [reflexivity|].
  cbn [List.filter keptDataUrl].
  destruct (truthy (RegionCache.error r)) as [e|] eqn:He.
  - rewrite IH. destruct (keptDataUrl n regions); [reflexivity|].
    rewrite andb_false_r. reflexivity.
  - cbn [fold_left]. rewrite IH. destruct (keptDataUrl n regions); [reflexivity|].
    rewrite andb_true_r. unfold RegionCache.setProperty.
    destruct (String.eqb_spec (RegionCache.name r) n) as [->|Hn]; cbn.
    + destruct (String.eqb_spec n "__proto__") as [->|Hp]; cbn; [reflexivity|].
      apply lookup_insert_eq.
    + destruct (String.eqb (RegionCache.name r) "__proto__"); [reflexivity|].
      apply lookup_insert_ne. exact Hn.
Qed.

Lemma POST_of_entry (k : string) (srv : RegionCache.Server) (m : gmap string string) :
  k <> "" -> RegionCache.entry srv k = Some m ->
  RegionCache.POST (RegionCache.BodyJson (Some k)) srv
  = ({| RegionCache.status := 200; RegionCache.body := RegionCache.RegionsBody m |}, srv).
Proof.
  intros Hk Hm. apply entry_some in Hm. destruct Hm as (cache & Hc & Hm).
  unfold RegionCache.POST. destruct k as [|c k]; [congruence|]. cbn [truthy].
  rewrite Hc, Hm. reflexivity.
Qed.

Lemma storeKey_not_empty (random : string) (regions : list RegionCache.ExtractedRegion)
    (srv : RegionCache.Server) :
  fst (RegionCache.storeExtractedRegions random regions srv) <> "".
Proof. destruct (storeKey_nonempty random regions srv) as [rest ->]. discriminate. Qed.

Lemma kept_none_if_errors (n : string) (regions : list RegionCache.ExtractedRegion) :
  (forall r, In r regions -> RegionCache.name r = n ->
             exists e, truthy (RegionCache.error r) = Some e) ->
  keptDataUrl n regions = None.
Proof.
  induction regions as [|r rest IH]; intros Hall; [reflexivity|].
  cbn [keptDataUrl]. rewrite IH; [|intros r0 Hr0; apply Hall; right; exact Hr0].
  destruct (String.eqb_spec (RegionCache.name r) n) as [Hn|Hn]; cbn; [|reflexivity].
  destruct (Hall r (or_introl eq_refl) Hn) as [e He]. rewrite He.
  rewrite andb_false_r. reflexivity.
Qed.

Lemma kept_proto (regions : list RegionCache.ExtractedRegion) :
  keptDataUrl "__proto__" regions = None.
Proof.
  induction regions as [|r rest IH]; [reflexivity|].
  cbn [keptDataUrl]. rewrite IH. cbn. rewrite andb_false_r. reflexivity.
Qed.

(** X10. Storing regions and reading them back: a request with the key that
    [extract_image_regions] returned is answered 200 with the mapping it
    stored, and the entries under other keys are as they were.  The mapping
    holds, under each region name, the data URL of the last region of that
    name that was extracted without error; a region that failed is not stored,
    and nothing is stored under [__proto__]. *)
Theorem stored_regions_are_read_back (random : string)
    (regions : list RegionCache.ExtractedRegion) (srv : RegionCache.Server) :
  let stored := RegionCache.storeExtractedRegions random regions srv in
  RegionCache.POST (RegionCache.BodyJson (Some (fst stored))) (snd stored)
  = ({| RegionCache.status := 200;
        RegionCache.body := RegionCache.RegionsBody (RegionCache.regionMappingOf regions) |},
     snd stored)
  /\ (forall k, k <> fst stored ->
        RegionCache.entry (snd stored) k = RegionCache.entry srv k)
  /\ (forall n, RegionCache.regionMappingOf regions !! n = keptDataUrl n regions)
  /\ (forall n, (forall r, In r regions -> RegionCache.name r = n ->
                           exists e, truthy (RegionCache.error r) = Some e) ->
                RegionCache.regionMappingOf regions !! n = None)
  /\ RegionCache.regionMappingOf regions !! "__proto__" = None.
Proof.
  cbn zeta.
  assert (Hkept : forall n, RegionCache.regionMappingOf regions !! n = keptDataUrl n regions).
  { intros n. unfold RegionCache.regionMappingOf. rewrite regionMapping_fold.
    destruct (keptDataUrl n regions); [reflexivity|apply lookup_empty]. }
  split; [|split; [|split; [exact Hkept|split]]].
  - apply POST_of_entry; [apply storeKey_not_empty|].
    rewrite entry_stored. destruct (decide _); [reflexivity|congruence].
  - intros k Hk. rewrite entry_stored. destruct (decide _); [congruence|reflexivity].
  - intros n Hall. rewrite Hkept. apply kept_none_if_errors, Hall.
  - rewrite Hkept. apply kept_proto.
Qed.

(** ** Every cached entry is scheduled for deletion *)

Lemma entry_survives_fire (l : list RegionCache.Timer)
    (cache : option (gmap string (gmap string string))) (k : string)
    (m : gmap string string) :
  fold_left RegionCache.fire l cache ≫= (fun c => c !! k) = Some m ->
  cache ≫= (fun c => c !! k) = Some m
  /\ forall tm, In tm l -> RegionCache.expires tm <> k.
Proof.
  revert cache. induction l as [|tm l IH]; intros cache H; [split; [exact H|intros ? []]|].
  cbn [fold_left] in H. destruct (IH _ H) as [Hfired Hl].
  destruct (decide (RegionCache.expires tm = k)) as [Hk|Hk].
  - exfalso. destruct cache as [c|]; [|discriminate Hfired]. cbn in Hfired.
    rewrite <- Hk, lookup_delete_eq in Hfired. discriminate.
  - rewrite (entry_fire_other _ _ _ Hk) in Hfired. split; [exact Hfired|].
    intros tm' [<-|Hin]; [exact Hk|apply Hl, Hin].
Qed.

Lemma ttl_positive : (0 < RegionCache.ttl)%Z.
Proof. reflexivity. Qed.

Lemma wellScheduled_step (e : RegionCache.Event) (srv : RegionCache.Server) :
  wellScheduled srv -> wellScheduled (RegionCache.step e srv).
Proof.
  intros [Hentries Htimers]. pose proof ttl_positive as Hpos.
  destruct e as [random regions|req|t]; cbn [RegionCache.step].
  - split.
    + intros k Hk. rewrite entry_stored in Hk. cbn [RegionCache.timers snd RegionCache.storeExtractedRegions].
      destruct (decide _) as [Heq|Hne].
      * eexists. split; [apply in_app_iff; right; left; reflexivity|exact Heq].
      * destruct (Hentries k Hk) as (tm & Hin & Hexp). exists tm.
        split; [apply in_app_iff; left; exact Hin|exact Hexp].
    + intros tm Hin. cbn in Hin. apply in_app_iff in Hin.
      destruct Hin as [Hin|[<-|[]]]; cbn; [apply Htimers, Hin|lia].
  - rewrite POST_frame. split; assumption.
  - unfold RegionCache.advance. destruct (t <? RegionCache.now srv)%Z eqn:Hlt;
      [split; assumption|].
    apply Z.ltb_ge in Hlt. split.
    + intros k [m Hk]. unfold RegionCache.entry in Hk. cbn in Hk.
      destruct (entry_survives_fire _ _ _ _ Hk) as [Hbefore Hnot].
      destruct (Hentries k) as (tm & Hin & Hexp); [exists m; exact Hbefore|].
      exists tm. split; [|exact Hexp]. cbn. apply filter_In. split; [exact Hin|].
      destruct (RegionCache.isDue t tm) eqn:Hdue; [|reflexivity].
      exfalso. apply (Hnot tm); [apply filter_In; auto|exact Hexp].
    + intros tm Hin. cbn in Hin. apply filter_In in Hin. destruct Hin as [Hin Hdue].
      apply negb_true_iff in Hdue. unfold RegionCache.isDue in Hdue.
      apply Z.leb_gt in Hdue. specialize (Htimers tm Hin). cbn. lia.
Qed.

(** X11. On a server that has run from its start through any sequence of
    stores, reads and clock moves, every cached entry has a pending timer set
    for its key, due later than now and at most 600000 milliseconds from now:
    no entry is cached without a deletion scheduled, and once the clock has
    moved 600000 milliseconds on with nothing stored meanwhile the cache holds
    no entry at all. *)
Theorem every_entry_is_scheduled (start : Z) (events : list RegionCache.Event) :
  let srv := RegionCache.run events (RegionCache.boot start) in
  wellScheduled srv
  /\ (forall t k, (RegionCache.now srv + 600000 <= t)%Z ->
                  RegionCache.entry (RegionCache.advance t srv) k = None).
Proof.
  cbn zeta.
  assert (Hinv : wellScheduled (RegionCache.run events (RegionCache.boot start))).
  { unfold RegionCache.run.
    assert (Hboot : wellScheduled (RegionCache.boot start)).
    { split; [intros k [m Hk]; discriminate Hk|intros tm []]. }
    revert Hboot. generalize (RegionCache.boot start).
    induction events as [|e events IH]; intros srv Hsrv; [exact Hsrv|].
    cbn [fold_left]. apply IH, wellScheduled_step, Hsrv. }
  split; [exact Hinv|].
  intros t k Ht. set (srv := RegionCache.run events (RegionCache.boot start)) in *.
  destruct Hinv as [Hentries Htimers].
  destruct (RegionCache.entry srv k) as [m|] eqn:Hk.
  - destruct (Hentries k) as (tm & Hin & Hexp); [eauto|].
    specialize (Htimers tm Hin). unfold RegionCache.ttl in Htimers.
    unfold RegionCache.advance. destruct (t <? RegionCache.now srv)%Z eqn:Hlt; [lia|].
    unfold RegionCache.entry. cbn. rewrite <- Hexp. apply entry_expires.
    apply filter_In. split; [exact Hin|]. unfold RegionCache.isDue. apply Z.leb_le. lia.
  - unfold RegionCache.advance. destruct (t <? RegionCache.now srv)%Z; [exact Hk|].
    unfold RegionCache.entry. cbn. apply entry_stays_gone. exact Hk.
Qed.

(** ** References to keys the cache does not hold *)

Lemma fetch_unknown (k : string) (srv : RegionCache.Server) :
  RegionCache.entry srv k = None ->
  served (fst (RegionCache.fetchCachedRegions k srv)) = None
  /\ snd (RegionCache.fetchCachedRegions k srv) = srv.
Proof.
  intros Hk. unfold RegionCache.fetchCachedRegions, RegionCache.POST.
  destruct k as [|c k]; [split; reflexivity|]. cbn [truthy].
  unfold RegionCache.entry in Hk.
  destruct (RegionCache.extractedRegionsCache srv) as [cache|]; [|split; reflexivity].
  cbn in Hk. rewrite Hk. split; reflexivity.
Qed.

Lemma resolveKeys_unknown (validate : string -> option string) (p : Page)
    (matches : list CacheMatch) (keys : list string) (xml : string) :
  (forall k, In k keys -> RegionCache.entry (server p) k = None) ->
  resolveKeys (pageEnv validate) matches keys xml p = (xml, p).
Proof.
  induction keys as [|k keys IH]; intros Hun; [reflexivity|].
  cbn [resolveKeys fetchCachedRegions pageEnv].
  destruct (fetch_unknown k (server p) (Hun k (or_introl eq_refl))) as [Hserved Hsrv].
  destruct (RegionCache.fetchCachedRegions k (server p)) as [outcome srv].
  cbn [fst snd] in Hserved, Hsrv. subst srv.
  assert (Hpage : {| server := server p; displayed := displayed p |} = p)
    by (destruct p; reflexivity).
  rewrite Hpage.
  assert (Hxml : match outcome with
                 | FetchResponse true (Some regions) => replaceForKey k regions matches xml
                 | _ => xml
                 end = xml).
  { destruct outcome as [|[] [regions|]]; try reflexivity. discriminate Hserved. }
  rewrite Hxml. apply IH. intros k' Hin. apply Hun. right. exact Hin.
Qed.

Lemma stored_entry_expires (random : string) (regions : list RegionCache.ExtractedRegion)
    (srv : RegionCache.Server) (t : Z) :
  (RegionCache.now srv + 600000 <= t)%Z ->
  RegionCache.entry
    (RegionCache.advance t (snd (RegionCache.storeExtractedRegions random regions srv)))
    (fst (RegionCache.storeExtractedRegions random regions srv)) = None.
Proof.
  intros Ht. unfold RegionCache.advance.
  change (RegionCache.now (snd (RegionCache.storeExtractedRegions random regions srv)))
    with (RegionCache.now srv).
  destruct (t <? RegionCache.now srv)%Z eqn:Hlt; [lia|].
  unfold RegionCache.entry. cbn [RegionCache.extractedRegionsCache].
  apply (entry_expires _ _
           {| RegionCache.due := (RegionCache.now srv + RegionCache.ttl)%Z;
              RegionCache.expires :=
                fst (RegionCache.storeExtractedRegions random regions srv) |}).
  apply filter_In. split.
  - cbn. apply in_app_iff. right. left. reflexivity.
  - unfold RegionCache.isDue. cbn. apply Z.leb_le. unfold RegionCache.ttl. lia.
Qed.

(** X12. A text all of whose references name keys that the cache does not
    hold goes through region resolution unchanged, reference for reference,
    and the page is as it was: display_diagram then judges and shows the text
    as written.  This is what happens to the references of regions stored more
    than 10 minutes ago: once the clock has reached the time their entry
    expires, a text that refers to them is left as written. *)
Theorem unknown_keys_leave_the_text (validate : string -> option string) (p : Page)
    (xml : string) :
  (forall m, In m (cacheMatches xml) -> RegionCache.entry (server p) (key m) = None) ->
  resolveCacheReferences (pageEnv validate) xml p = (xml, p)
  /\ (forall random regions srv t shown text,
        (RegionCache.now srv + 600000 <= t)%Z ->
        (forall m, In m (cacheMatches text) ->
                   key m = fst (RegionCache.storeExtractedRegions random regions srv)) ->
        let later :=
          {| server := RegionCache.advance t
                         (snd (RegionCache.storeExtractedRegions random regions srv));
             displayed := shown |} in
        resolveCacheReferences (pageEnv validate) text later = (text, later)).
Proof.
  assert (Hgeneral : forall (q : Page) (text : string),
            (forall m, In m (cacheMatches text) ->
                       RegionCache.entry (server q) (key m) = None) ->
            resolveCacheReferences (pageEnv validate) text q = (text, q)).
  { intros q text Hun. unfold resolveCacheReferences.
    destruct (0 <? length (cacheMatches text))%nat; [|reflexivity].
    apply resolveKeys_unknown. intros k Hk.
    assert (Hm : exists m, In m (cacheMatches text) /\ key m = k).
    { unfold cacheKeys in Hk.
      destruct (cacheKeys_fold (map key (cacheMatches text)) [] NoDup_nil_2) as [_ Hin].
      apply Hin in Hk. destruct Hk as [[]|Hk]. apply in_map_iff in Hk.
      destruct Hk as (m & Hkey & Hm). eauto. }
    destruct Hm as (m & Hm & <-). apply Hun, Hm. }
  intros Hun. split; [apply Hgeneral, Hun|].
  intros random regions srv t shown text Ht Hkeys later. apply Hgeneral.
  intros m Hm. rewrite (Hkeys m Hm). apply stored_entry_expires, Ht.
Qed.

Lemma unknown_keys_leave_the_text_witness :
  resolveCacheReferences (pageEnv (fun _ => None))
    (imageCell "hand" "extract_1_gone" "hand") handPage
  = (imageCell "hand" "extract_1_gone" "hand", handPage).
Proof.
  refine (proj1 (unknown_keys_leave_the_text (fun _ => None) handPage
                   (imageCell "hand" "extract_1_gone" "hand") _)).
  intros m [<-|[]]. reflexivity.
Defined.

(** ** A reference as the server tells the model to write it *)

Lemma firstSlash_append (a b : string) :
  firstSlash (a +:+ b)
  = match firstSlash a with
    | Some i => Some i
    | None => match firstSlash b with
              | Some j => Some (String.length a + j)%nat
              | None => None
              end
    end.
Proof.
  induction a as [|c a IH].
  - rewrite append_nil_l. cbn. destruct (firstSlash b); reflexivity.
  - rewrite append_cons. cbn [firstSlash String.length]. rewrite IH.
    destruct (Ascii.eqb c "/"); [reflexivity|].
    destruct (firstSlash a); [reflexivity|].
    destruct (firstSlash b); reflexivity.
Qed.

Lemma firstSlash_none (s : string) :
  allChars isKeyChar s = true -> firstSlash s = None.
Proof.
  induction s as [|c s IH]; [reflexivity|]. cbn [allChars firstSlash].
  intros H. apply andb_true_iff in H. destruct H as [Hc Hs].
  unfold isKeyChar in Hc. apply negb_true_iff in Hc. rewrite Hc, (IH Hs). reflexivity.
Qed.

(** No reference starts inside a text without a slash that precedes one. *)
Lemma no_match_before (before rest : string) (c : ascii) :
  allChars isKeyChar (String c before) = true ->
  String.prefix cachePrefix (String c before +:+ cachePrefix +:+ rest) = false.
Proof.
  intros Hns. destruct (String.prefix cachePrefix _) eqn:Hp; [|reflexivity].
  apply prefix_drop in Hp.
  assert (H1 : firstSlash (String c before +:+ cachePrefix +:+ rest)
               = Some (String.length (String c before) + 16)%nat).
  { rewrite firstSlash_append, (firstSlash_none _ Hns), firstSlash_append. reflexivity. }
  rewrite Hp, firstSlash_append in H1. cbn in H1. injection H1 as H1. lia.
Qed.

Lemma matchHere_none_before (before rest : string) (c : ascii) :
  allChars isKeyChar (String c before) = true ->
  matchHere (String c before +:+ cachePrefix +:+ rest) = None.
Proof.
  intros Hns. unfold matchHere. rewrite (no_match_before _ _ _ Hns). reflexivity.
Qed.

Lemma matchAll_skips_before (before rest : string) :
  allChars isKeyChar before = true ->
  matchAllFrom 0 (before +:+ cachePrefix +:+ rest) = matchAllFrom 0 (cachePrefix +:+ rest).
Proof.
  induction before as [|c before IH]; intros Hns; [reflexivity|].
  pose proof (matchHere_none_before before rest c Hns) as Hnone.
  rewrite append_cons in Hnone |- *. cbn [matchAllFrom]. rewrite Hnone.
  apply IH. cbn [allChars] in Hns. apply andb_true_iff in Hns. apply Hns.
Qed.

Lemma matchAll_skip (a b : string) :
  matchAllFrom (String.length a) (a +:+ b) = matchAllFrom 0 b.
Proof.
  induction a as [|c a IH]; [reflexivity|].
  rewrite append_cons. cbn [String.length matchAllFrom]. exact IH.
Qed.

Lemma drop_append (a b : string) : Js.drop (String.length a) (a +:+ b) = b.
Proof.
  induction a as [|c a IH]; [reflexivity|]. rewrite append_cons. exact IH.
Qed.

Lemma matchHere_reference (k r rest : string) :
  k <> "" -> allChars isKeyChar k = true ->
  r <> "" -> allChars isRegionChar r = true ->
  stopsAt isRegionChar rest = true ->
  matchHere (searchStrOf k r +:+ rest)
  = Some {| fullMatch := searchStrOf k r; key := k; regionName := r |}.
Proof.
  intros Hk Hka Hr Hra Hrest. unfold matchHere, searchStrOf.
  change "image=data:cache/" with cachePrefix.
  rewrite !append_assoc, prefix_append, drop_append.
  rewrite (span_append isKeyChar k ("/" +:+ r +:+ rest) Hka eq_refl).
  destruct k as [|k0 k]; [congruence|].
  change ("/" +:+ r +:+ rest) with (String "/" (r +:+ rest)). lazy iota.
  rewrite (span_append isRegionChar r rest Hra Hrest).
  destruct r as [|r0 r]; [congruence|]. reflexivity.
Qed.

Lemma digits_have_no_slash (d : Decimal.uint) :
  allChars isKeyChar (NilEmpty.string_of_uint d) = true.
Proof. induction d; cbn; auto. Qed.

Lemma allChars_append (p : ascii -> bool) (a b : string) :
  allChars p (a +:+ b) = allChars p a && allChars p b.
Proof.
  induction a as [|c a IH]; [reflexivity|].
  rewrite append_cons. cbn [allChars]. rewrite IH, andb_assoc. reflexivity.
Qed.

Lemma storeKey_has_no_slash (random : string)
    (regions : list RegionCache.ExtractedRegion) (srv : RegionCache.Server) :
  allChars isKeyChar random = true ->
  allChars isKeyChar (fst (RegionCache.storeExtractedRegions random regions srv)) = true.
Proof.
  intros Hr. unfold RegionCache.storeExtractedRegions. cbn [fst].
  rewrite !allChars_append, Hr.
  assert (Hd : allChars isKeyChar
                 (NilZero.string_of_int (Z.to_int (RegionCache.now srv))) = true).
  { unfold NilZero.string_of_int.
    destruct (Z.to_int (RegionCache.now srv)) as [d|d]; cbn [allChars];
      unfold NilZero.string_of_uint; destruct d;
      try reflexivity; apply (digits_have_no_slash (_ _)). }
  rewrite Hd. reflexivity.
Qed.

Lemma matchAll_reference (k r rest : string) :
  k <> "" -> allChars isKeyChar k = true ->
  r <> "" -> allChars isRegionChar r = true ->
  stopsAt isRegionChar rest = true ->
  matchAllFrom 0 (searchStrOf k r +:+ rest)
  = {| fullMatch := searchStrOf k r; key := k; regionName := r |}
    :: matchAllFrom 0 rest.
Proof.
  intros Hk Hka Hr Hra Hrest.
  pose proof (matchHere_reference k r rest Hk Hka Hr Hra Hrest) as Hm.
  destruct (searchStrOf k r +:+ rest) as [|c tail] eqn:Hs; [discriminate Hm|].
  cbn [matchAllFrom]. rewrite Hm. cbn [fullMatch]. f_equal.
  assert (Hsearch : searchStrOf k r
                    = String "i" ("mage=data:cache/" +:+ k +:+ "/" +:+ r))
    by reflexivity.
  assert (Htail : exists t, searchStrOf k r = String c t /\ tail = t +:+ rest).
  { rewrite Hsearch in Hs |- *. rewrite append_cons in Hs. injection Hs as <- <-.
    eexists. split; reflexivity. }
  destruct Htail as (t & Ht & ->). rewrite Ht.
  change (String.length (String c t) - 1)%nat with (String.length t - 0)%nat.
  rewrite Nat.sub_0_r. apply matchAll_skip.
Qed.

Lemma searchStr_begins (k r rest : string) :
  searchStrOf k r +:+ rest = cachePrefix +:+ (k +:+ "/" +:+ r) +:+ rest.
Proof. unfold searchStrOf. rewrite !append_assoc. reflexivity. Qed.

(** X13. The reference that [extract_image_regions] tells the model to write,
    [image=data:cache/<key>/<name>] followed by a semicolon (or by any code
    unit a region name cannot hold, or by nothing), is read back by the
    pattern of [handleDisplayDiagram] as that key and that name, whenever the
    key is non-empty and has no slash and the name is non-empty and has no
    semicolon, double quote or white space.  The keys the server makes
    ([extract_], the clock, an underscore and a random suffix without a slash)
    are such keys. *)
Theorem reference_is_read_back (k r rest : string) :
  k <> "" -> allChars isKeyChar k = true ->
  r <> "" -> allChars isRegionChar r = true ->
  stopsAt isRegionChar rest = true ->
  matchHere (searchStrOf k r +:+ rest)
  = Some {| fullMatch := searchStrOf k r; key := k; regionName := r |}
  /\ (forall random regions srv,
        allChars isKeyChar random = true ->
        let made := fst (RegionCache.storeExtractedRegions random regions srv) in
        made <> "" /\ allChars isKeyChar made = true
        /\ cacheMatches (searchStrOf made r +:+ rest)
           = {| fullMatch := searchStrOf made r; key := made; regionName := r |}
             :: cacheMatches rest).
Proof.
  intros Hk Hka Hr Hra Hrest. split; [apply matchHere_reference; assumption|].
  intros random regions srv Hrandom made.
  assert (Hmade : made <> "") by apply storeKey_not_empty.
  assert (Hns : allChars isKeyChar made = true) by (apply storeKey_has_no_slash, Hrandom).
  split; [exact Hmade|]. split; [exact Hns|].
  unfold cacheMatches. apply matchAll_reference; assumption.
Qed.

Lemma reference_is_read_back_witness :
  matchHere (searchStrOf "extract_1700000000000_k3j9x2m1q" "hand" +:+ ";'/>")
  = Some {| fullMatch := searchStrOf "extract_1700000000000_k3j9x2m1q" "hand";
            key := "extract_1700000000000_k3j9x2m1q"; regionName := "hand" |}.
Proof.
  refine (proj1 (reference_is_read_back "extract_1700000000000_k3j9x2m1q" "hand" ";'/>"
                   _ eq_refl _ eq_refl eq_refl)); discriminate.
Defined.

(** ** Resolving the one reference of a text *)

Lemma splitFirst_prefix (needle hay : string) :
  String.prefix needle hay = true ->
  Js.splitFirst needle hay = Some ("", Js.drop (String.length needle) hay).
Proof. intros H. destruct hay; cbn [Js.splitFirst]; rewrite H; reflexivity. Qed.

Lemma prefix_of_prefix (a b t : string) :
  String.prefix (a +:+ b) t = true -> String.prefix a t = true.
Proof.
  revert t. induction a as [|c a IH]; intros t H; [destruct t; reflexivity|].
  rewrite append_cons in H. destruct t as [|d t]; [discriminate|]. cbn in *.
  destruct (ascii_dec c d); [apply IH, H|discriminate].
Qed.

Lemma splitFirst_reference (before k r after : string) :
  allChars isKeyChar before = true ->
  Js.splitFirst (searchStrOf k r) (before +:+ searchStrOf k r +:+ after)
  = Some (before, after).
Proof.
  induction before as [|c before IH]; intros Hns.
  - rewrite append_nil_l, splitFirst_prefix; [|apply prefix_append].
    rewrite drop_append. reflexivity.
  - assert (Hnot : String.prefix (searchStrOf k r)
                     (String c before +:+ searchStrOf k r +:+ after) = false).
    { destruct (String.prefix (searchStrOf k r) _) eqn:Hp; [|reflexivity].
      unfold searchStrOf in Hp at 1. change "image=data:cache/" with cachePrefix in Hp.
      apply prefix_of_prefix in Hp.
      unfold searchStrOf in Hp. change "image=data:cache/" with cachePrefix in Hp.
      rewrite (append_assoc cachePrefix) in Hp.
      rewrite (no_match_before _ _ _ Hns) in Hp. discriminate. }
    rewrite append_cons in Hnot |- *. cbn [Js.splitFirst]. rewrite Hnot, IH;
      [reflexivity|].
    cbn [allChars] in Hns. apply andb_true_iff in Hns. apply Hns.
Qed.

(** X14. A text with one reference is resolved in place.  Let the text be a
    part without a slash, then [image=data:cache/<key>/<name>], then a part
    that begins with a code unit a name cannot hold and holds no reference.
    If the request for the key is answered ok with a mapping that holds a
    non-empty payload without a dollar sign under the name, region resolution
    makes exactly that one request and returns the same text with the
    reference replaced by [image=] and the payload, its semicolons written
    [%3B]. *)
Theorem single_reference_is_resolved {World : Type} (env : Env World)
    (before k r after payload : string) (regions : gmap string string) (w w' : World) :
  allChars isKeyChar before = true ->
  k <> "" -> allChars isKeyChar k = true ->
  r <> "" -> allChars isRegionChar r = true ->
  stopsAt isRegionChar after = true ->
  cacheMatches after = [] ->
  fetchCachedRegions env k w = (FetchResponse true (Some regions), w') ->
  regions !! r = Some payload ->
  payload <> "" ->
  Js.occurs "$" payload = false ->
  resolveCacheReferences env (before +:+ searchStrOf k r +:+ after) w
  = (before +:+ ("image=" +:+ Js.replaceSemicolons payload) +:+ after, w').
Proof.
  intros Hns Hk Hka Hr Hra Hstop Hafter Hfetch Hreg Hpay Hdollar.
  assert (Hmatches : cacheMatches (before +:+ searchStrOf k r +:+ after)
                     = [ {| fullMatch := searchStrOf k r; key := k; regionName := r |} ]).
  { unfold cacheMatches.
    rewrite searchStr_begins, (matchAll_skips_before _ _ Hns), <- searchStr_begins.
    rewrite matchAll_reference by assumption. fold (cacheMatches after).
    rewrite Hafter. reflexivity. }
  unfold resolveCacheReferences. rewrite Hmatches. cbn [length Nat.ltb Nat.leb].
  change (cacheKeys [ {| fullMatch := searchStrOf k r; key := k; regionName := r |} ])
    with (if bool_decide (k ∈ @nil string) then [] else [k]).
  rewrite bool_decide_eq_false_2; [|apply not_elem_of_nil].
  cbn [resolveKeys]. rewrite Hfetch. cbn [replaceForKey key regionName].
  rewrite String.eqb_refl. unfold getProperty. rewrite Hreg.
  destruct payload as [|p0 payload]; [congruence|].
  unfold Js.replace. fold (searchStrOf k r).
  rewrite (splitFirst_reference _ _ _ _ Hns).
  rewrite getSubstitution_plain; [rewrite append_assoc; reflexivity|].
  rewrite occurs_append, replaceSemicolons_dollar, Hdollar. reflexivity.
Qed.

Lemma single_reference_is_resolved_witness :
  let before := "<mxCell" +:+ attribute "id" "hand" +:+ " style=" +:+ Js.dq
                +:+ "shape=image;" in
  let after := ";" +:+ Js.dq +:+ attribute "vertex" "1" +:+ attribute "parent" "1"
               +:+ "/>" in
  resolveCacheReferences (pageEnv (fun _ => None))
    (before +:+ searchStrOf (fst handServer) "hand" +:+ after) handPage
  = (before +:+ ("image=" +:+ Js.replaceSemicolons "data:image/png;base64,iVBORw0KGgo=")
     +:+ after,
     handPage).
Proof.
  intros before after.
  assert (Hk : fst handServer <> "") by discriminate.
  assert (Hr : "hand" <> "") by discriminate.
  assert (Hp : "data:image/png;base64,iVBORw0KGgo=" <> "") by discriminate.
  exact (single_reference_is_resolved (pageEnv (fun _ => None)) before
           (fst handServer) "hand" after "data:image/png;base64,iVBORw0KGgo="
           {[ "hand" := "data:image/png;base64,iVBORw0KGgo=" ]} handPage handPage
           eq_refl Hk eq_refl Hr eq_refl eq_refl eq_refl eq_refl eq_refl Hp eq_refl).
Defined.

(** ** Clamping a region to the image *)

Lemma clamp_side (image : Z) (v u : ExtractRegions.Rounded) :
  (1 <= image)%Z ->
  let s := ExtractRegions.clampStart image v in
  let l := ExtractRegions.clampLength image s u in
  (ExtractRegions.isNaN v || ExtractRegions.isNaN u = false ->
   ExtractRegions.insideSide image s l)
  /\ (ExtractRegions.isNaN v || ExtractRegions.isNaN u = true ->
      ExtractRegions.isNaN l = true)
  /\ (ExtractRegions.isNaN s = ExtractRegions.isNaN v)
  /\ (ExtractRegions.insideSide image v u -> s = v /\ l = u)
  /\ (ExtractRegions.differs s v || ExtractRegions.differs l u = false
      <-> ExtractRegions.insideSide image v u)
  /\ ExtractRegions.clampStart image s = s
  /\ ExtractRegions.clampLength image s l = l.
Proof.
  intros Himage.
  destruct v as [n| | |], u as [m| | |];
    cbn -[Z.min Z.max Z.sub Z.add Z.eqb];
    repeat split; try discriminate; try tauto; try lia;
    rewrite ?orb_false_iff, ?negb_false_iff, ?Z.eqb_eq;
    try (intros; f_equal; lia); try (intros [? ?]; try discriminate; lia);
    try (intros; exfalso; assumption).
Qed.

Lemma hasNaN_sides (r : ExtractRegions.Region) :
  ExtractRegions.hasNaN r
  = (ExtractRegions.isNaN (ExtractRegions.x r) || ExtractRegions.isNaN (ExtractRegions.width r))
    || (ExtractRegions.isNaN (ExtractRegions.y r) || ExtractRegions.isNaN (ExtractRegions.height r)).
Proof.
  unfold ExtractRegions.hasNaN.
  destruct (ExtractRegions.isNaN (ExtractRegions.x r)),
           (ExtractRegions.isNaN (ExtractRegions.y r)),
           (ExtractRegions.isNaN (ExtractRegions.width r)),
           (ExtractRegions.isNaN (ExtractRegions.height r)); reflexivity.
Qed.

Lemma wasAdjusted_sides (imageWidth imageHeight : Z) (r : ExtractRegions.Region) :
  ExtractRegions.wasAdjusted imageWidth imageHeight r
  = (ExtractRegions.differs (ExtractRegions.clampStart imageWidth (ExtractRegions.x r))
                            (ExtractRegions.x r)
     || ExtractRegions.differs
          (ExtractRegions.clampLength imageWidth
             (ExtractRegions.clampStart imageWidth (ExtractRegions.x r))
             (ExtractRegions.width r))
          (ExtractRegions.width r))
    || (ExtractRegions.differs (ExtractRegions.clampStart imageHeight (ExtractRegions.y r))
                               (ExtractRegions.y r)
        || ExtractRegions.differs
             (ExtractRegions.clampLength imageHeight
                (ExtractRegions.clampStart imageHeight (ExtractRegions.y r))
                (ExtractRegions.height r))
             (ExtractRegions.height r)).
Proof.
  unfold ExtractRegions.wasAdjusted, ExtractRegions.clampRegion.
  cbn [ExtractRegions.x ExtractRegions.y ExtractRegions.width ExtractRegions.height].
  repeat match goal with
         | |- context [ExtractRegions.differs ?a ?b] =>
             generalize (ExtractRegions.differs a b); intros []
         end; reflexivity.
Qed.

Lemma wasAdjusted_inside (imageWidth imageHeight : Z) (region : ExtractRegions.Region) :
  (1 <= imageWidth)%Z -> (1 <= imageHeight)%Z ->
  ExtractRegions.wasAdjusted imageWidth imageHeight region = false
  <-> ExtractRegions.inside imageWidth imageHeight region.
Proof.
  intros Hw Hh. rewrite wasAdjusted_sides, orb_false_iff.
  unfold ExtractRegions.inside.
  destruct (clamp_side imageWidth (ExtractRegions.x region)
              (ExtractRegions.width region) Hw) as (_ & _ & _ & _ & Hx & _).
  destruct (clamp_side imageHeight (ExtractRegions.y region)
              (ExtractRegions.height region) Hh) as (_ & _ & _ & _ & Hy & _).
  cbv zeta in Hx, Hy. rewrite Hx, Hy. reflexivity.
Qed.

Lemma clampRegion_inside (imageWidth imageHeight : Z) (region : ExtractRegions.Region) :
  (1 <= imageWidth)%Z -> (1 <= imageHeight)%Z ->
  ExtractRegions.hasNaN region = false ->
  ExtractRegions.inside imageWidth imageHeight
    (ExtractRegions.clampRegion imageWidth imageHeight region).
Proof.
  intros Hw Hh Hnan. rewrite hasNaN_sides in Hnan. apply orb_false_iff in Hnan.
  destruct Hnan as [Hx Hy].
  unfold ExtractRegions.inside, ExtractRegions.clampRegion.
  cbn [ExtractRegions.x ExtractRegions.y ExtractRegions.width ExtractRegions.height].
  split.
  - destruct (clamp_side imageWidth (ExtractRegions.x region)
                (ExtractRegions.width region) Hw) as (H & _). exact (H Hx).
  - destruct (clamp_side imageHeight (ExtractRegions.y region)
                (ExtractRegions.height region) Hh) as (H & _). exact (H Hy).
Qed.

Lemma clampRegion_nan (imageWidth imageHeight : Z) (region : ExtractRegions.Region) :
  (1 <= imageWidth)%Z -> (1 <= imageHeight)%Z ->
  ExtractRegions.hasNaN region = true ->
  ExtractRegions.hasNaN (ExtractRegions.clampRegion imageWidth imageHeight region) = true
  /\ ~ ExtractRegions.inside imageWidth imageHeight
        (ExtractRegions.clampRegion imageWidth imageHeight region).
Proof.
  intros Hw Hh Hnan. rewrite hasNaN_sides in Hnan.
  assert (Hside : forall image start length,
             ExtractRegions.isNaN length = true ->
             ~ ExtractRegions.insideSide image start length).
  { intros image [| | |] [| | |]; cbn; try discriminate; tauto. }
  rewrite hasNaN_sides. unfold ExtractRegions.inside, ExtractRegions.clampRegion.
  cbn [ExtractRegions.x ExtractRegions.y ExtractRegions.width ExtractRegions.height].
  destruct (clamp_side imageWidth (ExtractRegions.x region)
              (ExtractRegions.width region) Hw) as (_ & Hx & _).
  destruct (clamp_side imageHeight (ExtractRegions.y region)
              (ExtractRegions.height region) Hh) as (_ & Hy & _).
  cbv zeta in Hx, Hy. apply orb_true_iff in Hnan. destruct Hnan as [H|H].
  - rewrite (Hx H), orb_true_r. split; [reflexivity|].
    intros [Hin _]. exact (Hside _ _ _ (Hx H) Hin).
  - rewrite (Hy H), !orb_true_r. split; [reflexivity|].
    intros [_ Hin]. exact (Hside _ _ _ (Hy H) Hin).
Qed.

(** X15. For an image of at least one pixel each way.  When none of the four
    values asked for rounds to [NaN] (they are integers once rounded, or
    infinities), the rectangle that extract-regions crops lies inside the
    image and is at least one pixel wide and high.  When one of them rounds to
    [NaN] (a missing member, say), the route does not refuse the region: the
    rectangle it hands to the cropper holds [NaN] and does not lie inside the
    image.  A region that already lies
    inside the image is cropped as asked, and exactly the regions that do not
    are reported as adjusted; clamping the clamped rectangle changes nothing.
    When the metadata gives no width (0), the rectangle of a region with a
    numeric start and width is one pixel wide at the left edge. *)
Theorem crop_lies_inside_the_image (imageWidth imageHeight : Z)
    (region : ExtractRegions.Region) :
  (1 <= imageWidth)%Z -> (1 <= imageHeight)%Z ->
  let crop := ExtractRegions.clampRegion imageWidth imageHeight region in
  (ExtractRegions.hasNaN region = false ->
   ExtractRegions.inside imageWidth imageHeight crop)
  /\ (ExtractRegions.hasNaN region = true ->
      ExtractRegions.hasNaN crop = true
      /\ ~ ExtractRegions.inside imageWidth imageHeight crop)
  /\ (ExtractRegions.inside imageWidth imageHeight region -> crop = region)
  /\ (ExtractRegions.wasAdjusted imageWidth imageHeight region = false
      <-> ExtractRegions.inside imageWidth imageHeight region)
  /\ ExtractRegions.clampRegion imageWidth imageHeight crop = crop
  /\ (forall h,
        ExtractRegions.isNaN (ExtractRegions.x region) = false ->
        ExtractRegions.isNaN (ExtractRegions.width region) = false ->
        ExtractRegions.x (ExtractRegions.clampRegion 0 h region) = ExtractRegions.Int 0
        /\ ExtractRegions.width (ExtractRegions.clampRegion 0 h region)
           = ExtractRegions.Int 1).
Proof.
  intros Hw Hh. cbv zeta.
  split; [apply clampRegion_inside; assumption|].
  split; [apply clampRegion_nan; assumption|].
  pose proof (clamp_side imageWidth (ExtractRegions.x region)
                (ExtractRegions.width region) Hw) as Hx.
  pose proof (clamp_side imageHeight (ExtractRegions.y region)
                (ExtractRegions.height region) Hh) as Hy.
  cbv zeta in Hx, Hy.
  destruct Hx as (_ & _ & _ & Hxsame & _ & Hxs & Hxl).
  destruct Hy as (_ & _ & _ & Hysame & _ & Hys & Hyl).
  split; [|split; [apply wasAdjusted_inside; assumption|split]].
  - intros [Hinx Hiny]. destruct (Hxsame Hinx) as [Hx1 Hx2].
    destruct (Hysame Hiny) as [Hy1 Hy2]. destruct region as [rx ry rw rh].
    unfold ExtractRegions.clampRegion.
    cbn [ExtractRegions.x ExtractRegions.y ExtractRegions.width ExtractRegions.height]
      in *.
    rewrite Hx2, Hy2, Hx1, Hy1. reflexivity.
  - unfold ExtractRegions.clampRegion.
    cbn [ExtractRegions.x ExtractRegions.y ExtractRegions.width ExtractRegions.height].
    rewrite Hxs, Hys, Hxl, Hyl. reflexivity.
  - intros h Hnx Hnw. destruct region as [[n| | |] ry [m| | |] rh];
      try discriminate; cbn -[Z.min Z.max]; split; f_equal; lia.
Qed.

Lemma crop_lies_inside_the_image_witness :
  let region := {| ExtractRegions.x := ExtractRegions.Int 620;
                   ExtractRegions.y := ExtractRegions.Int (-5);
                   ExtractRegions.width := ExtractRegions.Infinity;
                   ExtractRegions.height := ExtractRegions.Int 40 |} in
  let unread := {| ExtractRegions.x := ExtractRegions.Int 620;
                   ExtractRegions.y := ExtractRegions.NaN;
                   ExtractRegions.width := ExtractRegions.Int 10;
                   ExtractRegions.height := ExtractRegions.Int 40 |} in
  ExtractRegions.clampRegion 640 480 region
  = {| ExtractRegions.x := ExtractRegions.Int 620;
       ExtractRegions.y := ExtractRegions.Int 0;
       ExtractRegions.width := ExtractRegions.Int 20;
       ExtractRegions.height := ExtractRegions.Int 40 |}
  /\ ExtractRegions.inside 640 480 (ExtractRegions.clampRegion 640 480 region)
  /\ ExtractRegions.wasAdjusted 640 480 region = true
  /\ ExtractRegions.clampRegion 640 480 unread
     = {| ExtractRegions.x := ExtractRegions.Int 620;
          ExtractRegions.y := ExtractRegions.NaN;
          ExtractRegions.width := ExtractRegions.Int 10;
          ExtractRegions.height := ExtractRegions.NaN |}
  /\ ~ ExtractRegions.inside 640 480 (ExtractRegions.clampRegion 640 480 unread).
Proof.
  intros region unread.
  destruct (crop_lies_inside_the_image 640 480 region ltac:(lia) ltac:(lia))
    as (Hinside & _).
  destruct (crop_lies_inside_the_image 640 480 unread ltac:(lia) ltac:(lia))
    as (_ & Hnan & _).
  split; [reflexivity|]. split; [exact (Hinside eq_refl)|].
  split; [reflexivity|]. split; [reflexivity|exact (proj2 (Hnan eq_refl))].
Defined.

(** ** The data URLs the extractor stores *)

Lemma get_beyond (s : string) (i : nat) :
  (String.length s <= i)%nat -> String.get i s = None.
Proof.
  revert i. induction s as [|c s IH]; intros i Hi; [destruct i; reflexivity|].
  destruct i as [|i]; [cbn in Hi; lia|]. cbn. apply IH. cbn in Hi. lia.
Qed.

Lemma digit_is_base64 (i : nat) : Base64.isBase64Char (Base64.digit i) = true.
Proof.
  destruct (Nat.lt_ge_cases i 64) as [Hlt|Hge].
  - assert (Hall : forallb (fun j => Base64.isBase64Char (Base64.digit j)) (seq 0 64) = true)
      by (vm_compute; reflexivity).
    rewrite forallb_forall in Hall. apply Hall, in_seq. lia.
  - unfold Base64.digit. rewrite get_beyond; [reflexivity|exact Hge].
Qed.

(** Lists can be taken apart three elements at a time. *)
Lemma list_ind3 {A : Type} (P : list A -> Prop) :
  P [] -> (forall a, P [a]) -> (forall a b, P [a; b]) ->
  (forall a b c rest, P rest -> P (a :: b :: c :: rest)) ->
  forall l, P l.
Proof.
  intros H0 H1 H2 H3.
  assert (Hall : forall n l, (length l <= n)%nat -> P l).
  { induction n as [|n IH]; intros l Hl.
    - destruct l; [exact H0|cbn in Hl; lia].
    - destruct l as [|a [|b [|c rest]]]; auto.
      apply H3, IH. cbn in Hl. lia. }
  intros l. apply (Hall (length l)). lia.
Qed.

Lemma encode_alphabet (bytes : list ascii) :
  allChars Base64.isBase64Char (Base64.encode bytes) = true.
Proof.
  induction bytes as [|a|a b|a b c rest IH] using list_ind3;
    cbn [Base64.encode allChars]; rewrite ?digit_is_base64; auto.
Qed.

Lemma encode_length (bytes : list ascii) :
  String.length (Base64.encode bytes) = (4 * ((length bytes + 2) / 3))%nat.
Proof.
  induction bytes as [|a|a b|a b c rest IH] using list_ind3; try reflexivity.
  cbn [Base64.encode String.length length]. rewrite IH.
  replace (S (S (S (length rest))) + 2)%nat with (length rest + 2 + 1 * 3)%nat by lia.
  rewrite Nat.div_add by lia. lia.
Qed.

Lemma base64_char_is_plain (c : ascii) :
  Base64.isBase64Char c = true ->
  Ascii.eqb c "$" = false /\ Ascii.eqb c ";" = false
  /\ Ascii.eqb c (ascii_of_nat 34) = false /\ Js.isWhiteSpace c = false.
Proof.
  intros H.
  assert (Hall : forallb (fun n =>
                   let c := ascii_of_nat n in
                   negb (Base64.isBase64Char c)
                   || (negb (Ascii.eqb c "$") && negb (Ascii.eqb c ";")
                       && negb (Ascii.eqb c (ascii_of_nat 34))
                       && negb (Js.isWhiteSpace c))) (seq 0 256) = true)
    by (vm_compute; reflexivity).
  rewrite forallb_forall in Hall.
  specialize (Hall (nat_of_ascii c)). rewrite ascii_nat_embedding in Hall.
  cbn zeta in Hall. rewrite H in Hall. cbn [negb orb] in Hall.
  assert (Hin : In (nat_of_ascii c) (seq 0 256)).
  { apply in_seq. pose proof (nat_ascii_bounded c). lia. }
  specialize (Hall Hin). rewrite !andb_true_iff, !negb_true_iff in Hall. tauto.
Qed.

Lemma occurs_outside_class (p : ascii -> bool) (c : ascii) (s : string) :
  p c = false -> allChars p s = true -> Js.occurs c s = false.
Proof.
  intros Hc. induction s as [|d r IH]; [reflexivity|].
  cbn [allChars Js.occurs]. rewrite andb_true_iff. intros [Hd Hr].
  rewrite (IH Hr), orb_false_r. apply Ascii.eqb_neq. intros ->. congruence.
Qed.

Lemma encode_has_no_dollar (bytes : list ascii) :
  Js.occurs "$" (Base64.encode bytes) = false.
Proof.
  apply (occurs_outside_class Base64.isBase64Char); [reflexivity|apply encode_alphabet].
Qed.

Lemma encode_has_no_semicolon (bytes : list ascii) :
  Js.occurs ";" (Base64.encode bytes) = false.
Proof.
  apply (occurs_outside_class Base64.isBase64Char); [reflexivity|apply encode_alphabet].
Qed.

(** X16. The data URL that extract-regions builds for a cropped region, for
    every content of the cropped buffer: its base64 part has four digits of the
    class [A-Za-z0-9+/=] for every three bytes begun; the URL holds no dollar
    sign; its only semicolon is the one of the media type, so the text the hook
    writes for it is [data:image/png%3Bbase64,] followed by the same digits; and
    [String.prototype.replace] inserts [image=] with that text as it is,
    whatever the match and the text around it.  So the payloads the extractor
    produces are always substituted verbatim. *)
Theorem cropped_data_url_is_inserted_verbatim (croppedBuffer : list ascii) :
  allChars Base64.isBase64Char (Base64.encode croppedBuffer) = true
  /\ String.length (Base64.encode croppedBuffer)
     = (4 * ((length croppedBuffer + 2) / 3))%nat
  /\ Js.occurs "$" (Base64.dataUrlOf croppedBuffer) = false
  /\ Js.replaceSemicolons (Base64.dataUrlOf croppedBuffer)
     = "data:image/png%3Bbase64," +:+ Base64.encode croppedBuffer
  /\ forall matched before after : string,
       Js.getSubstitution matched before after
         ("image=" +:+ Js.replaceSemicolons (Base64.dataUrlOf croppedBuffer))
       = "image=data:image/png%3Bbase64," +:+ Base64.encode croppedBuffer.
Proof.
  assert (Hsemi : Js.replaceSemicolons (Base64.dataUrlOf croppedBuffer)
                  = "data:image/png%3Bbase64," +:+ Base64.encode croppedBuffer).
  { unfold Base64.dataUrlOf.
    change ("data:image/png;base64," +:+ Base64.encode croppedBuffer)
      with (String "d" (String "a" (String "t" (String "a" (String ":"
           (String "i" (String "m" (String "a" (String "g" (String "e"
           (String "/" (String "p" (String "n" (String "g" (String ";"
           (String "b" (String "a" (String "s" (String "e" (String "6"
           (String "4" (String "," (Base64.encode croppedBuffer))))))))))))))))))))))).
    cbn [Js.replaceSemicolons Ascii.eqb Bool.eqb].
    rewrite (replaceSemicolons_plain _ (encode_has_no_semicolon croppedBuffer)).
    reflexivity. }
  assert (Hdollar : Js.occurs "$" (Base64.dataUrlOf croppedBuffer) = false).
  { unfold Base64.dataUrlOf. rewrite occurs_append, encode_has_no_dollar. reflexivity. }
  split; [apply encode_alphabet|]. split; [apply encode_length|].
  split; [exact Hdollar|]. split; [exact Hsemi|].
  intros matched before after.
  rewrite getSubstitution_plain.
  - rewrite Hsemi. reflexivity.
  - rewrite occurs_append, replaceSemicolons_dollar, Hdollar. reflexivity.
Qed.

(** ** The history sent to the model *)

Lemma stripImages_role (len idx : nat) (msg : ChatRoute.Message) :
  ChatRoute.role (ChatRoute.stripImages len idx msg) = ChatRoute.role msg.
Proof.
  unfold ChatRoute.stripImages.
  destruct (negb (String.eqb (ChatRoute.role msg) "user") || (S idx =? len)%nat);
    [reflexivity|].
  destruct (ChatRoute.content msg); try reflexivity.
  destruct (_ =? _)%nat; reflexivity.
Qed.

Lemma dropInvalidToolCalls_role (msg : ChatRoute.Message) :
  ChatRoute.role (ChatRoute.dropInvalidToolCalls msg) = ChatRoute.role msg.
Proof.
  unfold ChatRoute.dropInvalidToolCalls.
  destruct (negb _); [reflexivity|].
  destruct (ChatRoute.content msg); reflexivity.
Qed.

Lemma stripImages_hasParts (len idx : nat) (msg : ChatRoute.Message) :
  ChatRoute.hasParts msg = true ->
  ChatRoute.hasParts (ChatRoute.stripImages len idx msg) = true.
Proof.
  intros H. unfold ChatRoute.stripImages.
  destruct (negb _ || _); [exact H|].
  destruct (ChatRoute.content msg) as [| |parts] eqn:Hc; try exact H.
  destruct (length _ =? 0)%nat eqn:Hlen; [reflexivity|].
  unfold ChatRoute.hasParts. cbn [ChatRoute.withContent ChatRoute.content].
  destruct (List.filter _ parts); [discriminate Hlen|reflexivity].
Qed.

Lemma hasParts_hasContent (msg : ChatRoute.Message) :
  ChatRoute.hasParts msg = true -> ChatRoute.hasContent msg = true.
Proof.
  unfold ChatRoute.hasParts, ChatRoute.hasContent.
  destruct (ChatRoute.content msg) as [| |[|p parts]]; try discriminate; reflexivity.
Qed.

Lemma filter_no_image (parts : list ChatRoute.Part) :
  Forall (fun part => ChatRoute.isImage part = false)
         (List.filter (fun part => negb (ChatRoute.isImage part)) parts).
Proof.
  apply List.Forall_forall. intros p Hp. apply List.filter_In in Hp.
  destruct Hp as [_ Hp]. apply negb_true_iff in Hp. exact Hp.
Qed.

Lemma stripImages_imageFree (len idx : nat) (msg : ChatRoute.Message) :
  S idx <> len -> ChatRoute.imageFree (ChatRoute.stripImages len idx msg).
Proof.
  intros Hidx Hrole. rewrite stripImages_role in Hrole.
  unfold ChatRoute.stripImages. rewrite Hrole.
  apply Nat.eqb_neq in Hidx. rewrite Hidx. cbn [String.eqb Ascii.eqb Bool.eqb negb orb].
  change (("user" =? "user")%string) with true. cbn [negb orb].
  unfold ChatRoute.partsOf.
  destruct (ChatRoute.content msg) as [| |parts] eqn:Hc; rewrite ?Hc; try constructor.
  destruct (length _ =? 0)%nat; cbn [ChatRoute.withContent ChatRoute.content].
  - repeat constructor.
  - apply filter_no_image.
Qed.

Lemma dropInvalidToolCalls_imageFree (msg : ChatRoute.Message) :
  ChatRoute.imageFree msg -> ChatRoute.imageFree (ChatRoute.dropInvalidToolCalls msg).
Proof.
  intros H Hrole. rewrite dropInvalidToolCalls_role in Hrole.
  unfold ChatRoute.dropInvalidToolCalls. rewrite Hrole.
  change (negb ("user" =? "assistant")%string) with true. cbv iota.
  exact (H Hrole).
Qed.

Lemma dropInvalidToolCalls_valid (msg : ChatRoute.Message) :
  ChatRoute.toolCallsValid (ChatRoute.dropInvalidToolCalls msg).
Proof.
  intros Hrole. rewrite dropInvalidToolCalls_role in Hrole.
  unfold ChatRoute.dropInvalidToolCalls. rewrite Hrole.
  change (negb ("assistant" =? "assistant")%string) with false. cbv iota.
  unfold ChatRoute.partsOf.
  destruct (ChatRoute.content msg) as [| |parts] eqn:Hc; rewrite ?Hc; try constructor.
  cbn [ChatRoute.withContent ChatRoute.content].
  apply List.Forall_forall. intros p Hp Htype. apply List.filter_In in Hp.
  destruct Hp as [_ Hp]. unfold ChatRoute.keepsPart in Hp. rewrite Htype in Hp.
  change (("tool-call" =? "tool-call")%string) with true in Hp. cbv iota in Hp.
  destruct (ChatRoute.input p) as [| |[|k keys]]; try discriminate. eauto.
Qed.

Lemma dropInvalidToolCalls_array (msg : ChatRoute.Message) :
  ChatRoute.hasParts msg = true ->
  exists parts, ChatRoute.content (ChatRoute.dropInvalidToolCalls msg)
                = ChatRoute.ContentParts parts.
Proof.
  unfold ChatRoute.hasParts, ChatRoute.dropInvalidToolCalls.
  destruct (ChatRoute.content msg) as [| |parts] eqn:Hc; try discriminate.
  intros _. destruct (negb _); [rewrite Hc|cbn]; eauto.
Qed.

Lemma Forall_filter_bool {A : Type} (P : A -> Prop) (f : A -> bool) (l : list A) :
  Forall P l -> Forall P (List.filter f l).
Proof.
  rewrite !List.Forall_forall. intros H x Hx. apply List.filter_In in Hx.
  apply H, Hx.
Qed.

Lemma Forall_filter_true {A : Type} (f : A -> bool) (l : list A) :
  Forall (fun x => f x = true) (List.filter f l).
Proof.
  apply List.Forall_forall. intros x Hx. apply List.filter_In in Hx. apply Hx.
Qed.

Lemma Forall_imap_index {A B : Type} (P : B -> Prop) (f : nat -> A -> B) (l : list A) :
  (forall i x, l !! i = Some x -> P (f i x)) -> Forall P (imap f l).
Proof.
  intros H. apply Forall_lookup. intros i y Hy.
  rewrite list_lookup_imap in Hy. destruct (l !! i) as [x|] eqn:Hx; [|discriminate].
  injection Hy as <-. apply H, Hx.
Qed.

Lemma laterPasses_app (l1 l2 : list ChatRoute.Message) :
  ChatRoute.laterPasses (l1 ++ l2) = ChatRoute.laterPasses l1 ++ ChatRoute.laterPasses l2.
Proof.
  unfold ChatRoute.laterPasses. rewrite List.filter_app, List.map_app, List.filter_app.
  reflexivity.
Qed.

Lemma laterPasses_length (l : list ChatRoute.Message) :
  (length (ChatRoute.laterPasses l) <= length l)%nat.
Proof.
  unfold ChatRoute.laterPasses.
  etransitivity; [apply List.filter_length_le|].
  rewrite List.length_map. apply List.filter_length_le.
Qed.

Lemma laterPasses_imageFree (l : list ChatRoute.Message) :
  Forall ChatRoute.imageFree l -> Forall ChatRoute.imageFree (ChatRoute.laterPasses l).
Proof.
  intros H. unfold ChatRoute.laterPasses. apply Forall_filter_bool.
  apply List.Forall_map. apply Forall_filter_bool with (f := ChatRoute.hasContent) in H.
  revert H. apply List.Forall_impl. intros msg. apply dropInvalidToolCalls_imageFree.
Qed.

Lemma laterPasses_valid (l : list ChatRoute.Message) :
  Forall ChatRoute.toolCallsValid (ChatRoute.laterPasses l).
Proof.
  unfold ChatRoute.laterPasses. apply Forall_filter_bool. apply List.Forall_map.
  apply List.Forall_forall. intros msg _. apply dropInvalidToolCalls_valid.
Qed.

Lemma laterPasses_hasParts (l : list ChatRoute.Message) :
  Forall (fun msg => ChatRoute.hasParts msg = true) l ->
  Forall (fun msg => ChatRoute.hasParts msg = true) (ChatRoute.laterPasses l).
Proof.
  intros H. unfold ChatRoute.laterPasses.
  apply Forall_filter_bool with (f := ChatRoute.hasContent) in H.
  apply List.Forall_forall. intros msg Hmsg. apply List.filter_In in Hmsg.
  destruct Hmsg as [Hin Hcontent]. apply List.in_map_iff in Hin.
  destruct Hin as (msg0 & <- & Hin0).
  rewrite List.Forall_forall in H. specialize (H msg0 Hin0).
  destruct (dropInvalidToolCalls_array msg0 H) as [parts Hparts].
  unfold ChatRoute.hasParts, ChatRoute.hasContent in *. rewrite Hparts in *.
  destruct parts; [discriminate Hcontent|reflexivity].
Qed.

Lemma userCount_filter (f : ChatRoute.Message -> bool) (l : list ChatRoute.Message) :
  Forall (fun msg => ChatRoute.isUser msg = true -> f msg = true) l ->
  length (List.filter ChatRoute.isUser (List.filter f l))
  = length (List.filter ChatRoute.isUser l).
Proof.
  induction 1 as [|msg l Hmsg _ IH]; [reflexivity|].
  cbn [List.filter]. destruct (ChatRoute.isUser msg) eqn:Hu.
  - rewrite (Hmsg eq_refl). cbn [List.filter]. rewrite Hu. cbn [length]. congruence.
  - destruct (f msg); [cbn [List.filter]; rewrite Hu|]; exact IH.
Qed.

Lemma userCount_roles (l1 l2 : list ChatRoute.Message) :
  map ChatRoute.role l1 = map ChatRoute.role l2 ->
  length (List.filter ChatRoute.isUser l1) = length (List.filter ChatRoute.isUser l2).
Proof.
  revert l2. induction l1 as [|a l1 IH]; intros [|b l2] H; try discriminate;
    [reflexivity|].
  cbn [map] in H. injection H as Hab Hl. cbn [List.filter].
  assert (Hu : ChatRoute.isUser a = ChatRoute.isUser b)
    by (unfold ChatRoute.isUser; rewrite Hab; reflexivity).
  rewrite Hu. destruct (ChatRoute.isUser b); cbn [length]; [f_equal|]; apply IH, Hl.
Qed.

Lemma imap_roles (f : nat -> ChatRoute.Message -> ChatRoute.Message)
    (l : list ChatRoute.Message) :
  (forall i msg, ChatRoute.role (f i msg) = ChatRoute.role msg) ->
  map ChatRoute.role (imap f l) = map ChatRoute.role l.
Proof.
  revert f. induction l as [|a l IH]; intros f Hf; [reflexivity|].
  cbn [imap map]. rewrite Hf. f_equal. apply IH. intros i msg. apply Hf.
Qed.

Lemma map_roles (l : list ChatRoute.Message) :
  map ChatRoute.role (map ChatRoute.dropInvalidToolCalls l) = map ChatRoute.role l.
Proof.
  rewrite List.map_map. apply List.map_ext. apply dropInvalidToolCalls_role.
Qed.

Lemma user_survives_drop (msg : ChatRoute.Message) :
  ChatRoute.isUser msg = true -> ChatRoute.dropInvalidToolCalls msg = msg.
Proof.
  unfold ChatRoute.isUser, ChatRoute.dropInvalidToolCalls. intros H.
  apply String.eqb_eq in H. rewrite H. reflexivity.
Qed.

Lemma list_last_case {A : Type} (l : list A) :
  l = [] \/ exists front x, l = front ++ [x].
Proof. induction l using rev_ind; eauto. Qed.

(** X17. The history the chat route sends to the model, for every list of
    messages: every message has a non-empty array of parts; no assistant
    message holds a tool call whose input is not an object with at least one
    key; every user message other than the last message of the history is free
    of images; no user message with parts is lost (one made of images only is
    kept with the placeholder text), and the history is no longer than the
    list it comes from. *)
Theorem history_is_clean (placeholderMessages : list ChatRoute.Message) :
  let history := ChatRoute.enhancedMessages placeholderMessages in
  Forall (fun msg => ChatRoute.hasParts msg = true) history
  /\ Forall ChatRoute.toolCallsValid history
  /\ (forall i msg, history !! i = Some msg -> (S i < length history)%nat ->
                    ChatRoute.imageFree msg)
  /\ length (List.filter ChatRoute.isUser history)
     = length (List.filter ChatRoute.isUser
                 (List.filter ChatRoute.hasParts placeholderMessages))
  /\ (length history <= length placeholderMessages)%nat.
Proof.
  cbv zeta. unfold ChatRoute.enhancedMessages. cbv zeta.
  set (kept := List.filter ChatRoute.hasParts placeholderMessages).
  fold (ChatRoute.laterPasses (imap (ChatRoute.stripImages (length kept)) kept)).
  assert (Hkept : Forall (fun msg => ChatRoute.hasParts msg = true) kept)
    by apply Forall_filter_true.
  assert (Hstripped : Forall (fun msg => ChatRoute.hasParts msg = true)
                        (imap (ChatRoute.stripImages (length kept)) kept)).
  { apply Forall_imap_index. intros i x Hx. apply stripImages_hasParts.
    rewrite Forall_lookup in Hkept. exact (Hkept i x Hx). }
  split; [apply laterPasses_hasParts, Hstripped|].
  split; [apply laterPasses_valid|].
  split; [|split].
  - intros i msg Hi Hlast.
    destruct (list_last_case kept) as [Hnil|(front & x & Hfront)].
    + rewrite Hnil in Hi. discriminate Hi.
    + rewrite Hfront in Hi, Hlast. rewrite imap_app, laterPasses_app in Hi, Hlast.
      rewrite List.length_app in Hlast.
      match type of Hlast with
      | context [length (ChatRoute.laterPasses (imap ?g [x]))] =>
          pose proof (laterPasses_length (imap g [x])) as Hone;
          rewrite length_imap in Hone; cbn [length] in Hone
      end.
      rewrite lookup_app_l in Hi by lia.
      assert (Hfree : Forall ChatRoute.imageFree
                        (ChatRoute.laterPasses
                           (imap (ChatRoute.stripImages (length (front ++ [x]))) front))).
      { apply laterPasses_imageFree, Forall_imap_index. intros j y Hy.
        apply stripImages_imageFree. apply lookup_lt_Some in Hy.
        rewrite List.length_app. cbn [length]. lia. }
      rewrite Forall_lookup in Hfree. exact (Hfree i msg Hi).
  - unfold ChatRoute.laterPasses.
    rewrite userCount_filter.
    2:{ apply List.Forall_forall. intros msg Hin Huser.
        apply List.in_map_iff in Hin. destruct Hin as (msg0 & <- & Hin0).
        unfold ChatRoute.isUser in Huser. rewrite dropInvalidToolCalls_role in Huser.
        rewrite (user_survives_drop msg0 Huser).
        apply List.filter_In in Hin0. apply Hin0. }
    rewrite (userCount_roles _ _ (map_roles _)).
    rewrite userCount_filter.
    2:{ revert Hstripped. apply List.Forall_impl. intros msg H _.
        apply hasParts_hasContent, H. }
    apply userCount_roles, imap_roles. intros i msg. apply stripImages_role.
  - etransitivity; [apply laterPasses_length|].
    rewrite length_imap. apply List.filter_length_le.
Qed.

(** ** The cache point *)

Lemma cachePointLoop_spec (n : nat) (msgs : list ChatRoute.Message) :
  (n <= length msgs)%nat ->
  (ChatRoute.cachePointLoop n msgs = msgs
   /\ forall j msg, (j < n)%nat -> msgs !! j = Some msg ->
                    ChatRoute.role msg <> "assistant")
  \/ exists i msg,
       (i < n)%nat /\ msgs !! i = Some msg /\ ChatRoute.role msg = "assistant"
       /\ ChatRoute.cachePointLoop n msgs = <[ i := ChatRoute.withCachePoint msg ]> msgs
       /\ forall j other, (i < j < n)%nat -> msgs !! j = Some other ->
                          ChatRoute.role other <> "assistant".
Proof.
  induction n as [|n IH]; intros Hn.
  - left. split; [reflexivity|]. intros j msg Hj. lia.
  - cbn [ChatRoute.cachePointLoop].
    destruct (lookup_lt_is_Some_2 msgs n ltac:(lia)) as [msg Hmsg]. rewrite Hmsg.
    destruct (String.eqb (ChatRoute.role msg) "assistant") eqn:Hrole.
    + right. exists n, msg. apply String.eqb_eq in Hrole.
      repeat split; [lia|exact Hmsg|exact Hrole|]. intros j other Hj. lia.
    + apply String.eqb_neq in Hrole.
      destruct (IH ltac:(lia)) as [[Hsame Hnone]|(i & m & Hi & Hm & Hr & Hloop & Hbetween)].
      * left. split; [exact Hsame|]. intros j other Hj Hother.
        destruct (Nat.eq_dec j n) as [->|Hne]; [congruence|].
        apply (Hnone j other); [lia|exact Hother].
      * right. exists i, m. repeat split; [lia|exact Hm|exact Hr|exact Hloop|].
        intros j other Hj Hother.
        destruct (Nat.eq_dec j n) as [->|Hne]; [congruence|].
        apply (Hbetween j other); [lia|exact Hother].
Qed.

(** X18. The cache point of the conversation history: the list keeps its
    length, its roles and its contents; the last message is never marked;
    either no message is changed, and then caching is off, the history has
    fewer than two messages or no message before the last one is an assistant
    message, or exactly one message is given the cache point: the last
    assistant message before the final message. *)
Theorem cache_point_marks_last_assistant (shouldCache : bool)
    (msgs : list ChatRoute.Message) :
  let marked := ChatRoute.addCachePoint shouldCache msgs in
  length marked = length msgs
  /\ map ChatRoute.role marked = map ChatRoute.role msgs
  /\ map ChatRoute.content marked = map ChatRoute.content msgs
  /\ last marked = last msgs
  /\ ((marked = msgs
       /\ (shouldCache = false \/ (length msgs < 2)%nat
           \/ forall j msg, (S j < length msgs)%nat -> msgs !! j = Some msg ->
                            ChatRoute.role msg <> "assistant"))
      \/ exists i msg,
           (S i < length msgs)%nat /\ msgs !! i = Some msg
           /\ ChatRoute.role msg = "assistant"
           /\ marked = <[ i := ChatRoute.withCachePoint msg ]> msgs
           /\ forall j other, (i < j)%nat -> (S j < length msgs)%nat ->
                              msgs !! j = Some other ->
                              ChatRoute.role other <> "assistant").
Proof.
  cbv zeta. unfold ChatRoute.addCachePoint.
  destruct (shouldCache && (2 <=? length msgs)%nat) eqn:Hgo.
  2:{ repeat split; try reflexivity. left. split; [reflexivity|].
      apply andb_false_iff in Hgo. destruct Hgo as [Hgo|Hgo]; [left; exact Hgo|].
      right. left. apply Nat.leb_gt in Hgo. exact Hgo. }
  apply andb_true_iff in Hgo. destruct Hgo as [_ Hlen]. apply Nat.leb_le in Hlen.
  destruct (cachePointLoop_spec (length msgs - 1) msgs ltac:(lia))
    as [[Hsame Hnone]|(i & msg & Hi & Hmsg & Hrole & Hloop & Hbetween)].
  - rewrite Hsame. repeat split; try reflexivity. left. split; [reflexivity|].
    right. right. intros j msg Hj. apply Hnone. lia.
  - rewrite Hloop. split; [apply length_insert|].
    split; [|split; [|split]].
    + rewrite list_fmap_insert. apply list_insert_id.
      rewrite list_lookup_fmap, Hmsg. reflexivity.
    + rewrite list_fmap_insert. apply list_insert_id.
      rewrite list_lookup_fmap, Hmsg. reflexivity.
    + rewrite !last_lookup, length_insert.
      apply list_lookup_insert_ne. lia.
    + right. exists i, msg. repeat split; [lia|exact Hmsg|exact Hrole|].
      intros j other Hij Hj. apply Hbetween. lia.
Qed.

(** ** Data URLs in tool results *)

Lemma matchDataUrl_spec (s m : string) :
  ToolResults.matchDataUrl s = Some m ->
  (exists rest, s = m +:+ rest) /\ (120 <= String.length m)%nat.
Proof.
  unfold ToolResults.matchDataUrl.
  destruct (String.prefix ToolResults.dataUrlPrefix s) eqn:Hp; [|discriminate].
  apply prefix_drop in Hp.
  destruct (Js.span ToolResults.notSemicolon _) as [mediaType afterType] eqn:Hspan.
  apply span_spec in Hspan. destruct Hspan as (Hsplit & _ & _).
  destruct mediaType as [|t mediaType]; [discriminate|].
  destruct (String.prefix ToolResults.base64Marker afterType) eqn:Hp2; [|discriminate].
  apply prefix_drop in Hp2.
  destruct (Js.span Base64.isBase64Char _) as [digits afterDigits] eqn:Hspan2.
  apply span_spec in Hspan2. destruct Hspan2 as (Hsplit2 & _ & _).
  destruct (100 <=? String.length digits)%nat eqn:Hlen; [|discriminate].
  apply Nat.leb_le in Hlen. intros [= <-]. split.
  - exists afterDigits. rewrite Hp at 1. rewrite Hsplit, Hp2, Hsplit2.
    rewrite !append_assoc. reflexivity.
  - rewrite !length_append. cbn [String.length ToolResults.dataUrlPrefix
      ToolResults.base64Marker]. lia.
Qed.

Lemma truncateFrom_length (s : string) (skip : nat) :
  (String.length (ToolResults.truncateFrom skip s) <= String.length s - skip)%nat.
Proof.
  revert skip. induction s as [|c rest IH]; intros skip; [cbn; lia|].
  cbn [ToolResults.truncateFrom]. destruct skip as [|k].
  - destruct (ToolResults.matchDataUrl (String c rest)) as [m|] eqn:Hm.
    + apply matchDataUrl_spec in Hm. destruct Hm as ([after Hs] & Hlen).
      assert (Hle : (String.length m <= S (String.length rest))%nat).
      { change (S (String.length rest)) with (String.length (String c rest)).
        rewrite Hs, length_append. lia. }
      rewrite !length_append. unfold Js.substring0.
      destruct (take_split 50 m) as (post & _ & Htake). rewrite Htake.
      specialize (IH (String.length m - 1)%nat).
      cbn [String.length ToolResults.truncationNote]. lia.
    + cbn [String.length]. specialize (IH 0%nat). lia.
  - cbn [String.length]. apply IH.
Qed.

Lemma truncateFrom_skip (a b : string) :
  ToolResults.truncateFrom (String.length a) (a +:+ b) = ToolResults.truncateFrom 0 b.
Proof.
  induction a as [|c a IH]; [reflexivity|].
  rewrite append_cons. cbn [String.length ToolResults.truncateFrom]. exact IH.
Qed.

Lemma includes_cons_false (c : ascii) (s needle : string) :
  Js.includes (String c s) needle = false ->
  String.prefix needle (String c s) = false /\ Js.includes s needle = false.
Proof.
  unfold Js.includes. cbn [Js.splitFirst].
  destruct (String.prefix needle (String c s)); [discriminate|].
  destruct (Js.splitFirst needle s) as [[before after]|]; [discriminate|]. auto.
Qed.

Lemma truncate_unchanged (s : string) :
  Js.includes s ToolResults.dataUrlPrefix = false ->
  ToolResults.truncateFrom 0 s = s.
Proof.
  induction s as [|c s IH]; intros H; [reflexivity|].
  apply includes_cons_false in H. destruct H as [Hp Hs].
  cbn [ToolResults.truncateFrom]. unfold ToolResults.matchDataUrl. rewrite Hp.
  rewrite (IH Hs). reflexivity.
Qed.

Lemma matchDataUrl_extractor (bytes : list ascii) (after : string) :
  (73 <= length bytes)%nat -> stopsAt Base64.isBase64Char after = true ->
  ToolResults.matchDataUrl (Base64.dataUrlOf bytes +:+ after)
  = Some (Base64.dataUrlOf bytes).
Proof.
  intros Hlen Hafter. unfold ToolResults.matchDataUrl, Base64.dataUrlOf.
  change "data:image/png;base64,"
    with (ToolResults.dataUrlPrefix +:+ "png" +:+ ToolResults.base64Marker).
  rewrite !append_assoc. rewrite prefix_append, drop_append.
  rewrite (span_append ToolResults.notSemicolon "png"); [|reflexivity|reflexivity].
  cbv iota. rewrite prefix_append, drop_append.
  rewrite (span_append _ _ _ (encode_alphabet bytes) Hafter).
  rewrite encode_length.
  assert (H100 : (100 <= 4 * ((length bytes + 2) / 3))%nat).
  { assert (25 <= (length bytes + 2) / 3)%nat; [|lia].
    apply Nat.div_le_lower_bound; lia. }
  apply Nat.leb_le in H100. rewrite H100. reflexivity.
Qed.

(** X19. Truncation of data URLs in a tool result: the result never becomes
    longer; a text without [data:image/] is returned as it is; and a data URL
    built by extract-regions from a cropped buffer of at least 73 bytes,
    followed by text that does not go on with a base64 digit, is cut to
    [data:image/png;base64,] with its first 28 digits and the note, the
    search going on in the text after it. *)
Theorem data_urls_are_truncated (result : string) :
  (String.length (ToolResults.truncateDataUrls result) <= String.length result)%nat
  /\ (Js.includes result ToolResults.dataUrlPrefix = false ->
      ToolResults.truncateDataUrls result = result)
  /\ (forall (croppedBuffer : list ascii),
        (73 <= length croppedBuffer)%nat ->
        stopsAt Base64.isBase64Char result = true ->
        ToolResults.truncateDataUrls (Base64.dataUrlOf croppedBuffer +:+ result)
        = "data:image/png;base64,"
          +:+ Js.substring0 28 (Base64.encode croppedBuffer)
          +:+ ToolResults.truncationNote
          +:+ ToolResults.truncateDataUrls result).
Proof.
  split; [|split].
  - pose proof (truncateFrom_length result 0). unfold ToolResults.truncateDataUrls. lia.
  - apply truncate_unchanged.
  - intros croppedBuffer Hlen Hresult. unfold ToolResults.truncateDataUrls.
    pose proof (matchDataUrl_extractor croppedBuffer result Hlen Hresult) as Hm.
    destruct (Base64.dataUrlOf croppedBuffer +:+ result) as [|c tail] eqn:Hs;
      [discriminate Hs|].
    cbn [ToolResults.truncateFrom]. rewrite Hm.
    assert (Htail : exists d, Base64.dataUrlOf croppedBuffer = String c d
                              /\ tail = d +:+ result).
    { unfold Base64.dataUrlOf in Hs |- *.
      change "data:image/png;base64," with (String "d" "ata:image/png;base64,") in Hs |- *.
      rewrite !append_cons in Hs. injection Hs as <- <-.
      eexists. split; [rewrite append_cons; reflexivity|]. rewrite append_assoc.
      reflexivity. }
    destruct Htail as (d & Hd & ->). rewrite Hd.
    change (String.length (String c d) - 1)%nat with (String.length d - 0)%nat.
    rewrite Nat.sub_0_r, truncateFrom_skip. rewrite <- Hd.
    assert (Htake : Js.substring0 50 (Base64.dataUrlOf croppedBuffer)
                    = "data:image/png;base64,"
                      +:+ Js.substring0 28 (Base64.encode croppedBuffer))
      by reflexivity.
    rewrite Htake, !append_assoc. reflexivity.
Qed.

(** ** The name of a shape library *)

Lemma removeOthers_class (s : string) :
  allChars ShapeLibrary.isNameChar (ShapeLibrary.removeOthers s) = true.
Proof.
  induction s as [|c s IH]; [reflexivity|]. cbn [ShapeLibrary.removeOthers].
  destruct (ShapeLibrary.isNameChar c) eqn:Hc; [|exact IH].
  cbn [allChars]. rewrite Hc, IH. reflexivity.
Qed.

Lemma removeOthers_fixed (s : string) :
  ShapeLibrary.removeOthers s = s <-> allChars ShapeLibrary.isNameChar s = true.
Proof.
  split.
  - intros H. rewrite <- H. apply removeOthers_class.
  - induction s as [|c s IH]; [reflexivity|]. cbn [allChars ShapeLibrary.removeOthers].
    intros H. apply andb_true_iff in H. destruct H as [Hc Hs].
    rewrite Hc, (IH Hs). reflexivity.
Qed.

Lemma name_is_accepted (node : ShapeLibrary.Node) (library : string) :
  String.eqb (ShapeLibrary.sanitizedLibrary node library)
             (ShapeLibrary.toLowerCase node library)
  = allChars ShapeLibrary.isNameChar (ShapeLibrary.toLowerCase node library).
Proof.
  unfold ShapeLibrary.sanitizedLibrary.
  destruct (allChars ShapeLibrary.isNameChar (ShapeLibrary.toLowerCase node library))
    eqn:Hc.
  - apply String.eqb_eq, removeOthers_fixed, Hc.
  - apply String.eqb_neq. intros H. apply removeOthers_fixed in H. congruence.
Qed.

(** X20. The tool get_shape_library, whatever the lower-casing of the
    runtime does: the sanitized name holds only code units of [a-z0-9_-], so
    the file name built from it holds no slash, no backslash and no dot other
    than the one of its extension, whatever the library asked for; a library
    name is accepted exactly when its lower-cased form holds only code units
    of [a-z0-9_-]; a name that is not accepted is answered with the
    invalid-name message, whatever the file system holds; for an accepted name
    the one file read is the lower-cased name with [.md] in the directory of
    the shape libraries. *)
Theorem library_name_is_one_segment (node : ShapeLibrary.Node) (library : string) :
  let lower := ShapeLibrary.toLowerCase node library in
  allChars ShapeLibrary.isNameChar (ShapeLibrary.sanitizedLibrary node library) = true
  /\ Js.occurs "/" (ShapeLibrary.fileName node library) = false
  /\ Js.occurs "\" (ShapeLibrary.fileName node library) = false
  /\ Js.occurs "." (ShapeLibrary.sanitizedLibrary node library) = false
  /\ (allChars ShapeLibrary.isNameChar lower = false ->
      forall other : ShapeLibrary.Node,
        ShapeLibrary.toLowerCase other library = lower ->
        ShapeLibrary.execute other library
        = "Invalid library name " +:+ Js.dq +:+ library +:+ Js.dq
          +:+ ". Use only letters, numbers, underscores, and hyphens.")
  /\ (allChars ShapeLibrary.isNameChar lower = true ->
      let baseDir :=
        ShapeLibrary.pathJoin node (ShapeLibrary.cwd node) "docs/shape-libraries" in
      let filePath := ShapeLibrary.pathJoin node baseDir (lower +:+ ".md") in
      ShapeLibrary.execute node library
      = if Js.startsWith (ShapeLibrary.pathResolve node filePath)
                         (ShapeLibrary.pathResolve node baseDir)
        then ShapeLibrary.answer library (ShapeLibrary.readFile node filePath)
        else "Invalid library path.").
Proof.
  cbv zeta.
  assert (Hclass : allChars ShapeLibrary.isNameChar
                     (ShapeLibrary.sanitizedLibrary node library) = true)
    by apply removeOthers_class.
  split; [exact Hclass|].
  split; [|split; [|split; [|split]]].
  - unfold ShapeLibrary.fileName. rewrite occurs_append.
    rewrite (occurs_outside_class ShapeLibrary.isNameChar); [reflexivity|reflexivity|exact Hclass].
  - unfold ShapeLibrary.fileName. rewrite occurs_append.
    rewrite (occurs_outside_class ShapeLibrary.isNameChar); [reflexivity|reflexivity|exact Hclass].
  - apply (occurs_outside_class ShapeLibrary.isNameChar); [reflexivity|exact Hclass].
  - intros Hbad other Hother. unfold ShapeLibrary.execute.
    rewrite name_is_accepted, Hother, Hbad. reflexivity.
  - intros Hgood.
    assert (Hname : ShapeLibrary.sanitizedLibrary node library
                    = ShapeLibrary.toLowerCase node library).
    { apply String.eqb_eq. rewrite name_is_accepted. exact Hgood. }
    unfold ShapeLibrary.execute.
    rewrite name_is_accepted, Hgood. cbn [negb]. cbv iota zeta.
    unfold ShapeLibrary.fileName. rewrite Hname.
    destruct (Js.startsWith _ _); reflexivity.
Qed.

(** ** The access code *)

Lemma split_pieces (sep : ascii) (s : string) :
  JsText.split sep s <> []
  /\ Forall (fun piece => Js.occurs sep piece = false) (JsText.split sep s).
Proof.
  induction s as [|c s [Hne IH]]; [split; [discriminate|repeat constructor]|].
  cbn [JsText.split]. destruct (Ascii.eqb c sep) eqn:Hc.
  - split; [discriminate|]. constructor; [reflexivity|exact IH].
  - destruct (JsText.split sep s) as [|piece pieces]; [congruence|].
    split; [discriminate|]. inversion IH as [|? ? Hpiece Hpieces]; subst.
    constructor; [|exact Hpieces]. cbn [Js.occurs].
    rewrite Hpiece, orb_false_r. rewrite Ascii.eqb_sym. exact Hc.
Qed.

Lemma occurs_trimStart (c : ascii) (s : string) :
  Js.occurs c s = false -> Js.occurs c (Js.trimStart s) = false.
Proof.
  induction s as [|d s IH]; [reflexivity|]. cbn [Js.trimStart].
  destruct (Js.isWhiteSpace d); [|auto]. cbn [Js.occurs].
  intros H. apply orb_false_iff in H. apply IH, H.
Qed.

Lemma occurs_trimEnd (c : ascii) (s : string) :
  Js.occurs c s = false -> Js.occurs c (Js.trimEnd s) = false.
Proof.
  induction s as [|d s IH]; [reflexivity|]. cbn [Js.trimEnd Js.occurs].
  intros H. apply orb_false_iff in H. destruct H as [Hd Hs]. specialize (IH Hs).
  destruct (Js.trimEnd s) as [|e r].
  - destruct (Js.isWhiteSpace d); [reflexivity|]. cbn [Js.occurs]. rewrite Hd. reflexivity.
  - cbn [Js.occurs] in *. rewrite Hd. exact IH.
Qed.

Lemma trimStart_head (s : string) :
  Js.trimStart s = ""
  \/ exists c r, Js.trimStart s = String c r /\ Js.isWhiteSpace c = false.
Proof.
  induction s as [|c s IH]; [left; reflexivity|]. cbn [Js.trimStart].
  destruct (Js.isWhiteSpace c) eqn:Hc; [exact IH|]. right. eauto.
Qed.

Lemma trimEnd_idempotent (s : string) : Js.trimEnd (Js.trimEnd s) = Js.trimEnd s.
Proof.
  induction s as [|c s IH]; [reflexivity|]. cbn [Js.trimEnd].
  destruct (Js.trimEnd s) as [|d r] eqn:Hs.
  - destruct (Js.isWhiteSpace c) eqn:Hc; [reflexivity|]. cbn [Js.trimEnd].
    rewrite Hc. reflexivity.
  - cbn [Js.trimEnd] in IH |- *. rewrite IH. reflexivity.
Qed.

Lemma trimEnd_keeps_head (c : ascii) (r : string) :
  Js.isWhiteSpace c = false -> exists r', Js.trimEnd (String c r) = String c r'.
Proof.
  intros Hc. cbn [Js.trimEnd]. destruct (Js.trimEnd r); [rewrite Hc|]; eauto.
Qed.

Lemma trim_idempotent (s : string) : Js.trim (Js.trim s) = Js.trim s.
Proof.
  unfold Js.trim.
  destruct (trimStart_head s) as [->|(c & r & -> & Hc)]; [reflexivity|].
  destruct (trimEnd_keeps_head c r Hc) as [r' Hr'].
  assert (Hstart : Js.trimStart (Js.trimEnd (String c r)) = Js.trimEnd (String c r)).
  { rewrite Hr'. cbn [Js.trimStart]. rewrite Hc. reflexivity. }
  rewrite Hstart. apply trimEnd_idempotent.
Qed.

Lemma occurs_trim (c : ascii) (s : string) :
  Js.occurs c s = false -> Js.occurs c (Js.trim s) = false.
Proof. intros H. apply occurs_trimEnd, occurs_trimStart, H. Qed.

Lemma accessCodes_clean (ACCESS_CODE_LIST : option string) :
  Forall (fun code => code <> "" /\ Js.occurs "," code = false /\ Js.trim code = code)
         (AccessCode.accessCodes ACCESS_CODE_LIST).
Proof.
  destruct ACCESS_CODE_LIST as [list|]; [|constructor]. cbn [AccessCode.accessCodes].
  apply List.Forall_forall. intros code Hin. apply List.filter_In in Hin.
  destruct Hin as [Hin Hne]. apply negb_true_iff, String.eqb_neq in Hne.
  apply List.in_map_iff in Hin. destruct Hin as (piece & <- & Hpiece).
  split; [exact Hne|]. split; [|apply trim_idempotent].
  apply occurs_trim. destruct (split_pieces "," list) as [_ Hall].
  rewrite List.Forall_forall in Hall. apply Hall, Hpiece.
Qed.

Lemma trimStart_empty (s : string) :
  Js.trimStart s = "" -> allWhiteSpace s = true.
Proof.
  induction s as [|c s IH]; [reflexivity|]. cbn [Js.trimStart allWhiteSpace].
  destruct (Js.isWhiteSpace c); [exact IH|discriminate].
Qed.

Lemma trim_empty (s : string) : Js.trim s = "" <-> allWhiteSpace s = true.
Proof.
  split.
  - unfold Js.trim. intros H.
    destruct (trimStart_head s) as [Hs|(c & r & Hs & Hc)]; [apply trimStart_empty, Hs|].
    rewrite Hs in H. destruct (trimEnd_keeps_head c r Hc) as [r' Hr']. congruence.
  - intros H. unfold Js.trim. rewrite (trimStart_whitespace _ H). reflexivity.
Qed.

Lemma split_blank (list : string) :
  Forall (fun piece => allWhiteSpace piece = true) (JsText.split "," list)
  <-> allChars (fun c => Js.isWhiteSpace c || Ascii.eqb c ",") list = true.
Proof.
  induction list as [|c r IH]; [split; [reflexivity|repeat constructor]|].
  cbn [JsText.split allChars]. destruct (Ascii.eqb c ",") eqn:Hc.
  - rewrite orb_true_r, andb_true_l, <- IH. split.
    + intros H. inversion H; assumption.
    + intros H. constructor; [reflexivity|exact H].
  - rewrite orb_false_r, andb_true_iff, <- IH.
    destruct (split_pieces "," r) as [Hne _].
    destruct (JsText.split "," r) as [|piece pieces]; [congruence|]. split.
    + intros H. inversion H as [|? ? Hp Hps]; subst. cbn [allWhiteSpace] in Hp.
      apply andb_true_iff in Hp. destruct Hp as [Hws Hp].
      split; [exact Hws|constructor; assumption].
    + intros [Hws H]. inversion H as [|? ? Hp Hps]; subst.
      constructor; [|exact Hps]. cbn [allWhiteSpace]. rewrite Hws, Hp. reflexivity.
Qed.

Lemma accessCodes_none (list : string) :
  AccessCode.accessCodes (Some list) = []
  <-> allChars (fun c => Js.isWhiteSpace c || Ascii.eqb c ",") list = true.
Proof.
  rewrite <- split_blank. cbn [AccessCode.accessCodes].
  induction (JsText.split "," list) as [|piece pieces IH];
    [split; [constructor|reflexivity]|].
  cbn [map List.filter].
  destruct (String.eqb_spec (Js.trim piece) "") as [Hp|Hp]; cbn [negb].
  - rewrite IH. apply trim_empty in Hp. split.
    + intros H. constructor; assumption.
    + intros H. inversion H; assumption.
  - split; [discriminate|]. intros H. inversion H as [|? ? Hws _]; subst.
    apply trim_empty in Hws. congruence.
Qed.

Lemma stripStart_leading (ws s : string) :
  allChars AccessCode.isHttpWhitespace ws = true ->
  AccessCode.stripStart (ws +:+ s) = AccessCode.stripStart s.
Proof.
  induction ws as [|c ws IH]; [reflexivity|]. cbn [allChars].
  intros H. apply andb_true_iff in H. destruct H as [Hc Hws].
  rewrite append_cons. cbn [AccessCode.stripStart]. rewrite Hc. apply IH, Hws.
Qed.

Lemma stripStart_blank (ws : string) :
  allChars AccessCode.isHttpWhitespace ws = true -> AccessCode.stripStart ws = "".
Proof.
  induction ws as [|c ws IH]; [reflexivity|]. cbn [allChars AccessCode.stripStart].
  intros H. apply andb_true_iff in H. destruct H as [Hc Hws].
  rewrite Hc. apply IH, Hws.
Qed.

Lemma stripStart_trailing (s ws : string) :
  allChars AccessCode.isHttpWhitespace ws = true ->
  AccessCode.stripStart (s +:+ ws)
  = if allChars AccessCode.isHttpWhitespace s then ""
    else AccessCode.stripStart s +:+ ws.
Proof.
  intros Hws. induction s as [|c s IH].
  - cbn. apply stripStart_blank, Hws.
  - rewrite append_cons. cbn [AccessCode.stripStart allChars].
    destruct (AccessCode.isHttpWhitespace c); cbn; [exact IH|reflexivity].
Qed.

Lemma stripEnd_blank (ws : string) :
  allChars AccessCode.isHttpWhitespace ws = true -> AccessCode.stripEnd ws = "".
Proof.
  induction ws as [|c ws IH]; [reflexivity|]. cbn [allChars AccessCode.stripEnd].
  intros H. apply andb_true_iff in H. destruct H as [Hc Hws].
  rewrite (IH Hws), Hc. reflexivity.
Qed.

Lemma stripEnd_trailing (s ws : string) :
  allChars AccessCode.isHttpWhitespace ws = true ->
  AccessCode.stripEnd (s +:+ ws) = AccessCode.stripEnd s.
Proof.
  intros Hws. induction s as [|c s IH].
  - cbn. apply stripEnd_blank, Hws.
  - rewrite append_cons. cbn [AccessCode.stripEnd]. rewrite IH. reflexivity.
Qed.

Lemma normalize_surrounded (ws value ws' : string) :
  allChars AccessCode.isHttpWhitespace ws = true ->
  allChars AccessCode.isHttpWhitespace ws' = true ->
  AccessCode.normalize (ws +:+ value +:+ ws') = AccessCode.normalize value.
Proof.
  intros Hws Hws'. unfold AccessCode.normalize.
  rewrite (stripStart_leading _ _ Hws), (stripStart_trailing _ _ Hws').
  destruct (allChars AccessCode.isHttpWhitespace value) eqn:Hv.
  - rewrite (stripStart_blank _ Hv). reflexivity.
  - apply stripEnd_trailing, Hws'.
Qed.

(** X21. The access code of the chat route.  Every configured code is a
    non-empty text without a comma and without white space at either end.  No
    code is configured exactly when the list is unset or holds nothing but
    commas and white space.  A request passes exactly when no code is
    configured or the header as the handler reads it is one of the codes.
    The handler reads the header with the blanks, tabs and line ends at its
    two ends stripped, so these never decide.  Once a code is configured, a
    request without the header, with an empty one, with one sent more than
    once, or with one that after the stripping still has white space at an
    end (a no-break space, say) is answered 401. *)
Theorem access_code_gate (ACCESS_CODE_LIST : option string) (sent : list string) :
  let codes := AccessCode.accessCodes ACCESS_CODE_LIST in
  let accessCodeHeader := AccessCode.headersGet sent in
  Forall (fun code => code <> "" /\ Js.occurs "," code = false /\ Js.trim code = code)
         codes
  /\ (codes = []
      <-> match ACCESS_CODE_LIST with
          | None => True
          | Some list =>
              allChars (fun c => Js.isWhiteSpace c || Ascii.eqb c ",") list = true
          end)
  /\ (AccessCode.rejects ACCESS_CODE_LIST sent = false
      <-> codes = [] \/ exists header, accessCodeHeader = Some header /\ In header codes)
  /\ (forall ws value ws' : string,
        allChars AccessCode.isHttpWhitespace ws = true ->
        allChars AccessCode.isHttpWhitespace ws' = true ->
        AccessCode.rejects ACCESS_CODE_LIST [ws +:+ value +:+ ws']
        = AccessCode.rejects ACCESS_CODE_LIST [value])
  /\ (codes <> [] ->
      match sent with
      | [] => True
      | [value] => AccessCode.normalize value = ""
                   \/ Js.trim (AccessCode.normalize value) <> AccessCode.normalize value
      | _ :: _ :: _ => True
      end ->
      AccessCode.rejects ACCESS_CODE_LIST sent = true).
Proof.
  cbv zeta. pose proof (accessCodes_clean ACCESS_CODE_LIST) as Hclean.
  assert (Hiff : AccessCode.rejects ACCESS_CODE_LIST sent = false
                 <-> AccessCode.accessCodes ACCESS_CODE_LIST = []
                     \/ exists header, AccessCode.headersGet sent = Some header
                                       /\ In header (AccessCode.accessCodes ACCESS_CODE_LIST)).
  { unfold AccessCode.rejects. cbv zeta.
    destruct (AccessCode.accessCodes ACCESS_CODE_LIST) as [|code codes] eqn:Hcodes.
    - cbn. split; [left; reflexivity|reflexivity].
    - cbn [length Nat.ltb Nat.leb]. rewrite List.Forall_forall in Hclean. split.
      + intros H. right.
        destruct (AccessCode.headersGet sent) as [[|c h]|]; try discriminate.
        cbn [truthy] in H. apply negb_false_iff, List.existsb_exists in H.
        destruct H as (x & Hx & Heq). apply String.eqb_eq in Heq. subst x. eauto.
      + intros [H|(header & -> & Hin)]; [discriminate|].
        destruct (Hclean header Hin) as (Hne & _).
        destruct header as [|c h]; [congruence|]. cbn [truthy].
        apply negb_false_iff, List.existsb_exists. exists (String c h).
        split; [exact Hin|apply String.eqb_refl]. }
  split; [exact Hclean|].
  split; [destruct ACCESS_CODE_LIST as [list|];
          [apply accessCodes_none|split; reflexivity]|].
  split; [exact Hiff|]. split.
  - intros ws value ws' Hws Hws'. unfold AccessCode.rejects, AccessCode.headersGet.
    cbn [map AccessCode.joinValues]. rewrite (normalize_surrounded _ _ _ Hws Hws').
    reflexivity.
  - intros Hne Hsent. apply not_false_iff_true. intros Hr.
    apply Hiff in Hr. destruct Hr as [Hr|(header & Hget & Hin)]; [congruence|].
    rewrite List.Forall_forall in Hclean. destruct (Hclean header Hin) as (H1 & H2 & H3).
    destruct sent as [|value [|value' rest]].
    + discriminate Hget.
    + cbn in Hget. injection Hget as <-. destruct Hsent; congruence.
    + unfold AccessCode.headersGet in Hget. injection Hget as Hget.
      change (map AccessCode.normalize (value :: value' :: rest))
        with (AccessCode.normalize value :: AccessCode.normalize value'
              :: map AccessCode.normalize rest) in Hget.
      rewrite <- Hget, occurs_append in H2. apply orb_false_iff in H2.
      destruct H2 as [_ H2]. rewrite occurs_append in H2. discriminate H2.
Qed.

(** ** Answers to errors *)

Lemma splitFirst_of_longer (a b s : string) :
  Js.splitFirst (a +:+ b) s <> None -> Js.splitFirst a s <> None.
Proof.
  induction s as [|c s IH].
  - cbn [Js.splitFirst].
    destruct (String.prefix (a +:+ b) "") eqn:Hp; [|congruence].
    rewrite (prefix_of_prefix _ _ _ Hp). discriminate.
  - cbn [Js.splitFirst].
    destruct (String.prefix (a +:+ b) (String c s)) eqn:Hp.
    + rewrite (prefix_of_prefix _ _ _ Hp). discriminate.
    + destruct (Js.splitFirst (a +:+ b) s) as [[x y]|]; [|congruence]. intros _.
      destruct (String.prefix a (String c s)); [discriminate|].
      destruct (Js.splitFirst a s) as [[x' y']|]; [discriminate|].
      exfalso. apply IH; [discriminate|reflexivity].
Qed.

Lemma includes_of_longer (s a b : string) :
  Js.includes s (a +:+ b) = true -> Js.includes s a = true.
Proof.
  unfold Js.includes. intros H.
  pose proof (splitFirst_of_longer a b s) as Hs.
  destruct (Js.splitFirst (a +:+ b) s); [|discriminate].
  destruct (Js.splitFirst a s); [reflexivity|]. exfalso. apply Hs; [discriminate|reflexivity].
Qed.

Lemma looksSensitive_words (lowerMessage : string) :
  ChatErrors.looksSensitive lowerMessage = false <->
  Forall (fun word => Js.includes lowerMessage word = false) ChatErrors.sensitiveWords.
Proof.
  unfold ChatErrors.looksSensitive, ChatErrors.sensitiveWords. split.
  - intros H. rewrite !orb_false_iff in H.
    destruct H as ((((((H1 & H2) & H3) & H4) & H5) & H6) & H7).
    repeat constructor; assumption.
  - intros H.
    repeat match goal with
           | H : Forall _ (_ :: _) |- _ => inversion H; subst; clear H
           end.
    rewrite !orb_false_iff. repeat split; assumption.
Qed.

(** X22. Answers of the chat route to an error.  Outside development the
    answer carries neither details nor a stack.  The status is never 0.  For
    an error that is neither an API-call error nor a missing key, the message
    is either replaced by the fixed authentication text or is passed on, and
    is passed on only when its lower-cased form holds none of the seven
    words; the test for [signature] decides nothing, as [sig] is tested too.
    The message of an API-call error is passed on as it is, unfiltered. *)
Theorem error_answers_are_filtered (isDev : bool) (error : ChatErrors.Thrown) :
  let answer := ChatErrors.handleError isDev error in
  (isDev = false ->
   ChatErrors.r_details answer = None /\ ChatErrors.r_stack answer = None)
  /\ ChatErrors.r_status answer <> 0%Z
  /\ (ChatErrors.class error = ChatErrors.OtherError
      \/ ChatErrors.class error = ChatErrors.NotAnError ->
      ChatErrors.r_error answer = ChatErrors.authenticationFailed
      \/ (Forall (fun word =>
                    Js.includes (JsText.toLowerCase (ChatErrors.r_error answer)) word
                    = false)
                 ChatErrors.sensitiveWords
          /\ ChatErrors.r_error answer
             = match ChatErrors.class error with
               | ChatErrors.NotAnError => "An unexpected error occurred"
               | _ => ChatErrors.message error
               end))
  /\ (forall lowerMessage,
        Js.includes lowerMessage "signature" = true ->
        Js.includes lowerMessage "sig" = true)
  /\ (ChatErrors.class error = ChatErrors.APICallError ->
      ChatErrors.r_error answer = ChatErrors.message error).
Proof.
  cbv zeta.
  assert (Hor : forall a b, b <> 0%Z -> ChatErrors.orElse a b <> 0%Z).
  { intros [n|] b Hb; cbn [ChatErrors.orElse]; [|exact Hb].
    destruct (Z.eqb_spec n 0); [exact Hb|assumption]. }
  split; [|split; [|split; [|split]]].
  - intros ->. unfold ChatErrors.handleError.
    destruct (ChatErrors.class error); cbn; auto.
  - unfold ChatErrors.handleError.
    destruct (ChatErrors.class error); cbn [ChatErrors.r_status];
      try (apply Hor; try apply Hor; lia). lia.
  - intros Hclass. unfold ChatErrors.handleError.
    destruct Hclass as [Hclass|Hclass]; rewrite Hclass; cbv zeta;
      cbn [ChatErrors.r_error].
    + destruct (ChatErrors.looksSensitive _) eqn:Hs; [left; reflexivity|].
      right. split; [apply looksSensitive_words, Hs|reflexivity].
    + destruct (ChatErrors.looksSensitive _) eqn:Hs; [left; reflexivity|].
      right. split; [apply looksSensitive_words, Hs|reflexivity].
  - intros lowerMessage. apply (includes_of_longer lowerMessage "sig" "nature").
  - intros Hclass. unfold ChatErrors.handleError. rewrite Hclass. reflexivity.
Qed.

(** ** From the extractor to the chart *)

Lemma kept_is_a_region (n url : string) (regions : list RegionCache.ExtractedRegion) :
  keptDataUrl n regions = Some url ->
  exists r, In r regions /\ RegionCache.name r = n
            /\ truthy (RegionCache.error r) = None /\ RegionCache.dataUrl r = url.
Proof.
  induction regions as [|r rest IH]; [discriminate|]. cbn [keptDataUrl].
  destruct (keptDataUrl n rest) as [d|].
  - intros H. destruct (IH H) as (r0 & Hin & Hr0). exists r0. split; [right; exact Hin|exact Hr0].
  - destruct (String.eqb_spec (RegionCache.name r) n) as [Hn|]; [|discriminate].
    destruct (negb (String.eqb n "__proto__")); [|discriminate].
    destruct (truthy (RegionCache.error r)) eqn:He; [discriminate|].
    cbn [andb]. intros [= <-]. exists r. repeat split; [left; reflexivity|exact Hn|exact He].
Qed.

Lemma dataUrl_is_plain (croppedBuffer : list ascii) (matched before after : string) :
  Js.occurs "$" (Base64.dataUrlOf croppedBuffer) = false
  /\ Js.getSubstitution matched before after
       ("image=" +:+ Js.replaceSemicolons (Base64.dataUrlOf croppedBuffer))
     = "image=data:image/png%3Bbase64," +:+ Base64.encode croppedBuffer.
Proof.
  assert (Hdollar : Js.occurs "$" (Base64.dataUrlOf croppedBuffer) = false).
  { unfold Base64.dataUrlOf. rewrite occurs_append, encode_has_no_dollar. reflexivity. }
  split; [exact Hdollar|].
  rewrite getSubstitution_plain.
  - unfold Base64.dataUrlOf.
    change ("data:image/png;base64," +:+ Base64.encode croppedBuffer)
      with (String "d" (String "a" (String "t" (String "a" (String ":"
           (String "i" (String "m" (String "a" (String "g" (String "e"
           (String "/" (String "p" (String "n" (String "g" (String ";"
           (String "b" (String "a" (String "s" (String "e" (String "6"
           (String "4" (String "," (Base64.encode croppedBuffer))))))))))))))))))))))).
    cbn [Js.replaceSemicolons Ascii.eqb Bool.eqb].
    rewrite (replaceSemicolons_plain _ (encode_has_no_semicolon croppedBuffer)).
    reflexivity.
  - rewrite occurs_append, replaceSemicolons_dollar, Hdollar. reflexivity.
Qed.

(** X23. From the extractor to the chart: whatever image, regions and crop
    results a request to extract-regions has, every payload that the chat
    route then keeps in the region cache under a region name was built from
    the cropped bytes of a region of that name whose crop succeeded on the
    clamped rectangle; it is [data:image/png;base64,] followed by base64
    digits, holds no dollar sign, and is written into the diagram text by the
    hook as it is, with its one semicolon as [%3B]. *)
Theorem cached_payloads_are_inserted_verbatim
    (crop : ExtractRegions.Region -> Extractor.CropOutcome)
    (imageWidth imageHeight : Z) (requests : list Extractor.RegionRequest)
    (n url : string) :
  RegionCache.regionMappingOf
    (Extractor.extractedRegions crop imageWidth imageHeight requests) !! n = Some url ->
  exists request croppedBuffer,
    In request requests
    /\ Extractor.name request = n
    /\ crop (ExtractRegions.clampRegion imageWidth imageHeight
               (Extractor.region request))
       = Extractor.Cropped croppedBuffer
    /\ url = Base64.dataUrlOf croppedBuffer
    /\ Js.occurs "$" url = false
    /\ forall matched before after : string,
         Js.getSubstitution matched before after
           ("image=" +:+ Js.replaceSemicolons url)
         = "image=data:image/png%3Bbase64," +:+ Base64.encode croppedBuffer.
Proof.
  intros Hurl. unfold RegionCache.regionMappingOf in Hurl.
  rewrite regionMapping_fold in Hurl.
  destruct (keptDataUrl n _) as [d|] eqn:Hkept; [|rewrite lookup_empty in Hurl; discriminate].
  injection Hurl as ->.
  apply kept_is_a_region in Hkept. destruct Hkept as (r & Hin & Hname & Herror & Hdata).
  unfold Extractor.extractedRegions in Hin. apply List.in_map_iff in Hin.
  destruct Hin as (request & Hr & Hin). exists request.
  unfold Extractor.extractRegion in Hr.
  destruct (crop _) as [croppedBuffer|e] eqn:Hcrop.
  - exists croppedBuffer. subst r. cbn in Hname, Hdata. subst url.
    repeat split; [exact Hin|exact Hname|apply dataUrl_is_plain; exact ""|].
    intros matched before after. apply dataUrl_is_plain.
  - subst r. cbn in Herror. discriminate Herror.
Qed.

Lemma cached_payloads_are_inserted_verbatim_witness :
  let crop := fun r : ExtractRegions.Region =>
                match ExtractRegions.width r with
                | ExtractRegions.Int 20 => Extractor.Cropped (list_ascii_of_string "Man")
                | _ => Extractor.CropFailed "extract_area: bad extract area"
                end in
  let requests :=
    [ {| Extractor.name := "hand";
         Extractor.region := {| ExtractRegions.x := ExtractRegions.Int 620;
                                ExtractRegions.y := ExtractRegions.Int (-5);
                                ExtractRegions.width := ExtractRegions.Int 100;
                                ExtractRegions.height := ExtractRegions.Int 40 |} |} ] in
  RegionCache.regionMappingOf (Extractor.extractedRegions crop 640 480 requests)
    !! "hand" = Some "data:image/png;base64,TWFu"
  /\ exists request croppedBuffer,
       In request requests /\ Extractor.name request = "hand"
       /\ "data:image/png;base64,TWFu" = Base64.dataUrlOf croppedBuffer.
Proof.
  intros crop requests.
  assert (H : RegionCache.regionMappingOf
                (Extractor.extractedRegions crop 640 480 requests) !! "hand"
              = Some "data:image/png;base64,TWFu") by (vm_compute; reflexivity).
  split; [exact H|].
  destruct (cached_payloads_are_inserted_verbatim crop 640 480 requests "hand" _ H)
    as (request & croppedBuffer & Hin & Hname & _ & Hurl & _).
  exists request, croppedBuffer. auto.
Defined.

(** ** All regions of a request *)





(** ** The assembler: rejected fresh starts *)

Lemma trimEnd_cons (c : ascii) (b : string) :
  Js.isWhiteSpace c = false -> Js.trimEnd (String c b) = String c (Js.trimEnd b).
Proof.
  intros Hc. cbn [Js.trimEnd]. destruct (Js.trimEnd b); [rewrite Hc|]; reflexivity.
Qed.

(** A text without white space at its end is kept by [trimEnd] when more text
    follows it. *)
Lemma trimEnd_keeps_opening (a b : string) :
  Js.trimEnd a = a -> exists x, Js.trimEnd (a +:+ b) = a +:+ x.
Proof.
  induction a as [|c a IH]; intros Ha; [exists (Js.trimEnd b); reflexivity|].
  rewrite append_cons. cbn [Js.trimEnd] in Ha |- *.
  destruct (Js.trimEnd a) as [|d r] eqn:Hr.
  - destruct (Js.isWhiteSpace c) eqn:Hc; [discriminate Ha|].
    injection Ha as <-. rewrite append_nil_l.
    exists (Js.trimEnd b). destruct (Js.trimEnd b); reflexivity.
  - injection Ha as Ha. destruct (IH Ha) as [x Hx]. rewrite Hx.
    exists x. rewrite <- Ha. reflexivity.
Qed.

Lemma trim_keeps_opening (ws opening rest : string) (c : ascii) (o : string) :
  allWhiteSpace ws = true -> opening = String c o -> Js.isWhiteSpace c = false ->
  Js.trimEnd opening = opening ->
  Js.startsWith (Js.trim (ws +:+ opening +:+ rest)) opening = true.
Proof.
  intros Hws Ho Hc Hend. unfold Js.trim, Js.startsWith.
  rewrite (trimStart_leading _ _ Hws).
  assert (Hstart : Js.trimStart (opening +:+ rest) = opening +:+ rest).
  { rewrite Ho, append_cons. cbn [Js.trimStart]. rewrite Hc. reflexivity. }
  rewrite Hstart. destruct (trimEnd_keeps_opening opening rest Hend) as [x ->].
  apply prefix_append.
Qed.

(** C5 (amended). A continuation fragment that, after any white space, begins
    with [<mxGraphModel], [<root], [<mxfile], [<mxCell id="0"] or
    [<mxCell id="1"] is rejected: [handleAppendDiagram] answers with one
    error, whose text says that the model started fresh and quotes the last
    500 code units of the buffer (the whole buffer when it is shorter) as the
    point to resume from, and changes nothing else; the buffer in particular
    is exactly what it was, the continuation is not appended, and nothing is
    displayed. *)
Theorem fresh_start_rejected {World : Type} (lib : LibUtils) (env : Env World)
    (callId ws opening rest : string) (s : Sys World) :
  allWhiteSpace ws = true ->
  In opening [ "<mxGraphModel"; "<root"; "<mxfile";
               "<mxCell id=" +:+ Js.dq +:+ "0" +:+ Js.dq;
               "<mxCell id=" +:+ Js.dq +:+ "1" +:+ Js.dq ] ->
  let s' := handleAppendDiagram lib env callId (ws +:+ opening +:+ rest) s in
  partialXmlRef s' = partialXmlRef s
  /\ editDiagramOriginalXmlRef s' = editDiagramOriginalXmlRef s
  /\ world s' = world s
  /\ exists pre quoted,
       partialXmlRef s = pre +:+ quoted
       /\ String.length quoted = Nat.min 500 (String.length (partialXmlRef s))
       /\ toolOutputs s' =
            toolOutputs s ++
            [OutputError "append_diagram" callId
               ("ERROR: You started fresh with wrapper tags. Do NOT include wrapper tags or root cells (id="
                +:+ Js.dq +:+ "0" +:+ Js.dq +:+ ", id=" +:+ Js.dq +:+ "1" +:+ Js.dq +:+ ").

Continue from EXACTLY where the partial ended:
```
" +:+ quoted +:+ "
```

Start your continuation with the NEXT character after where it stopped.")].
Proof.
  intros Hws Hin.
  assert (Hfresh : isFreshStart (ws +:+ opening +:+ rest) = true).
  { unfold isFreshStart. cbv zeta.
    destruct Hin as [<-|[<-|[<-|[<-|[<-|[]]]]]];
      match goal with
      | |- context [Js.trim (ws +:+ ?o +:+ rest)] =>
          rewrite (trim_keeps_opening ws o rest "<" _ Hws eq_refl eq_refl eq_refl)
      end;
      rewrite ?orb_true_r; reflexivity. }
  cbv zeta. unfold handleAppendDiagram. rewrite Hfresh. cbn.
  repeat split.
  destruct (sliceLast_suffix 500 (partialXmlRef s)) as (pre & Hs & Hlen).
  exists pre, (Js.sliceLast 500 (partialXmlRef s)). auto.
Qed.

Lemma fresh_start_rejected_witness :
  let s := {| partialXmlRef := "<mxCell id='2' value='A";
              editDiagramOriginalXmlRef := ∅;
              world := blankPage; toolOutputs := [] |} in
  let s' := handleAppendDiagram detectorUtils (pageEnv (fun _ => None))
              "call-2" ("  " +:+ "<mxfile" +:+ "><diagram>") s in
  partialXmlRef s' = "<mxCell id='2' value='A"
  /\ world s' = blankPage
  /\ exists pre quoted,
       "<mxCell id='2' value='A" = pre +:+ quoted
       /\ String.length quoted = 23%nat
       /\ toolOutputs s' =
            [OutputError "append_diagram" "call-2"
               ("ERROR: You started fresh with wrapper tags. Do NOT include wrapper tags or root cells (id="
                +:+ Js.dq +:+ "0" +:+ Js.dq +:+ ", id=" +:+ Js.dq +:+ "1" +:+ Js.dq +:+ ").

Continue from EXACTLY where the partial ended:
```
" +:+ quoted +:+ "
```

Start your continuation with the NEXT character after where it stopped.")].
Proof.
  intros s s'.
  assert (Hws : allWhiteSpace "  " = true) by reflexivity.
  assert (Hin : In "<mxfile"
                  [ "<mxGraphModel"; "<root"; "<mxfile";
                    "<mxCell id=" +:+ Js.dq +:+ "0" +:+ Js.dq;
                    "<mxCell id=" +:+ Js.dq +:+ "1" +:+ Js.dq ])
    by (right; right; left; reflexivity).
  destruct (fresh_start_rejected detectorUtils (pageEnv (fun _ => None)) "call-2"
              "  " "<mxfile" "><diagram>" s Hws Hin)
    as (Hp & _ & Hw & pre & quoted & Hq & Hlen & Hout).
  split; [exact Hp|]. split; [exact Hw|].
  exists pre, quoted. split; [exact Hq|]. split; [exact Hlen|exact Hout].
Defined.

(** C5, as the spec states it, fails: a continuation that begins with the
    scaffold tag [<diagram>], or with the root cell written with single
    quotes, passes the test of the handler and is appended to the buffer. *)
Lemma fresh_start_counterexample :
  ~ FreshStartsAreRejected
  /\ (let s := {| partialXmlRef := "<mxCell id='2' value='A";
                  editDiagramOriginalXmlRef := ∅;
                  world := blankPage; toolOutputs := [] |} in
      partialXmlRef (handleAppendDiagram detectorUtils (pageEnv (fun _ => None))
                       "call-2" "<diagram><mxGraphModel>" s)
      = "<mxCell id='2' value='A<diagram><mxGraphModel>"
      /\ partialXmlRef (handleAppendDiagram detectorUtils (pageEnv (fun _ => None))
                          "call-2" "<mxCell id='0'/><mxCell id='1' parent='0'/>" s)
         = "<mxCell id='2' value='A<mxCell id='0'/><mxCell id='1' parent='0'/>").
Proof.
  split.
  - intros H.
    specialize (H "<mxCell id='2' value='A" "call-2" "<diagram><mxGraphModel>" eq_refl).
    vm_compute in H. discriminate H.
  - vm_compute. split; reflexivity.
Qed.

(** ** Resolved references *)

Lemma replaceSemicolons_append (a b : string) :
  Js.replaceSemicolons (a +:+ b) = Js.replaceSemicolons a +:+ Js.replaceSemicolons b.
Proof.
  induction a as [|c a IH]; [reflexivity|].
  rewrite append_cons. cbn [Js.replaceSemicolons]. rewrite IH.
  destruct (Ascii.eqb c ";"); [rewrite append_assoc|]; reflexivity.
Qed.



(** ** Resolution in place *)

Lemma render_app (a b : list Placed) (tail : string) :
  render (a ++ b) tail = render a (render b tail).
Proof.
  induction a as [|it a IH]; [reflexivity|].
  cbn [app render]. rewrite IH. reflexivity.
Qed.

Lemma resolveItem_found (cacheKey : string) (regions : gmap string string) (it : Placed) :
  found (resolveItem cacheKey regions it) = found it
  /\ before (resolveItem cacheKey regions it) = before it.
Proof.
  unfold resolveItem. destruct (String.eqb _ _); [|split; reflexivity].
  destruct (regions !! _) as [[|c p]|]; split; reflexivity.
Qed.

Lemma map_found_resolved (cacheKey : string) (regions : gmap string string)
    (items : list Placed) :
  map found (map (resolveItem cacheKey regions) items) = map found items.
Proof.
  rewrite List.map_map. apply List.map_ext. intros it. apply resolveItem_found.
Qed.

Lemma resolveItem_other (cacheKey : string) (regions : gmap string string) (it : Placed) :
  String.eqb (key (found it)) cacheKey = false -> resolveItem cacheKey regions it = it.
Proof. unfold resolveItem. intros ->. reflexivity. Qed.

(** One turn of the loop of a key, at the head of the places not yet passed. *)
Lemma replaceForKey_turn (cacheKey : string) (regions : gmap string string)
    (it : Placed) (rest : list Placed) (tail done : string) :
  reachesOwn cacheKey regions done (it :: rest) tail ->
  replaceForKey cacheKey regions (found it :: map found rest)
    (done +:+ render (it :: rest) tail)
  = replaceForKey cacheKey regions (map found rest)
      ((done +:+ before it +:+ current (resolveItem cacheKey regions it))
       +:+ render rest tail).
Proof.
  intros [Hturn _]. cbn [replaceForKey]. unfold resolveItem, getProperty in *.
  destruct (String.eqb (key (found it)) cacheKey) eqn:Hkey.
  - destruct (regions !! regionName (found it)) as [[|c payload]|] eqn:Hreg.
    + cbn [render]. rewrite !append_assoc. reflexivity.
    + destruct Hturn as [Hsplit Hdollar]. unfold Js.replace.
      unfold searchStrOf in Hsplit. rewrite Hsplit.
      rewrite getSubstitution_plain;
        [|rewrite occurs_append, replaceSemicolons_dollar, Hdollar; reflexivity].
      cbn [current]. rewrite !append_assoc. reflexivity.
    + destruct (bool_decide _); [contradiction|].
      cbn [render]. rewrite !append_assoc. reflexivity.
  - cbn [render]. rewrite !append_assoc. reflexivity.
Qed.

(** The loop of one key, on a text whose references are in place. *)
Lemma replaceForKey_in_place (cacheKey : string) (regions : gmap string string)
    (items : list Placed) (tail done : string) :
  reachesOwn cacheKey regions done items tail ->
  replaceForKey cacheKey regions (map found items) (done +:+ render items tail)
  = done +:+ render (map (resolveItem cacheKey regions) items) tail.
Proof.
  revert done. induction items as [|it rest IH]; intros done Hown; [reflexivity|].
  cbn [map]. rewrite (replaceForKey_turn _ _ _ _ _ _ Hown).
  destruct Hown as [_ Hrest]. rewrite (IH _ Hrest).
  cbn [render]. destruct (resolveItem_found cacheKey regions it) as [_ ->].
  rewrite !append_assoc. reflexivity.
Qed.

Lemma fetchAll_keys {World : Type} (env : Env World) (keys : list string) (w : World) :
  map fst (fst (fetchAll env keys w)) = keys.
Proof.
  revert w. induction keys as [|k keys IH]; intros w; [reflexivity|].
  cbn [fetchAll]. destruct (fetchCachedRegions env k w) as [outcome w'].
  specialize (IH w'). destruct (fetchAll env keys w') as [log w'']. cbn in *.
  rewrite IH. reflexivity.
Qed.

(** The loops of all the keys, on a text whose references are in place. *)
Lemma resolveKeys_in_place {World : Type} (env : Env World) (keys : list string)
    (items : list Placed) (tail : string) (w : World) :
  allReachOwn (fst (fetchAll env keys w)) items tail ->
  resolveKeys env (map found items) keys (render items tail) w
  = (render (passes (fst (fetchAll env keys w)) items) tail,
     snd (fetchAll env keys w)).
Proof.
  revert items w. induction keys as [|k keys IH]; intros items w Hown; [reflexivity|].
  cbn [resolveKeys fetchAll] in *.
  destruct (fetchCachedRegions env k w) as [outcome w'].
  specialize (IH (match served outcome with
                  | Some regions => map (resolveItem k regions) items
                  | None => items
                  end) w').
  destruct (fetchAll env keys w') as [log w'']. cbn [fst snd allReachOwn passes] in *.
  destruct outcome as [|[] [regions|]]; cbn [served] in *;
    try (rewrite (IH Hown); reflexivity).
  destruct Hown as [Hpass Hrest].
  pose proof (replaceForKey_in_place k regions items tail "" Hpass) as Hstep.
  rewrite !append_nil_l in Hstep. rewrite Hstep.
  rewrite <- (map_found_resolved k regions items). exact (IH Hrest).
Qed.

Lemma find_absent (log : list (string * FetchOutcome)) (k : string) :
  ~ In k (map fst log) ->
  List.find (fun e => String.eqb (fst e) k) log = None.
Proof.
  induction log as [|[k0 o] log IH]; intros Hk; [reflexivity|].
  cbn [List.find fst]. destruct (String.eqb_spec k0 k) as [->|_].
  - exfalso. apply Hk. left. reflexivity.
  - apply IH. intros Hin. apply Hk. right. exact Hin.
Qed.

Lemma finalItem_absent (log : list (string * FetchOutcome)) (it : Placed) :
  ~ In (key (found it)) (map fst log) -> finalItem log it = it.
Proof. intros H. unfold finalItem. rewrite (find_absent _ _ H). reflexivity. Qed.

Lemma passes_final (log : list (string * FetchOutcome)) (items : list Placed) :
  NoDup (map fst log) -> passes log items = map (finalItem log) items.
Proof.
  revert items. induction log as [|[k o] log IH]; intros items Hnd.
  - cbn. rewrite List.map_id. reflexivity.
  - cbn [map fst] in Hnd. apply NoDup_cons in Hnd. destruct Hnd as [Hk Hnd].
    rewrite list_elem_of_In in Hk.
    cbn [passes]. rewrite (IH _ Hnd).
    assert (Hitem : forall it,
               finalItem log (match served o with
                              | Some regions => resolveItem k regions it
                              | None => it
                              end)
               = finalItem ((k, o) :: log) it).
    { intros it. unfold finalItem at 2. cbn [List.find fst].
      destruct (String.eqb_spec k (key (found it))) as [Hkey|Hkey].
      - assert (Habsent : forall it', key (found it') = key (found it) ->
                                      finalItem log it' = it').
        { intros it' Hit'. apply finalItem_absent. rewrite Hit', <- Hkey. exact Hk. }
        destruct (served o) as [regions|]; apply Habsent; [|reflexivity].
        destruct (resolveItem_found k regions it) as [-> _]. reflexivity.
      - assert (Hother : String.eqb (key (found it)) k = false).
        { apply String.eqb_neq. congruence. }
        destruct (served o) as [regions|]; [rewrite (resolveItem_other _ _ _ Hother)|];
          reflexivity. }
    destruct (served o) as [regions|].
    + rewrite List.map_map. apply List.map_ext. exact Hitem.
    + apply List.map_ext. exact Hitem.
Qed.

(** Region resolution on a text whose references are in place. *)
Lemma resolution_in_place {World : Type} (env : Env World)
    (items : list Placed) (tail : string) (w : World) :
  cacheMatches (render items tail) = map found items ->
  let run := fetchAll env (cacheKeys (map found items)) w in
  allReachOwn (fst run) items tail ->
  resolveCacheReferences env (render items tail) w
  = (render (map (finalItem (fst run)) items) tail, snd run).
Proof.
  intros Hmatches run Hown. unfold resolveCacheReferences. rewrite Hmatches.
  subst run.
  destruct items as [|it items]; [reflexivity|].
  change (0 <? length (map found (it :: items)))%nat with true. cbv iota.
  rewrite (resolveKeys_in_place env _ _ _ _ Hown).
  rewrite passes_final; [reflexivity|].
  rewrite fetchAll_keys.
  destruct (cacheKeys_fold (map key (map found (it :: items))) [] NoDup_nil_2)
    as [Hnd _]. exact Hnd.
Qed.

(** ** The display handler after region resolution *)

Lemma display_resolved_incomplete {World : Type} (lib : LibUtils) (env : Env World)
    (callId xml : string) (s : Sys World) :
  let r := resolveCacheReferences env xml (world s) in
  isMxCellXmlComplete lib (fst r) = false ->
  handleDisplayDiagram lib env callId xml s =
  {| partialXmlRef := fst r;
     editDiagramOriginalXmlRef := editDiagramOriginalXmlRef s;
     world := snd r;
     toolOutputs :=
       toolOutputs s ++
       [OutputError "display_diagram" callId
          (truncatedText (Js.sliceLast 500 (fst r)))] |}.
Proof.
  cbn zeta. unfold handleDisplayDiagram.
  destruct (resolveCacheReferences env xml (world s)) as [resolved w]. cbn [fst snd].
  intros Hinc. cbn. rewrite Hinc. reflexivity.
Qed.

Lemma display_resolved_complete {World : Type} (lib : LibUtils) (env : Env World)
    (callId xml : string) (s : Sys World) :
  let r := resolveCacheReferences env xml (world s) in
  isMxCellXmlComplete lib (fst r) = true ->
  handleDisplayDiagram lib env callId xml s =
  {| partialXmlRef := "";
     editDiagramOriginalXmlRef := editDiagramOriginalXmlRef s;
     world := snd (onDisplayChart env (wrapWithMxFile lib (fst r)) (snd r));
     toolOutputs :=
       toolOutputs s ++
       [match truthy (fst (onDisplayChart env (wrapWithMxFile lib (fst r)) (snd r))) with
        | Some err =>
            OutputError "display_diagram" callId (displayInvalidText err (fst r))
        | None =>
            OutputAvailable "display_diagram" callId
              "Successfully displayed the diagram."
        end] |}.
Proof.
  cbn zeta. unfold handleDisplayDiagram.
  destruct (resolveCacheReferences env xml (world s)) as [resolved w]. cbn [fst snd].
  intros Hc. cbn. rewrite Hc. cbn.
  destruct (onDisplayChart env _ w) as [v w']. cbn.
  destruct (truthy v); reflexivity.
Qed.

Lemma finalItem_served (log : list (string * FetchOutcome)) (it : Placed) :
  finalItem log it
  = match List.find (fun e => String.eqb (fst e) (key (found it))) log with
    | Some (_, FetchResponse true (Some regions)) =>
        match regions !! regionName (found it) with
        | Some (String c payload) =>
            {| before := before it;
               current := "image=" +:+ Js.replaceSemicolons (String c payload);
               found := found it |}
        | _ => it
        end
    | _ => it
    end.
Proof.
  unfold finalItem.
  destruct (List.find _ log) as [[cacheKey outcome]|] eqn:Hfind; [|reflexivity].
  apply List.find_some in Hfind. destruct Hfind as [_ Hkey]. cbn [fst] in Hkey.
  apply String.eqb_eq in Hkey. subst cacheKey.
  destruct outcome as [|[] [regions|]]; try reflexivity.
  cbn [served]. unfold resolveItem. rewrite String.eqb_refl. reflexivity.
Qed.

Lemma handAndFoot_text :
  render (fst handAndFoot) (snd handAndFoot)
  = imageCell "hand" (fst handServer) "hand" +:+ imageCell "foot" (fst handServer) "foot".
Proof. vm_compute. reflexivity. Qed.

Lemma handAndFoot_in_place :
  cacheMatches (render (fst handAndFoot) (snd handAndFoot)) = map found (fst handAndFoot)
  /\ allReachOwn
       (fst (fetchAll (pageEnv (fun _ => None)) (cacheKeys (map found (fst handAndFoot)))
               handPage))
       (fst handAndFoot) (snd handAndFoot).
Proof. split; [vm_compute; reflexivity|]. vm_compute. repeat split. Qed.

(** C8 (amended). Region resolution never fails the document, and reports no
    list of unresolved references.  Take a text whose references are in place:
    the matches of the pattern are the places of the text, in order, and every
    substitution reaches its own reference (when the turn of a reference with
    a payload comes, the first occurrence of its text is the reference itself;
    payloads hold no dollar sign; no reference of a served key names a member
    the mapping inherits).  Then region resolution fetches every key once, in
    order of first appearance, and returns the text in which every reference
    whose key was served a mapping that holds its region name with a non-empty
    payload is replaced by [image=] and the payload, its semicolons written
    [%3B], and every other reference (key rejected, not ok, without regions,
    or region name absent) stands as written.  On any text, a key whose fetch
    serves nothing and a region name that the mapping lacks leave the text as
    it is.  The handler then goes on with the resolved text: judged incomplete
    it is buffered and answered with the truncation message, judged complete it
    is handed wrapped to the chart and answered with the validation error or
    the success message; that one answer is the only one, and it lists no
    reference.  On a document with two references to one cached key, one to a
    region the cache holds and one to a region it lacks, the chart is shown the
    text with the first replaced and the second as written, and the answer is
    the success message. *)
Theorem unresolved_references_are_kept :
  (forall (World : Type) (env : Env World) (items : list Placed) (tail : string)
          (w : World),
      let run := fetchAll env (cacheKeys (map found items)) w in
      cacheMatches (render items tail) = map found items ->
      allReachOwn (fst run) items tail ->
      resolveCacheReferences env (render items tail) w
      = (render (map (finalItem (fst run)) items) tail, snd run))
  /\ (forall (log : list (string * FetchOutcome)) (it : Placed),
        finalItem log it
        = match List.find (fun e => String.eqb (fst e) (key (found it))) log with
          | Some (_, FetchResponse true (Some regions)) =>
              match regions !! regionName (found it) with
              | Some (String c payload) =>
                  {| before := before it;
                     current := "image=" +:+ Js.replaceSemicolons (String c payload);
                     found := found it |}
              | _ => it
              end
          | _ => it
          end)
  /\ (forall a b : string,
        Js.replaceSemicolons (a +:+ ";" +:+ b)
        = Js.replaceSemicolons a +:+ "%3B" +:+ Js.replaceSemicolons b
        /\ Js.occurs ";" (Js.replaceSemicolons a) = false
        /\ (Js.occurs ";" a = false -> Js.replaceSemicolons a = a))
  /\ (forall (World : Type) (env : Env World) (matches : list CacheMatch)
             (keys : list string) (xml : string) (w : World),
        (forall k w', In k keys -> served (fst (fetchCachedRegions env k w')) = None) ->
        fst (resolveKeys env matches keys xml w) = xml)
  /\ (forall (cacheKey : string) (regions : gmap string string)
             (matches : list CacheMatch) (xml : string),
        (forall m, In m matches -> key m = cacheKey ->
                   getProperty regions (regionName m) = JsUndefined) ->
        replaceForKey cacheKey regions matches xml = xml)
  /\ (forall (World : Type) (lib : LibUtils) (env : Env World) (callId xml : string)
             (s : Sys World),
        let resolved := fst (resolveCacheReferences env xml (world s)) in
        let fetched := snd (resolveCacheReferences env xml (world s)) in
        let shown := onDisplayChart env (wrapWithMxFile lib resolved) fetched in
        handleDisplayDiagram lib env callId xml s
        = if isMxCellXmlComplete lib resolved then
            {| partialXmlRef := "";
               editDiagramOriginalXmlRef := editDiagramOriginalXmlRef s;
               world := snd shown;
               toolOutputs :=
                 toolOutputs s ++
                 [match truthy (fst shown) with
                  | Some err =>
                      OutputError "display_diagram" callId
                        (err +:+ "

Please fix the XML issues and call display_diagram again with corrected XML.

Your failed XML:
```xml
" +:+ resolved +:+ "
```")
                  | None =>
                      OutputAvailable "display_diagram" callId
                        "Successfully displayed the diagram."
                  end] |}
          else
            {| partialXmlRef := resolved;
               editDiagramOriginalXmlRef := editDiagramOriginalXmlRef s;
               world := fetched;
               toolOutputs :=
                 toolOutputs s ++
                 [OutputError "display_diagram" callId
                    ("Output was truncated due to length limits. Use the append_diagram tool to continue.

Your output ended with:
```
" +:+ Js.sliceLast 500 resolved +:+ "
```

NEXT STEP: Call append_diagram with the continuation XML.
- Do NOT include wrapper tags or root cells (id=" +:+ Js.dq +:+ "0" +:+ Js.dq
                     +:+ ", id=" +:+ Js.dq +:+ "1" +:+ Js.dq +:+ ")
- Start from EXACTLY where you stopped
- Complete all remaining mxCell elements")] |})
  /\ (let xml := imageCell "hand" (fst handServer) "hand"
                 +:+ imageCell "foot" (fst handServer) "foot" in
      let s' := handleDisplayDiagram detectorUtils (pageEnv (fun _ => None))
                  "call-1" xml (initial handPage) in
      displayed (world s')
      = [ Wrapper.wrapWithMxFile
            ("<mxCell" +:+ attribute "id" "hand"
             +:+ attribute "style" "shape=image;image=data:image/png%3Bbase64,iVBORw0KGgo=;"
             +:+ attribute "vertex" "1" +:+ attribute "parent" "1" +:+ "/>"
             +:+ imageCell "foot" (fst handServer) "foot") ]
      /\ toolOutputs s'
         = [ OutputAvailable "display_diagram" "call-1"
               "Successfully displayed the diagram." ]).
Proof.
  split; [|split; [|split; [|split; [|split; [|split]]]]].
  - intros World env items tail w. apply resolution_in_place.
  - apply finalItem_served.
  - intros a b. split; [|split].
    + rewrite !replaceSemicolons_append. reflexivity.
    + apply replaceSemicolons_escaped.
    + apply replaceSemicolons_plain.
  - intros World env. apply resolveKeys_unserved.
  - apply replaceForKey_skips.
  - intros World lib env callId xml s. cbn zeta.
    destruct (isMxCellXmlComplete lib (fst (resolveCacheReferences env xml (world s))))
      eqn:Hc.
    + apply (display_resolved_complete lib env callId xml s Hc).
    + apply (display_resolved_incomplete lib env callId xml s Hc).
  - vm_compute. split; reflexivity.
Qed.

(** The document of the example, through the general statement: the places,
    the fetch of the one key, and the resolved text. *)
Lemma unresolved_references_are_kept_witness :
  let items := fst handAndFoot in
  let tail := snd handAndFoot in
  render items tail
  = imageCell "hand" (fst handServer) "hand" +:+ imageCell "foot" (fst handServer) "foot"
  /\ fst (resolveCacheReferences (pageEnv (fun _ => None)) (render items tail) handPage)
     = "<mxCell" +:+ attribute "id" "hand"
       +:+ attribute "style" "shape=image;image=data:image/png%3Bbase64,iVBORw0KGgo=;"
       +:+ attribute "vertex" "1" +:+ attribute "parent" "1" +:+ "/>"
       +:+ imageCell "foot" (fst handServer) "foot".
Proof.
  intros items tail. split; [exact handAndFoot_text|].
  destruct unresolved_references_are_kept as (Hplace & _).
  destruct handAndFoot_in_place as [Hmatches Hown].
  rewrite (Hplace Page (pageEnv (fun _ => None)) items tail handPage Hmatches Hown).
  vm_compute. reflexivity.
Defined.

(** C8, as the spec states it, fails.  With one reference resolved and one
    not, the only tool output is the success message, which names no region.
    And a resolvable reference is not always substituted: when an unresolved
    reference to [hand2] stands before the reference to [hand], the text of
    the second is found first inside the first, which becomes the payload
    followed by [2], and the reference to [hand] stays as written. *)
Lemma unresolved_references_counterexample :
  ~ UnresolvedAreReported
  /\ displayed (world (handleDisplayDiagram detectorUtils (pageEnv (fun _ => None))
                         "call-1"
                         (imageCell "a" (fst handServer) "hand2"
                          +:+ imageCell "b" (fst handServer) "hand")
                         (initial handPage)))
     = [ Wrapper.wrapWithMxFile
           ("<mxCell" +:+ attribute "id" "a"
            +:+ attribute "style" "shape=image;image=data:image/png%3Bbase64,iVBORw0KGgo=2;"
            +:+ attribute "vertex" "1" +:+ attribute "parent" "1" +:+ "/>"
            +:+ imageCell "b" (fst handServer) "hand") ].
Proof.
  split.
  - intros H.
    specialize (H handPage
                  (imageCell "hand" (fst handServer) "hand"
                   +:+ imageCell "foot" (fst handServer) "foot")
                  {| fullMatch := searchStrOf (fst handServer) "foot";
                     key := fst handServer; regionName := "foot" |}).
    destruct H as (o & Hin & Hmentions).
    + vm_compute. right. left. reflexivity.
    + reflexivity.
    + vm_compute in Hin. destruct Hin as [<-|[]]. vm_compute in Hmentions.
      discriminate Hmentions.
  - vm_compute. reflexivity.
Qed.

(** ** Text that follows a text whose references are in place *)

Lemma prefix_of_longer (needle hay more : string) :
  String.prefix needle hay = false ->
  (String.length needle <= String.length hay)%nat ->
  String.prefix needle (hay +:+ more) = false.
Proof.
  revert hay. induction needle as [|c needle IH]; intros hay Hp Hlen.
  - destruct hay; discriminate Hp.
  - destruct hay as [|d hay]; [cbn in Hlen; lia|].
    rewrite append_cons. cbn [String.prefix] in Hp |- *.
    destruct (ascii_dec c d); [|reflexivity].
    apply IH; [exact Hp|cbn in Hlen; lia].
Qed.

(** The first occurrence of a text stays the first when more text follows. *)
Lemma splitFirst_extend (needle hay a b more : string) :
  Js.splitFirst needle hay = Some (a, b) ->
  Js.splitFirst needle (hay +:+ more) = Some (a, b +:+ more).
Proof.
  revert a. induction hay as [|c hay IH]; intros a.
  - destruct needle; [|discriminate]. cbn. intros [= <- <-].
    destruct more; reflexivity.
  - cbn [Js.splitFirst]. destruct (String.prefix needle (String c hay)) eqn:Hp.
    + intros [= <- <-]. pose proof (prefix_drop _ _ Hp) as E.
      set (d := Js.drop (String.length needle) (String c hay)) in *.
      rewrite E, append_assoc, splitFirst_prefix by apply prefix_append.
      rewrite drop_append. reflexivity.
    + destruct (Js.splitFirst needle hay) as [[b' a']|] eqn:Hs; [|discriminate].
      intros [= <- <-]. rewrite append_cons. cbn [Js.splitFirst].
      rewrite <- append_cons, (prefix_of_longer _ _ _ Hp).
      * rewrite (IH _ eq_refl). reflexivity.
      * rewrite (splitFirst_spec _ _ _ _ Hs). cbn [String.length].
        rewrite !length_append. lia.
Qed.

Lemma render_tail (items : list Placed) (tail more : string) :
  render items (tail +:+ more) = render items tail +:+ more.
Proof.
  induction items as [|it items IH]; [reflexivity|].
  cbn [render]. rewrite IH, !append_assoc. reflexivity.
Qed.

Lemma reachesOwn_tail (cacheKey : string) (regions : gmap string string)
    (done : string) (items : list Placed) (tail more : string) :
  reachesOwn cacheKey regions done items tail ->
  reachesOwn cacheKey regions done items (tail +:+ more).
Proof.
  revert done. induction items as [|it items IH]; intros done; [trivial|].
  cbn [reachesOwn]. intros [Hturn Hrest]. split; [|apply IH, Hrest].
  destruct (String.eqb (key (found it)) cacheKey); [|trivial].
  destruct (getProperty regions (regionName (found it))) as [|[|c payload]|];
    try exact Hturn.
  destruct Hturn as [Hsplit Hdollar]. split; [|exact Hdollar].
  change (before it +:+ current it +:+ render items (tail +:+ more))
    with (render (it :: items) (tail +:+ more)).
  rewrite !render_tail, <- append_assoc.
  apply splitFirst_extend. exact Hsplit.
Qed.

Lemma allReachOwn_tail (log : list (string * FetchOutcome)) (items : list Placed)
    (tail more : string) :
  allReachOwn log items tail -> allReachOwn log items (tail +:+ more).
Proof.
  revert items. induction log as [|[cacheKey outcome] log IH]; intros items; [trivial|].
  cbn [allReachOwn]. destruct (served outcome) as [regions|]; [|apply IH].
  intros [Hown Hrest]. split; [apply reachesOwn_tail, Hown|apply IH, Hrest].
Qed.

(** When the references of a text are in place and the text that follows it
    brings no further match of the pattern, region resolution of the two
    together resolves the first as it does alone and leaves what follows as
    written. *)
Lemma resolution_leaves_what_follows {World : Type} (env : Env World)
    (items : list Placed) (tail more : string) (w : World) :
  cacheMatches (render items tail) = map found items ->
  cacheMatches (render items tail +:+ more) = map found items ->
  allReachOwn (fst (fetchAll env (cacheKeys (map found items)) w)) items tail ->
  resolveCacheReferences env (render items tail +:+ more) w
  = (fst (resolveCacheReferences env (render items tail) w) +:+ more,
     snd (resolveCacheReferences env (render items tail) w)).
Proof.
  intros Hfirst Hboth Hown.
  rewrite (resolution_in_place env items tail w Hfirst Hown). cbn [fst snd].
  rewrite <- !render_tail in *.
  apply (resolution_in_place env items (tail +:+ more) w Hboth).
  apply allReachOwn_tail, Hown.
Qed.

(** A text without references is left as written, with what follows it. *)
Lemma resolution_without_references {World : Type} (env : Env World)
    (first more : string) (w : World) :
  cacheMatches (first +:+ more) = [] ->
  cacheMatches first = [] ->
  resolveCacheReferences env (first +:+ more) w
  = (fst (resolveCacheReferences env first w) +:+ more,
     snd (resolveCacheReferences env first w)).
Proof.
  intros Hboth Hfirst. unfold resolveCacheReferences. rewrite Hboth, Hfirst. reflexivity.
Qed.

(** ** The assembler against direct display *)

(** C4 (amended). Take a first fragment that, with its references resolved, is
    judged incomplete, and continuation fragments, none a fresh start, such
    that no buffer before the last is complete and the whole is.  When region
    resolution of the concatenation resolves the first fragment as it does
    alone and leaves the continuations as written (so it is when the
    concatenation holds no reference, and when the references of the first
    fragment are in place and the continuations bring no further match of the
    pattern), display_diagram on the first fragment followed by append_diagram
    on each continuation hands exactly one text to the chart, the wrapped
    concatenation of the resolved first fragment and the continuations, which
    is the text that display_diagram on the concatenation hands to it; both
    leave the buffer empty. *)
Theorem assembly_equals_direct {World : Type} (lib : LibUtils) (env : Env World)
    (callId directId first resolved : string) (fetched : World)
    (cs : list (string * string)) (s : Sys World) :
  resolveCacheReferences env first (world s) = (resolved, fetched) ->
  resolveCacheReferences env (first +:+ Js.concatAll (map snd cs)) (world s)
  = (resolved +:+ Js.concatAll (map snd cs), fetched) ->
  isMxCellXmlComplete lib resolved = false ->
  Forall (fun c => isFreshStart (snd c) = false) cs ->
  Forall (fun b => isMxCellXmlComplete lib b = false)
         (removelast (buffers resolved (map snd cs))) ->
  isMxCellXmlComplete lib (resolved +:+ Js.concatAll (map snd cs)) = true ->
  let assembled :=
    handleToolCalls lib env
      ({| toolCallId := callId; input := display_diagram first |}
       :: map continuation cs) s in
  let direct :=
    handleDisplayDiagram lib env directId (first +:+ Js.concatAll (map snd cs)) s in
  world assembled
  = snd (onDisplayChart env
           (wrapWithMxFile lib (resolved +:+ Js.concatAll (map snd cs))) fetched)
  /\ world direct = world assembled
  /\ partialXmlRef assembled = ""
  /\ partialXmlRef direct = ""
  /\ editDiagramOriginalXmlRef assembled = editDiagramOriginalXmlRef direct.
Proof.
  intros Hfirst Hwhole Hinc0 Hfresh Hinc Hc. cbn zeta.
  pose proof (display_resolved_complete lib env directId
                (first +:+ Js.concatAll (map snd cs)) s) as Hdirect.
  cbn zeta in Hdirect. rewrite Hwhole in Hdirect. cbn [fst snd] in Hdirect.
  rewrite (Hdirect Hc). clear Hdirect Hwhole.
  pose proof (display_resolved_incomplete lib env callId first s) as Hdisplay.
  cbn zeta in Hdisplay. rewrite Hfirst in Hdisplay. cbn [fst snd] in Hdisplay.
  specialize (Hdisplay Hinc0). clear Hfirst.
  assert (Hne : cs <> []).
  { intros ->. cbn in Hc. rewrite append_nil_r in Hc. congruence. }
  destruct (exists_last Hne) as (init & last & ->).
  rewrite !map_app in *. cbn [map] in *.
  rewrite buffers_app in Hinc. cbn [buffers] in Hinc. rewrite removelast_last in Hinc.
  apply Forall_app in Hfresh. destruct Hfresh as [Hfi Hfl].
  inversion Hfl as [|? ? Hflast _]; subst.
  rewrite concatAll_app in *. cbn [Js.concatAll] in *. rewrite append_nil_r in *.
  rewrite <- append_assoc in *.
  rewrite handleToolCalls_cons.
  change (handleToolCall lib env
            {| toolCallId := callId; input := display_diagram first |} s)
    with (handleDisplayDiagram lib env callId first s).
  rewrite Hdisplay.
  rewrite handleToolCalls_app, continuations_accumulate;
    cbn [partialXmlRef]; [|exact Hfi|exact Hinc].
  rewrite handleToolCalls_cons, handleToolCall_continuation.
  cbn [handleToolCalls fold_left].
  rewrite append_complete; cbn [partialXmlRef]; [|assumption|assumption].
  rewrite !displayedState_world, !displayedState_partial, !displayedState_original.
  cbn [world partialXmlRef editDiagramOriginalXmlRef]. repeat split.
Qed.

(** A cell cut after its style, which refers to a region the server holds,
    then the rest of the cell: the reference is resolved either way. *)
Lemma assembly_equals_direct_witness :
  let first := "<mxCell" +:+ attribute "id" "hand"
               +:+ attribute "style"
                     ("shape=image;image=data:cache/" +:+ fst handServer +:+ "/hand;") in
  let rest := attribute "vertex" "1" +:+ attribute "parent" "1" +:+ "/>" in
  let assembled :=
    handleToolCalls detectorUtils (pageEnv (fun _ => None))
      [ {| toolCallId := "call-1"; input := display_diagram first |};
        {| toolCallId := "call-2"; input := append_diagram rest |} ]
      (initial handPage) in
  let direct :=
    handleDisplayDiagram detectorUtils (pageEnv (fun _ => None)) "call-3"
      (first +:+ rest) (initial handPage) in
  displayed (world assembled)
  = [ Wrapper.wrapWithMxFile
        ("<mxCell" +:+ attribute "id" "hand"
         +:+ attribute "style" "shape=image;image=data:image/png%3Bbase64,iVBORw0KGgo=;"
         +:+ rest) ]
  /\ world direct = world assembled
  /\ partialXmlRef assembled = ""
  /\ partialXmlRef direct = "".
Proof.
  intros first rest.
  pose (resolved := "<mxCell" +:+ attribute "id" "hand"
                    +:+ attribute "style"
                          "shape=image;image=data:image/png%3Bbase64,iVBORw0KGgo=;").
  pose (fetched := snd (resolveCacheReferences (pageEnv (fun _ => None)) first handPage)).
  assert (H0 : resolveCacheReferences (pageEnv (fun _ => None)) first
                 (world (initial handPage)) = (resolved, fetched))
    by (vm_compute; reflexivity).
  assert (H1 : resolveCacheReferences (pageEnv (fun _ => None))
                 (first +:+ Js.concatAll (map snd [("call-2", rest)]))
                 (world (initial handPage))
               = (resolved +:+ Js.concatAll (map snd [("call-2", rest)]), fetched))
    by (vm_compute; reflexivity).
  assert (H2 : isMxCellXmlComplete detectorUtils resolved = false) by reflexivity.
  assert (H3 : Forall (fun c : string * string => isFreshStart (snd c) = false)
                 [("call-2", rest)]) by (repeat constructor).
  assert (H4 : Forall (fun b => isMxCellXmlComplete detectorUtils b = false)
                 (removelast (buffers resolved (map snd [("call-2", rest)]))))
    by constructor.
  assert (H5 : isMxCellXmlComplete detectorUtils
                 (resolved +:+ Js.concatAll (map snd [("call-2", rest)])) = true)
    by reflexivity.
  pose proof (assembly_equals_direct detectorUtils (pageEnv (fun _ => None))
                "call-1" "call-3" first resolved fetched [("call-2", rest)]
                (initial handPage) H0 H1 H2 H3 H4 H5) as H.
  cbv zeta in H.
  change (Js.concatAll (map snd [("call-2", rest)])) with (rest +:+ "") in H.
  rewrite append_nil_r in H.
  destruct H as (Hw & Hd & Hp & Hq & _).
  split; [etransitivity; [exact (f_equal displayed Hw)|vm_compute; reflexivity]|].
  split; [exact Hd|]. split; [exact Hp|exact Hq].
Defined.
